(** * ghp: the board store, the field heuristic and the board controllers

    A shallow embedding of the Go packages [internal/domain],
    [internal/store] and the parts of [internal/tui] that drive the store
    (board pagination, optimistic moves, the start-up screens).

    Go values are modelled as follows.
    - [string] is a byte string; Go's [int] is modelled by [Z] (the code only
      compares these numbers, it never computes with them).
    - A [*domain.Card] is a location in [cardMem]; the store keeps such
      pointers and hands them out, so cards live in a heap and writes
      through a pointer are visible to every holder.
    - A [[]string], a [[]*domain.Card] and a [map[string][]string] are
      references too: a location in [sliceMem], [cardSliceMem] and [mapMem].
    - The unexported field [cards map[string]*domain.Card] is held by value:
      no function of the package returns or stores that map anywhere else.
    - [*domain.Project] and [*domain.FieldDef] are read-only after they
      are fetched and are held by value.
    - A Go map is enumerated in an unspecified order.  The model enumerates
      with [map_to_list]; the theorems speak about membership, multiplicity
      and length only. *)

From stdpp Require Import gmap strings list fin_maps pretty.
From Stdlib Require Import ZArith.

Local Open Scope Z_scope.

(** ** Package domain *)

Module Project.
Record t : Type := mk {
  ID : string;
  Number : Z;
  Title : string;
  Owner : string }.
End Project.

Module Option.
Record t : Type := mk {
  ID : string;
  Name : string;
  Color : string;
  Order : Z }.
End Option.

Module FieldDef.
Record t : Type := mk {
  ID : string;
  Name : string;
  Type_ : string;
  Options : list Option.t;
  Order : Z }.
End FieldDef.

Module Card.
Record t : Type := mk {
  ItemID : string;
  ContentType : string;
  Title : string;
  URL : string;
  Repo : string;
  Number : Z;
  GroupOptionID : string;
  Assignees : list string;
  Body : string;
  State : string;
  Labels : list string;
  Author : string;
  CreatedAt : string }.

(** The assignment [card.GroupOptionID = v]. *)
Definition set_GroupOptionID (v : string) (c : t) : t :=
  mk (ItemID c) (ContentType c) (Title c) (URL c) (Repo c) (Number c) v
     (Assignees c) (Body c) (State c) (Labels c) (Author c) (CreatedAt c).
End Card.

#[global] Instance Project_eq_dec : EqDecision Project.t.
Proof. solve_decision. Defined.
#[global] Instance Option_eq_dec : EqDecision Option.t.
Proof. solve_decision. Defined.
#[global] Instance FieldDef_eq_dec : EqDecision FieldDef.t.
Proof. solve_decision. Defined.
#[global] Instance Card_eq_dec : EqDecision Card.t.
Proof. solve_decision. Defined.

Definition FieldTypeSingleSelect : string := "SINGLE_SELECT".
Definition FieldTypeText : string := "TEXT".
Definition FieldTypeNumber : string := "NUMBER".
Definition FieldTypeDate : string := "DATE".
Definition FieldTypeIteration : string := "ITERATION".

Definition ContentTypeIssue : string := "Issue".
Definition ContentTypePullRequest : string := "PullRequest".
Definition ContentTypeDraftIssue : string := "DraftIssue".
Definition ContentTypePrivate : string := "Private".

(** ** Go's [error] values and [strings.EqualFold] *)

(** The error values the program builds: the four sentinels of package
    store, [errors.New msg] (also [fmt.Errorf] without [%w]) and
    [fmt.Errorf("%w: %s", e, s)]. *)
Inductive error : Type :=
  | ErrNoProject
  | ErrNoGroupField
  | ErrCardNotFound
  | ErrInvalidOption
  | errors_New (msg : string)
  | Errorf_w (e : error) (s : string).

#[global] Instance error_eq_dec : EqDecision error.
Proof. solve_decision. Defined.

(** [err.Error()]. *)
Fixpoint Error (e : error) : string :=
  match e with
  | ErrNoProject => "no project set"
  | ErrNoGroupField => "no grouping field set"
  | ErrCardNotFound => "card not found"
  | ErrInvalidOption => "invalid option ID"
  | errors_New msg => msg
  | Errorf_w e s => Error e +:+ ": " +:+ s
  end.

(** [errors.Is err target] for a sentinel [target]. *)
Fixpoint errors_Is (err target : error) : bool :=
  if decide (err = target) then true
  else match err with
       | Errorf_w e _ => errors_Is e target
       | _ => false
       end.

Definition byte_of (c : Ascii.ascii) : N := Ascii.N_of_ascii c.

(** The ASCII step of [strings.EqualFold]: the bytes are equal, or the
    smaller one is an upper-case letter and the larger one is its lower-case
    form. *)
Definition fold_eq_ascii (sr tr : N) : bool :=
  if (sr =? tr)%N then true
  else
    let lo := if (tr <? sr)%N then tr else sr in
    let hi := if (tr <? sr)%N then sr else tr in
    (65 <=? lo)%N && (lo <=? 90)%N && (hi =? lo + 32)%N.

(** [strings.EqualFold s t] for an ASCII [t] (the store calls it with the
    constant ["Status"]).  The runes of [s] are matched one by one with the
    bytes of [t].  Two runes outside ASCII fold to an ASCII letter:
    U+017F (bytes C5 BF) folds to [s] and [S], and U+212A (bytes E2 84 AA)
    folds to [k] and [K]; every other rune outside ASCII, and every byte
    that is not valid UTF-8, matches no ASCII byte. *)
Fixpoint EqualFold (s t : string) : bool :=
  match s, t with
  | EmptyString, EmptyString => true
  | String a s1, String b t1 =>
      if (byte_of a <? 128)%N then
        (byte_of b <? 128)%N && fold_eq_ascii (byte_of a) (byte_of b) && EqualFold s1 t1
      else if (byte_of a =? 197)%N then
        match s1 with
        | String a2 s2 =>
            (byte_of a2 =? 191)%N
            && ((byte_of b =? 83)%N || (byte_of b =? 115)%N)
            && EqualFold s2 t1
        | EmptyString => false
        end
      else if (byte_of a =? 226)%N then
        match s1 with
        | String a2 (String a3 s3) =>
            (byte_of a2 =? 132)%N && (byte_of a3 =? 170)%N
            && ((byte_of b =? 75)%N || (byte_of b =? 107)%N)
            && EqualFold s3 t1
        | _ => false
        end
      else false
  | _, _ => false
  end.

(** ** Package store: the heap and the state *)

Abbreviation loc := positive.

(** [NoStatusKey]: the key of the column of cards without a group value. *)
Definition NoStatusKey : string := "_no_status_".

Record Store : Type := mkStore {
  project : option Project.t;
  groupField : option FieldDef.t;
  viewerLogin : string;
  cards : gmap string loc;
  columns : loc;
  cursor : string;
  hasNextPage : bool;
  rollbackCard : option loc }.

Record Heap : Type := mkHeap {
  cardMem : gmap loc Card.t;
  sliceMem : gmap loc (list string);
  cardSliceMem : gmap loc (list loc);
  mapMem : gmap loc (gmap string loc) }.

Record State : Type := mkState {
  mem : Heap;
  st : Store }.

Definition set_project (v : option Project.t) (s : Store) : Store :=
  mkStore v (groupField s) (viewerLogin s) (cards s) (columns s) (cursor s)
          (hasNextPage s) (rollbackCard s).
Definition set_groupField (v : option FieldDef.t) (s : Store) : Store :=
  mkStore (project s) v (viewerLogin s) (cards s) (columns s) (cursor s)
          (hasNextPage s) (rollbackCard s).
Definition set_viewerLogin (v : string) (s : Store) : Store :=
  mkStore (project s) (groupField s) v (cards s) (columns s) (cursor s)
          (hasNextPage s) (rollbackCard s).
Definition set_cards (v : gmap string loc) (s : Store) : Store :=
  mkStore (project s) (groupField s) (viewerLogin s) v (columns s) (cursor s)
          (hasNextPage s) (rollbackCard s).
Definition set_columns (v : loc) (s : Store) : Store :=
  mkStore (project s) (groupField s) (viewerLogin s) (cards s) v (cursor s)
          (hasNextPage s) (rollbackCard s).
Definition set_cursor (v : string) (s : Store) : Store :=
  mkStore (project s) (groupField s) (viewerLogin s) (cards s) (columns s) v
          (hasNextPage s) (rollbackCard s).
Definition set_hasNextPage (v : bool) (s : Store) : Store :=
  mkStore (project s) (groupField s) (viewerLogin s) (cards s) (columns s)
          (cursor s) v (rollbackCard s).
Definition set_rollbackCard (v : option loc) (s : Store) : Store :=
  mkStore (project s) (groupField s) (viewerLogin s) (cards s) (columns s)
          (cursor s) (hasNextPage s) v.

Definition set_cardMem (v : gmap loc Card.t) (h : Heap) : Heap :=
  mkHeap v (sliceMem h) (cardSliceMem h) (mapMem h).
Definition set_sliceMem (v : gmap loc (list string)) (h : Heap) : Heap :=
  mkHeap (cardMem h) v (cardSliceMem h) (mapMem h).
Definition set_cardSliceMem (v : gmap loc (list loc)) (h : Heap) : Heap :=
  mkHeap (cardMem h) (sliceMem h) v (mapMem h).
Definition set_mapMem (v : gmap loc (gmap string loc)) (h : Heap) : Heap :=
  mkHeap (cardMem h) (sliceMem h) (cardSliceMem h) v.

(** ** The monad of store code

    A method of [*Store] reads and writes the state; [None] is a run-time
    panic (a dereference of a pointer that holds no object). *)

Definition M (A : Type) : Type := State → option (A * State).

Definition ret {A} (a : A) : M A := λ σ, Some (a, σ).

Definition bind {A B} (m : M A) (k : A → M B) : M B :=
  λ σ, match m σ with
       | Some (a, σ1) => k a σ1
       | None => None
       end.

Declare Scope go_scope.

Notation "x ← m ; k" := (bind m (λ x, k))
  (at level 20, m at level 100, k at level 200, only parsing) : go_scope.
Notation "m ;; k" := (bind m (λ _, k))
  (at level 100, k at level 200, right associativity, only parsing) : go_scope.
Delimit Scope go_scope with go.
Bind Scope go_scope with M.
Local Open Scope go_scope.

Definition getStore : M Store := λ σ, Some (st σ, σ).
Definition modifyStore (f : Store → Store) : M unit :=
  λ σ, Some (tt, mkState (mem σ) (f (st σ))).
Definition modifyHeap (f : Heap → Heap) : M unit :=
  λ σ, Some (tt, mkState (f (mem σ)) (st σ)).
Definition panic {A} : M A := λ _, None.

(** [*p] for a card pointer. *)
Definition loadCard (p : loc) : M Card.t :=
  λ σ, match cardMem (mem σ) !! p with
       | Some c => Some (c, σ)
       | None => None
       end.

(** [*p = c]. *)
Definition storeCard (p : loc) (c : Card.t) : M unit :=
  λ σ, match cardMem (mem σ) !! p with
       | Some _ => Some (tt, mkState (set_cardMem (<[p := c]> (cardMem (mem σ))) (mem σ)) (st σ))
       | None => None
       end.

(** [&domain.Card{...}]: a new card object. *)
Definition allocCard (c : Card.t) : M loc :=
  λ σ, let p := fresh (dom (cardMem (mem σ))) in
       Some (p, mkState (set_cardMem (<[p := c]> (cardMem (mem σ))) (mem σ)) (st σ)).

(** The elements of a [[]string]. *)
Definition loadSlice (r : loc) : M (list string) :=
  λ σ, match sliceMem (mem σ) !! r with
       | Some l => Some (l, σ)
       | None => None
       end.

(** A new [[]string] with the elements [l] ([make] followed by [copy], or
    the result of [append]). *)
Definition allocSlice (l : list string) : M loc :=
  λ σ, let r := fresh (dom (sliceMem (mem σ))) in
       Some (r, mkState (set_sliceMem (<[r := l]> (sliceMem (mem σ))) (mem σ)) (st σ)).

(** A new [[]*domain.Card]. *)
Definition allocCardSlice (l : list loc) : M loc :=
  λ σ, let r := fresh (dom (cardSliceMem (mem σ))) in
       Some (r, mkState (set_cardSliceMem (<[r := l]> (cardSliceMem (mem σ))) (mem σ)) (st σ)).

(** The entries of a [map[string][]string]. *)
Definition loadMap (r : loc) : M (gmap string loc) :=
  λ σ, match mapMem (mem σ) !! r with
       | Some m => Some (m, σ)
       | None => None
       end.

(** [m[k] = v] written as the new contents of the map object. *)
Definition storeMap (r : loc) (m : gmap string loc) : M unit :=
  λ σ, match mapMem (mem σ) !! r with
       | Some _ => Some (tt, mkState (set_mapMem (<[r := m]> (mapMem (mem σ))) (mem σ)) (st σ))
       | None => None
       end.

(** [make(map[string][]string)]. *)
Definition allocMap : M loc :=
  λ σ, let r := fresh (dom (mapMem (mem σ))) in
       Some (r, mkState (set_mapMem (<[r := ∅]> (mapMem (mem σ))) (mem σ)) (st σ)).

(** [for _, x := range l { body x }]. *)
Fixpoint forRange {A} (l : list A) (body : A → M unit) : M unit :=
  match l with
  | [] => ret tt
  | x :: l' => body x;; forRange l' body
  end.

(** ** Package store: the operations *)

(** [New()], allocating the column map in the heap [h]. *)
Definition New (h : Heap) : State :=
  let r := fresh (dom (mapMem h)) in
  mkState (set_mapMem (<[r := ∅]> (mapMem h)) h)
          (mkStore None None "" ∅ r "" false None).

Definition SetProject (p : option Project.t) : M unit :=
  modifyStore (set_project p).

Definition GetProject : M (option Project.t) :=
  s ← getStore; ret (project s).

Definition SetViewerLogin (login : string) : M unit :=
  modifyStore (set_viewerLogin login).

Definition GetViewerLogin : M string :=
  s ← getStore; ret (viewerLogin s).

(** The column key of a card: its group value, or [NoStatusKey] when the
    value is empty. *)
Definition columnKey (card : Card.t) : string :=
  if decide (Card.GroupOptionID card = "") then NoStatusKey
  else Card.GroupOptionID card.

(** [rebuildColumns]: a new map, then one [append] per card.  [append]
    yields a slice with the old elements followed by the new one; the old
    slice header is dropped, so whether Go extends the array in place or
    moves it cannot be observed. *)
Definition rebuildStep (r : loc) (x : string * loc) : M unit :=
  let '(itemID, p) := x in
  card ← loadCard p;
  let key := columnKey card in
  m ← loadMap r;
  old ← match m !! key with
        | Some sl => loadSlice sl
        | None => ret []
        end;
  sl ← allocSlice (old ++ [itemID]);
  storeMap r (<[key := sl]> m).

Definition rebuildColumns : M unit :=
  r ← allocMap;
  modifyStore (set_columns r);;
  s ← getStore;
  forRange (map_to_list (cards s)) (rebuildStep r).

Definition SetGroupField (field : option FieldDef.t) : M unit :=
  modifyStore (set_groupField field);;
  rebuildColumns.

Definition GetGroupField : M (option FieldDef.t) :=
  s ← getStore; ret (groupField s).

Definition upsertStep (p : loc) : M unit :=
  card ← loadCard p;
  modifyStore (λ s, set_cards (<[Card.ItemID card := p]> (cards s)) s).

Definition UpsertCards (cs : list loc) : M unit :=
  forRange cs upsertStep;;
  rebuildColumns.

Definition GetCard (itemID : string) : M (option loc * option error) :=
  s ← getStore;
  match cards s !! itemID with
  | None => ret (None, Some ErrCardNotFound)
  | Some p => ret (Some p, None)
  end.

Definition GetAllCards : M loc :=
  s ← getStore;
  allocCardSlice (snd <$> map_to_list (cards s)).

Definition copyStep (result : loc) (x : string * loc) : M unit :=
  let '(optionID, itemIDs) := x in
  l ← loadSlice itemIDs;
  ids ← allocSlice l;
  res ← loadMap result;
  storeMap result (<[optionID := ids]> res).

Definition GetColumns : M (option loc * option error) :=
  s ← getStore;
  match groupField s with
  | None => ret (None, Some ErrNoGroupField)
  | Some _ =>
      m ← loadMap (columns s);
      result ← allocMap;
      forRange (map_to_list m) (copyStep result);;
      ret (Some result, None)
  end.

Definition GetColumnCardIDs (optionID : string) : M loc :=
  s ← getStore;
  m ← loadMap (columns s);
  match m !! optionID with
  | None => allocSlice []
  | Some ids => l ← loadSlice ids; allocSlice l
  end.

(** The card that [MoveCard] saves: seven fields are copied, the other six
    are left at their zero values. *)
Definition rollbackCopy (card : Card.t) : Card.t :=
  Card.mk (Card.ItemID card) (Card.ContentType card) (Card.Title card)
          (Card.URL card) (Card.Repo card) (Card.Number card)
          (Card.GroupOptionID card) [] "" "" [] "" "".

Definition MoveCard (itemID newOptionID : string) : M (option error) :=
  s ← getStore;
  match cards s !! itemID with
  | None => ret (Some ErrCardNotFound)
  | Some p =>
      card ← loadCard p;
      rb ← allocCard (rollbackCopy card);
      modifyStore (set_rollbackCard (Some rb));;
      storeCard p (Card.set_GroupOptionID newOptionID card);;
      rebuildColumns;;
      ret None
  end.

Definition RollbackMove : M (option error) :=
  s ← getStore;
  match rollbackCard s with
  | None => ret (Some (errors_New "no rollback state available"))
  | Some rb =>
      card ← loadCard rb;
      modifyStore (λ s, set_cards (<[Card.ItemID card := rb]> (cards s)) s);;
      rebuildColumns;;
      modifyStore (set_rollbackCard None);;
      ret None
  end.

Definition SetPagination (c : string) (more : bool) : M unit :=
  modifyStore (set_cursor c);;
  modifyStore (set_hasNextPage more).

Definition GetPagination : M (string * bool) :=
  s ← getStore; ret (cursor s, hasNextPage s).

Definition SelectGroupField (fields : list FieldDef.t)
  : option FieldDef.t * list FieldDef.t * option error :=
  let singleSelectFields :=
    filter (λ f, FieldDef.Type_ f = FieldTypeSingleSelect) fields in
  if decide (length singleSelectFields = 0%nat) then
    (None, [], Some (errors_New "no SINGLE_SELECT fields found in project"))
  else
    match List.find (λ f, EqualFold (FieldDef.Name f) "Status") singleSelectFields with
    | Some field => (Some field, [], None)
    | None =>
        if decide (length singleSelectFields = 1%nat) then
          (head singleSelectFields, [], None)
        else (None, singleSelectFields, None)
    end.

Definition ValidateOption (optionID : string) : M (option error) :=
  s ← getStore;
  match groupField s with
  | None => ret (Some ErrNoGroupField)
  | Some f =>
      if decide (optionID = "") then ret None
      else if existsb (λ o, bool_decide (Option.ID o = optionID)) (FieldDef.Options f)
      then ret None
      else ret (Some (Errorf_w ErrInvalidOption optionID))
  end.

Definition Clear : M unit :=
  modifyStore (set_cards ∅);;
  r ← allocMap;
  modifyStore (set_columns r);;
  modifyStore (set_cursor "");;
  modifyStore (set_hasNextPage false);;
  modifyStore (set_rollbackCard None).

Definition Reset : M unit :=
  modifyStore (set_project None);;
  modifyStore (set_groupField None);;
  Clear.

(** ** Reading the heap

    What a holder of a reference sees when it follows it. *)

Definition readSlice (h : Heap) (r : loc) : list string :=
  default [] (sliceMem h !! r).

Definition readMap (h : Heap) (r : loc) : gmap string (list string) :=
  match mapMem h !! r with
  | Some m => omap (λ sl, sliceMem h !! sl) m
  | None => ∅
  end.

Definition readCardSlice (h : Heap) (r : loc) : list Card.t :=
  omap (λ p, cardMem h !! p) (default [] (cardSliceMem h !! r)).

(** The card stored under [itemID], as [GetCard] followed by a dereference
    shows it. *)
Definition readCard (σ : State) (itemID : string) : option Card.t :=
  match cards (st σ) !! itemID with
  | Some p => cardMem (mem σ) !! p
  | None => None
  end.

(** The column index as [GetColumns] shows it. *)
Definition readColumns (σ : State) : gmap string (list string) :=
  readMap (mem σ) (columns (st σ)).

(** ** The column index as a function of the cards *)

Definition addToBucket (b : gmap string (list string)) (key itemID : string)
  : gmap string (list string) :=
  <[key := (b !!! key) ++ [itemID]]> b.

Definition bucketStep (b : gmap string (list string)) (x : string * string)
  : gmap string (list string) :=
  let '(itemID, key) := x in addToBucket b key itemID.

Definition bucketsOf (l : list (string * string)) : gmap string (list string) :=
  foldl bucketStep ∅ l.

(** The pairs (identity, column key) of the cards that [l] points to. *)
Definition keysOf (h : gmap loc Card.t) (l : list (string * loc))
  : list (string * string) :=
  omap (λ '(itemID, p),
          match h !! p with
          | Some c => Some (itemID, columnKey c)
          | None => None
          end) l.

(** The pairs (identity, column key) of the stored cards, in the order of
    enumeration. *)
Definition cardKeys (σ : State) : list (string * string) :=
  keysOf (cardMem (mem σ)) (map_to_list (cards (st σ))).

(** Every pointer the store holds points to an object: the card pointers,
    the saved card, and the column map with its slices. *)
Definition cardsOk (σ : State) : Prop :=
  map_Forall (λ _ p, is_Some (cardMem (mem σ) !! p)) (cards (st σ)).

Definition rollbackOk (σ : State) : Prop :=
  match rollbackCard (st σ) with
  | Some rb => is_Some (cardMem (mem σ) !! rb)
  | None => True
  end.

Definition columnsOk (σ : State) : Prop :=
  match mapMem (mem σ) !! columns (st σ) with
  | Some m => map_Forall (λ _ sl, is_Some (sliceMem (mem σ) !! sl)) m
  | None => False
  end.

Definition wf (σ : State) : Prop := cardsOk σ ∧ rollbackOk σ ∧ columnsOk σ.

#[global] Instance wf_dec σ : Decision (wf σ).
Proof.
  unfold wf, cardsOk, rollbackOk, columnsOk.
  destruct (rollbackCard (st σ)), (mapMem (mem σ) !! columns (st σ)); apply _.
Defined.

(** What [rebuildColumns] leaves behind when it runs from [σ]. *)
Record rebuilt (σ σ' : State) : Prop := mkRebuilt {
  rebuilt_cardMem : cardMem (mem σ') = cardMem (mem σ);
  rebuilt_cardSliceMem : cardSliceMem (mem σ') = cardSliceMem (mem σ);
  rebuilt_sliceMem : sliceMem (mem σ) ⊆ sliceMem (mem σ');
  rebuilt_mapMem : mapMem (mem σ) ⊆ mapMem (mem σ');
  rebuilt_st : st σ' = set_columns (fresh (dom (mapMem (mem σ)))) (st σ);
  rebuilt_columnsOk : columnsOk σ';
  rebuilt_columns : readColumns σ' = bucketsOf (keysOf (cardMem (mem σ)) (map_to_list (cards (st σ)))) }.

(** The column index is the one computed from the cards. *)
Definition indexed (σ : State) : Prop :=
  readColumns σ = bucketsOf (cardKeys σ).

(** ** Package tui: the board

    Of [BoardModel] the fields that pagination and moves read or write are
    modelled.  The calls [rebuildColumns] and [applyFilter] of the board
    refresh the view fields ([columns], [columnNames], [filteredCards],
    [selectedCard], [scrollOffset]) from the store and write nothing else;
    they only read the store, and are left out together with these
    fields.  A [tea.Cmd] is a closure; the model names the closures the
    board builds and runs them with the functions below. *)

Record BoardModel : Type := mkBoard {
  moveMode : bool;
  loading : bool;
  loadingMore : bool;
  nextCursor : string;
  errorToast : string }.

Inductive BoardMsg : Type :=
  | itemsLoadedMsg
  | itemsErrorMsg (err : error)
  | moveSuccessMsg
  | moveErrorMsg (err : error)
  | pageLoadedMsg (cards : list loc) (nextCursor : string) (hasMore : bool)
                  (err : option error).

Inductive BoardCmd : Type :=
  | cmdNil
  | cmdLoadNextPage (cursor : string)
  | cmdReturnMoveError (err : error)
  | cmdUpdateItemField (card : loc) (newOptionID : string).

(** What [client.GetItems] answers: an error, or a page of cards with the
    next cursor and the more-pages flag. *)
Inductive Response : Type :=
  | RespError (err : error)
  | RespPage (cards : list Card.t) (nextCursor : string) (hasMore : bool).

Definition errMissingProjectOrField : error :=
  errors_New "missing project or field".

(** [cardPtrs[i] = &cards[i]]: every card of a page is an object of its
    own. *)
Fixpoint cardPtrs (cs : list Card.t) : M (list loc) :=
  match cs with
  | [] => ret []
  | c :: cs' => p ← allocCard c; ps ← cardPtrs cs'; ret (p :: ps)
  end.

(** The closure of [loadNextPage(cursor)], run against the answers [net]
    the network still has to give.  [GetItems] takes the first answer; with
    no answer left the closure has not returned yet ([None]). *)
Definition loadNextPage (cursor : string) (net : list Response)
  : M (option BoardMsg * list Response) :=
  s ← getStore;
  match project s, groupField s with
  | Some _, Some _ =>
      match net with
      | [] => ret (None, [])
      | RespError err :: net' => ret (Some (pageLoadedMsg [] "" false (Some err)), net')
      | RespPage cs next more :: net' =>
          ps ← cardPtrs cs;
          ret (Some (pageLoadedMsg ps next more None), net')
      end
  | _, _ => ret (Some (pageLoadedMsg [] "" false (Some errMissingProjectOrField)), net)
  end.

Inductive LoopEnd : Type :=
  | LoopDone (allCards : list loc)
  | LoopFailed (err : error)
  | LoopWaiting.

(** The [for] loop of [loadAllItems]. *)
Fixpoint loadAllLoop (net : list Response) (cursor : string) (allCards : list loc)
  : M (LoopEnd * list Response) :=
  match net with
  | [] => ret (LoopWaiting, [])
  | RespError err :: net' => ret (LoopFailed err, net')
  | RespPage cs next more :: net' =>
      ps ← cardPtrs cs;
      if negb more || bool_decide (next = "") then ret (LoopDone (allCards ++ ps), net')
      else loadAllLoop net' next (allCards ++ ps)
  end.

(** The closure of [loadAllItems()]. *)
Definition loadAllItems (net : list Response)
  : M (option BoardMsg * list Response) :=
  s ← getStore;
  match project s, groupField s with
  | Some _, Some _ =>
      Clear;;
      r ← loadAllLoop net "" [];
      match r with
      | (LoopDone allCards, net') =>
          UpsertCards allCards;;
          SetPagination "" false;;
          ret (Some itemsLoadedMsg, net')
      | (LoopFailed err, net') => ret (Some (itemsErrorMsg err), net')
      | (LoopWaiting, net') => ret (None, net')
      end
  | _, _ => ret (Some (itemsErrorMsg errMissingProjectOrField), net)
  end.

Definition set_moveMode (v : bool) (m : BoardModel) : BoardModel :=
  mkBoard v (loading m) (loadingMore m) (nextCursor m) (errorToast m).
Definition set_loading (v : bool) (m : BoardModel) : BoardModel :=
  mkBoard (moveMode m) v (loadingMore m) (nextCursor m) (errorToast m).
Definition set_loadingMore (v : bool) (m : BoardModel) : BoardModel :=
  mkBoard (moveMode m) (loading m) v (nextCursor m) (errorToast m).
Definition set_nextCursor (v : string) (m : BoardModel) : BoardModel :=
  mkBoard (moveMode m) (loading m) (loadingMore m) v (errorToast m).
Definition set_errorToast (v : string) (m : BoardModel) : BoardModel :=
  mkBoard (moveMode m) (loading m) (loadingMore m) (nextCursor m) v.

(** [BoardModel.Update]: the cases of the messages above.  [itemsErrorMsg]
    has no case in the source and falls through to [return m, nil]. *)
Definition BoardUpdate (m : BoardModel) (msg : BoardMsg) : M (BoardModel * BoardCmd) :=
  match msg with
  | itemsLoadedMsg =>
      ret (set_loadingMore false (set_loading false m), cmdNil)
  | pageLoadedMsg cs next more (Some err) =>
      ret (set_errorToast ("Load failed: " +:+ Error err) (set_loadingMore false m), cmdNil)
  | pageLoadedMsg cs next more None =>
      UpsertCards cs;;
      if more && negb (bool_decide (next = "")) then
        ret (set_nextCursor next (set_loadingMore true m), cmdLoadNextPage next)
      else
        ret (set_nextCursor "" (set_loadingMore false m), cmdNil)
  | moveSuccessMsg =>
      ret (set_moveMode false m, cmdNil)
  | moveErrorMsg err =>
      _ ← RollbackMove;
      ret (set_errorToast ("Move failed: " +:+ Error err) m, cmdNil)
  | itemsErrorMsg _ => ret (m, cmdNil)
  end.

(** [moveCardToColumn]; [selected] is what [m.getSelectedCard()] returns,
    a card pointer of the store or nil. *)
Definition moveCardToColumn (selected : option loc) (targetColID : string) : M BoardCmd :=
  match selected with
  | None => ret cmdNil
  | Some p =>
      card ← loadCard p;
      let newOptionID :=
        if decide (targetColID = NoStatusKey) then "" else targetColID in
      err ← MoveCard (Card.ItemID card) newOptionID;
      match err with
      | Some e => ret (cmdReturnMoveError e)
      | None => ret (cmdUpdateItemField p newOptionID)
      end
  end.

(** The closure that [moveCardToColumn] returns after a successful local
    move; [answer] is what [client.UpdateItemField] returns. *)
Definition updateItemField (answer : option error) : M BoardMsg :=
  s ← getStore;
  match project s, groupField s with
  | Some _, Some _ =>
      match answer with
      | Some err => ret (moveErrorMsg err)
      | None => ret moveSuccessMsg
      end
  | _, _ => ret (moveErrorMsg errMissingProjectOrField)
  end.

(** Background loading as the event loop runs it: the closure of
    [loadNextPage] delivers a [pageLoadedMsg], [Update] handles it and may
    return the next [loadNextPage].  [fuel] bounds the number of rounds. *)
Inductive PagingEnd : Type :=
  | PagingStopped
  | PagingWaiting
  | PagingOutOfFuel.

Fixpoint backgroundLoad (fuel : nat) (m : BoardModel) (cursor : string)
    (net : list Response) : M (PagingEnd * BoardModel * list Response) :=
  match fuel with
  | O => ret (PagingOutOfFuel, m, net)
  | S fuel' =>
      r ← loadNextPage cursor net;
      match r with
      | (None, net') => ret (PagingWaiting, m, net')
      | (Some msg, net') =>
          r' ← BoardUpdate m msg;
          match r' with
          | (m', cmdLoadNextPage c) => backgroundLoad fuel' m' c net'
          | (m', _) => ret (PagingStopped, m', net')
          end
      end
  end.

(** The reload of key [r]: [loading] is set, the closure of [loadAllItems]
    runs, and [Update] handles its message. *)
Definition reloadAll (m : BoardModel) (net : list Response)
  : M (option BoardModel * list Response) :=
  r ← loadAllItems net;
  match r with
  | (None, net') => ret (None, net')
  | (Some msg, net') =>
      r' ← BoardUpdate (set_loading true m) msg;
      ret (Some r'.1, net')
  end.

(** ** Package tui: the start-up screens *)

Inductive AppScreen : Type :=
  | ScreenLoading
  | ScreenOwner
  | ScreenProjectPicker
  | ScreenFieldPicker
  | ScreenBoard
  | ScreenDetail.

#[global] Instance AppScreen_eq_dec : EqDecision AppScreen.
Proof. solve_decision. Defined.

(** The model of the current screen, as far as the two handlers below
    build it. *)
Inductive ScreenModel : Type :=
  | ProjectPickerModel (projects : list Project.t)
  | GroupFieldPickerModel (fields : list FieldDef.t)
  | OtherModel.

Inductive AppCmd : Type :=
  | appNil
  | appLoadFields
  | appLoadItemsAndShowBoard
  | appPickerInit.

(** [AppModel] without the client, the context and the owner type and
    id. *)
Record AppModel : Type := mkApp {
  ownerFlag : string;
  projectFlag : Z;
  groupFieldFlag : string;
  currentScreen : AppScreen;
  currentModel : option ScreenModel;
  err : option error;
  loadingMsg : string;
  ownerLogin : string;
  appProject : option Project.t;
  fields : list FieldDef.t;
  appGroupField : option FieldDef.t }.

Definition set_err (v : option error) (m : AppModel) : AppModel :=
  mkApp (ownerFlag m) (projectFlag m) (groupFieldFlag m) (currentScreen m)
        (currentModel m) v (loadingMsg m) (ownerLogin m) (appProject m)
        (fields m) (appGroupField m).
Definition set_screen (sc : AppScreen) (cm : option ScreenModel) (m : AppModel) : AppModel :=
  mkApp (ownerFlag m) (projectFlag m) (groupFieldFlag m) sc cm (err m)
        (loadingMsg m) (ownerLogin m) (appProject m) (fields m) (appGroupField m).
Definition set_loadingMsg (v : string) (m : AppModel) : AppModel :=
  mkApp (ownerFlag m) (projectFlag m) (groupFieldFlag m) (currentScreen m)
        (currentModel m) (err m) v (ownerLogin m) (appProject m) (fields m)
        (appGroupField m).
Definition set_appProject (v : option Project.t) (m : AppModel) : AppModel :=
  mkApp (ownerFlag m) (projectFlag m) (groupFieldFlag m) (currentScreen m)
        (currentModel m) (err m) (loadingMsg m) (ownerLogin m) v (fields m)
        (appGroupField m).
Definition set_fields (v : list FieldDef.t) (m : AppModel) : AppModel :=
  mkApp (ownerFlag m) (projectFlag m) (groupFieldFlag m) (currentScreen m)
        (currentModel m) (err m) (loadingMsg m) (ownerLogin m) (appProject m) v
        (appGroupField m).
Definition set_appGroupField (v : option FieldDef.t) (m : AppModel) : AppModel :=
  mkApp (ownerFlag m) (projectFlag m) (groupFieldFlag m) (currentScreen m)
        (currentModel m) (err m) (loadingMsg m) (ownerLogin m) (appProject m)
        (fields m) v.

(** [NewAppModel]. *)
Definition NewAppModel (ownerFlag : string) (projectFlag : Z) (groupFieldFlag : string)
  : AppModel :=
  mkApp ownerFlag projectFlag groupFieldFlag ScreenLoading None None
        "Connecting to GitHub..." "" None [] None.

(** The case [projectsLoadedMsg] of [AppModel.Update]. *)
Definition projectsLoaded (m : AppModel) (projects : list Project.t)
  : M (AppModel * AppCmd) :=
  if decide (0 < projectFlag m) then
    match List.find (λ proj, bool_decide (Project.Number proj = projectFlag m)) projects with
    | Some proj =>
        SetProject (Some proj);;
        ret (set_loadingMsg ("Loading fields for " +:+ Project.Title proj +:+ "...")
               (set_appProject (Some proj) m),
             appLoadFields)
    | None =>
        ret (set_err (Some (errors_New
                 ("project #" +:+ pretty (projectFlag m) +:+ " not found for owner "
                  +:+ ownerLogin m))) m,
             appNil)
    end
  else
    ret (set_screen ScreenProjectPicker (Some (ProjectPickerModel projects)) m,
         appPickerInit).

(** The case [fieldsLoadedMsg] of [AppModel.Update]. *)
Definition fieldsLoaded (m0 : AppModel) (fs : list FieldDef.t)
  : M (AppModel * AppCmd) :=
  let m := set_fields fs m0 in
  match SelectGroupField fs with
  | (_, _, Some e) => ret (set_err (Some e) m, appNil)
  | (selected, candidates, None) =>
      if decide (groupFieldFlag m ≠ "") then
        match List.find (λ f, bool_decide (FieldDef.Name f = groupFieldFlag m)) fs with
        | Some f =>
            SetGroupField (Some f);;
            ret (set_appGroupField (Some f) m, appLoadItemsAndShowBoard)
        | None =>
            ret (set_err (Some (errors_New
                     ("field '" +:+ groupFieldFlag m +:+ "' not found in project"))) m,
                 appNil)
        end
      else
        match selected with
        | Some f =>
            SetGroupField (Some f);;
            ret (set_appGroupField (Some f) m, appLoadItemsAndShowBoard)
        | None =>
            ret (set_screen ScreenFieldPicker (Some (GroupFieldPickerModel candidates)) m,
                 appPickerInit)
        end
  end.

(** [AppModel.View] shows the error, and nothing else, once [err] is
    set. *)
Definition showsError (m : AppModel) : bool :=
  bool_decide (err m ≠ None).

(** ** Sequences of store operations *)

Inductive StoreOp : Type :=
  | OpSetGroupField (field : option FieldDef.t)
  | OpUpsertCards (cs : list loc)
  | OpMoveCard (itemID newOptionID : string)
  | OpRollbackMove
  | OpClear
  | OpReset.

Definition runOp (o : StoreOp) : M unit :=
  match o with
  | OpSetGroupField field => SetGroupField field
  | OpUpsertCards cs => UpsertCards cs
  | OpMoveCard itemID newOptionID => _ ← MoveCard itemID newOptionID; ret tt
  | OpRollbackMove => _ ← RollbackMove; ret tt
  | OpClear => Clear
  | OpReset => Reset
  end.

(** The states of a store: a new store, then any sequence of the six
    operations; in between the caller may build new cards. *)
Inductive reachable : State → Prop :=
  | reachable_New h : reachable (New h)
  | reachable_op σ o σ' :
      reachable σ → runOp o σ = Some (tt, σ') → reachable σ'
  | reachable_newCard σ c p σ' :
      reachable σ → allocCard c σ = Some (p, σ') → reachable σ'.

(** The state in which [MoveCard] calls [rebuildColumns]: the copy of the
    card [c] at [p] is saved and the card has its new group value. *)
Definition moveWritten (σ : State) (p : loc) (c : Card.t) (newOptionID : string) : State :=
  let rb := fresh (dom (cardMem (mem σ))) in
  mkState
    (set_cardMem (<[p := Card.set_GroupOptionID newOptionID c]>
                    (<[rb := rollbackCopy c]> (cardMem (mem σ)))) (mem σ))
    (set_rollbackCard (Some rb) (st σ)).

(** The state in which [RollbackMove] calls [rebuildColumns]. *)
Definition rollbackWritten (σ : State) (rb : loc) (c : Card.t) : State :=
  mkState (mem σ) (set_cards (<[Card.ItemID c := rb]> (cards (st σ))) (st σ)).

(** The card map after the loop of [UpsertCards]. *)
Definition upsertAll (h : gmap loc Card.t) (cs : list loc) (m : gmap string loc)
  : gmap string loc :=
  foldl (λ m p, match h !! p with
                | Some c => <[Card.ItemID c := p]> m
                | None => m
                end) m cs.

(** ** What a caller reads

    An accessor is run and the references it returns are followed; [None]
    is a panic. *)

Definition obsGetCard (itemID : string) (σ : State)
  : option (option Card.t * option error) :=
  match GetCard itemID σ with
  | Some ((Some p, e), σ') => Some (cardMem (mem σ') !! p, e)
  | Some ((None, e), _) => Some (None, e)
  | None => None
  end.

Definition obsGetAllCards (σ : State) : option (list Card.t) :=
  match GetAllCards σ with
  | Some (r, σ') => Some (readCardSlice (mem σ') r)
  | None => None
  end.

Definition obsGetColumns (σ : State)
  : option (option (gmap string (list string)) * option error) :=
  match GetColumns σ with
  | Some ((Some r, e), σ') => Some (Some (readMap (mem σ') r), e)
  | Some ((None, e), _) => Some (None, e)
  | None => None
  end.

Definition obsGetColumnCardIDs (optionID : string) (σ : State) : option (list string) :=
  match GetColumnCardIDs optionID σ with
  | Some (r, σ') => Some (readSlice (mem σ') r)
  | None => None
  end.

Definition obsValue {A} (m : M A) (σ : State) : option A :=
  match m σ with
  | Some (a, _) => Some a
  | None => None
  end.

(** Every read of the store gives the same result in [σ1] and [σ2]. *)
Definition sameReads (σ1 σ2 : State) : Prop :=
  obsValue GetProject σ1 = obsValue GetProject σ2
  ∧ obsValue GetGroupField σ1 = obsValue GetGroupField σ2
  ∧ obsValue GetViewerLogin σ1 = obsValue GetViewerLogin σ2
  ∧ obsValue GetPagination σ1 = obsValue GetPagination σ2
  ∧ (∀ v, obsValue (ValidateOption v) σ1 = obsValue (ValidateOption v) σ2)
  ∧ (∀ itemID, obsGetCard itemID σ1 = obsGetCard itemID σ2)
  ∧ obsGetAllCards σ1 = obsGetAllCards σ2
  ∧ obsGetColumns σ1 = obsGetColumns σ2
  ∧ (∀ optionID, obsGetColumnCardIDs optionID σ1 = obsGetColumnCardIDs optionID σ2).

(** A caller that holds the locations [fp] writes to them, and may build
    new objects; the store's own fields are unexported and stay. *)
Record Footprint : Type := mkFootprint {
  fpCards : gset loc;
  fpSlices : gset loc;
  fpCardSlices : gset loc;
  fpMaps : gset loc }.

Definition keptOutside {V} (fp : gset loc) (h h' : gmap loc V) : Prop :=
  ∀ l v, l ∉ fp → h !! l = Some v → h' !! l = Some v.

Definition callerWrites (fp : Footprint) (σ σ' : State) : Prop :=
  st σ' = st σ
  ∧ keptOutside (fpCards fp) (cardMem (mem σ)) (cardMem (mem σ'))
  ∧ keptOutside (fpSlices fp) (sliceMem (mem σ)) (sliceMem (mem σ'))
  ∧ keptOutside (fpCardSlices fp) (cardSliceMem (mem σ)) (cardSliceMem (mem σ'))
  ∧ keptOutside (fpMaps fp) (mapMem (mem σ)) (mapMem (mem σ')).

(** The structure behind a column map: the map object and its slices. *)
Definition columnsFootprint (h : Heap) (r : loc) : Footprint :=
  mkFootprint ∅
    (match mapMem h !! r with
     | Some m => list_to_set (snd <$> map_to_list m)
     | None => ∅
     end)
    ∅ {[r]}.

(** The structure behind a [[]string]. *)
Definition sliceFootprint (r : loc) : Footprint :=
  mkFootprint ∅ {[r]} ∅ ∅.

(** The structure behind a [[]*domain.Card]: the slice and the cards its
    elements point to. *)
Definition cardSliceFootprint (h : Heap) (r : loc) : Footprint :=
  mkFootprint (list_to_set (default [] (cardSliceMem h !! r))) ∅ {[r]} ∅.

(** The slice alone, without the cards behind its elements. *)
Definition cardSliceOnlyFootprint (r : loc) : Footprint :=
  mkFootprint ∅ ∅ {[r]} ∅.

(** The heap [h2] holds every object of [h1]. *)
Definition heapSub (h1 h2 : Heap) : Prop :=
  cardMem h1 ⊆ cardMem h2
  ∧ sliceMem h1 ⊆ sliceMem h2
  ∧ cardSliceMem h1 ⊆ cardSliceMem h2
  ∧ mapMem h1 ⊆ mapMem h2.

(** What [GetColumns] leaves behind: a new map with new slices that hold
    the same identities as the store's columns. *)
Record copied (σ σ' : State) (r : loc) : Prop := mkCopied {
  copied_st : st σ' = st σ;
  copied_heap : heapSub (mem σ) (mem σ');
  copied_cardMem : cardMem (mem σ') = cardMem (mem σ);
  copied_fresh : mapMem (mem σ) !! r = None;
  copied_slices : ∃ res, mapMem (mem σ') !! r = Some res
      ∧ ∀ k sl, res !! k = Some sl →
          sliceMem (mem σ) !! sl = None ∧ is_Some (sliceMem (mem σ') !! sl);
  copied_read : readMap (mem σ') r = readColumns σ }.

(** ** Fixtures (after the tests of package store) *)

Definition mkCard (itemID contentType title url repo : string) (number : Z)
    (groupOptionID : string) : Card.t :=
  Card.mk itemID contentType title url repo number groupOptionID [] "" "" [] "" "".

Definition createTestProject : Project.t :=
  Project.mk "proj_123" 1 "Test Project" "testorg".

Definition createTestStatusField : FieldDef.t :=
  FieldDef.mk "field_status" "Status" FieldTypeSingleSelect
    [ Option.mk "opt_todo" "Todo" "" 0;
      Option.mk "opt_inprogress" "In Progress" "" 0;
      Option.mk "opt_done" "Done" "" 0 ] 0.


Definition createTestCards : list Card.t :=
  [ mkCard "item_1" ContentTypeIssue "Fix bug"
      "https://github.com/test/repo/issues/1" "test/repo" 1 "opt_todo";
    mkCard "item_2" ContentTypePullRequest "Add feature"
      "https://github.com/test/repo/pull/2" "test/repo" 2 "opt_inprogress";
    mkCard "item_3" ContentTypeDraftIssue "Draft task" "" "" 0 "";
    mkCard "item_4" ContentTypeIssue "Another bug"
      "https://github.com/test/repo/issues/4" "test/repo" 4 "opt_done" ].

(** A heap that holds the cards [cs] at the locations 1, 2, ... and
    nothing else. *)
Definition heapOfCards (cs : list Card.t) : Heap :=
  mkHeap (list_to_map (zip (Pos.of_nat <$> seq 1 (length cs)) cs)) ∅ ∅ ∅.

(** The state after a sequence of operations, if none panics. *)
Fixpoint runOps (ops : list StoreOp) (σ : State) : option State :=
  match ops with
  | [] => Some σ
  | o :: ops' =>
      match runOp o σ with
      | Some (_, σ') => runOps ops' σ'
      | None => None
      end
  end.

(** A store grouped by Status that holds the four test cards. *)
Definition loadOps (n : nat) : list StoreOp :=
  [OpSetGroupField (Some createTestStatusField);
   OpUpsertCards (Pos.of_nat <$> seq 1 n)].

Definition testStore : option State :=
  runOps (loadOps 4) (New (heapOfCards createTestCards)).

(** A card whose group value is no option of the Status field, and one
    with assignees, a body, a state, labels, an author and a date. *)
Definition strayCard : Card.t :=
  mkCard "item_9" ContentTypeIssue "Stray" "" "test/repo" 9 "opt_high".

Definition fullCard : Card.t :=
  Card.mk "item_1" ContentTypeIssue "Fix bug"
    "https://github.com/test/repo/issues/1" "test/repo" 1 "opt_todo"
    ["alice"; "bob"] "The body" "OPEN" ["bug"] "carol" "2024-01-01T00:00:00Z".

Definition strayStore : option State :=
  runOps (loadOps 1) (New (heapOfCards [strayCard])).

Definition fullStore : option State :=
  runOps (loadOps 1) (New (heapOfCards [fullCard])).

(** The test store after the move of [item_1] to [opt_done]: a rollback
    card is saved. *)
Definition movedStore : option State :=
  runOps (loadOps 4 ++ [OpMoveCard "item_1" "opt_done"])
         (New (heapOfCards createTestCards)).

(** The test store as a state, the result of [GetAllCards] in it, and the
    state after the caller has written a title through the pointer 1, which
    is one of the returned pointers. *)
Definition testState : State := default (New (heapOfCards [])) testStore.

Definition afterGetAllCards : loc * State :=
  default (1%positive, testState) (GetAllCards testState).

(** A field without options. *)
Definition plainField (name type_ : string) : FieldDef.t :=
  FieldDef.mk ("field_" +:+ name) name type_ [] 0.

(** A new store with the project set, as the handler of the fetched fields
    finds it. *)
Definition projectState : State :=
  match SetProject (Some createTestProject) (New (heapOfCards [])) with
  | Some (_, σ) => σ
  | None => New (heapOfCards [])
  end.

(** ** Statements about the column index *)

(** The group value [v] is an option of the field [f]. *)
Definition recognized (f : FieldDef.t) (v : string) : Prop :=
  v ∈ Option.ID <$> FieldDef.Options f.

(** The columns that [GetColumns] returns split the stored identities:
    every stored identity has a card, sits once in the bucket of its column
    key and in no other bucket, and the buckets hold stored identities
    only.  Without a grouping field [GetColumns] fails. *)
Definition columnsPartition (σ : State) : Prop :=
  match groupField (st σ) with
  | None => GetColumns σ = Some ((None, Some ErrNoGroupField), σ)
  | Some _ =>
      ∃ r σ',
        GetColumns σ = Some ((Some r, None), σ')
        ∧ (∀ itemID, is_Some (cards (st σ) !! itemID) → is_Some (readCard σ itemID))
        ∧ (∀ itemID c, readCard σ itemID = Some c →
             (∀ k, itemID ∈ readMap (mem σ') r !!! k ↔ k = columnKey c)
             ∧ NoDup (readMap (mem σ') r !!! columnKey c))
        ∧ (∀ itemID k, itemID ∈ readMap (mem σ') r !!! k →
             is_Some (cards (st σ) !! itemID))
  end.

(** The sentence of the specification on the sentinel bucket: a card sits
    in the bucket [NoStatusKey] exactly when its group value is empty or is
    no option of the active field. *)
Definition sentinelIffEmptyOrUnrecognized (σ : State) : Prop :=
  ∀ f cols itemID c,
    groupField (st σ) = Some f →
    obsGetColumns σ = Some (Some cols, None) →
    readCard σ itemID = Some c →
    (itemID ∈ cols !!! NoStatusKey
     ↔ Card.GroupOptionID c = "" ∨ ¬ recognized f (Card.GroupOptionID c)).

(** ** The four rules of the field heuristic, in the words of the
    specification *)

Definition isSingleSelect (f : FieldDef.t) : Prop :=
  FieldDef.Type_ f = FieldTypeSingleSelect.

(** The name equals "Status" without regard to case. *)
Definition isStatus (f : FieldDef.t) : Prop :=
  EqualFold (FieldDef.Name f) "Status" = true.

Inductive Rule : Type :=
  | RuleNoSelectableFields
  | RuleStatus
  | RuleOnlyOne
  | RuleCandidates.

(** When each rule applies: the rules are tried in this order, and a rule
    applies only if none of the earlier ones does. *)
Definition fires (fields : list FieldDef.t) (r : Rule) : Prop :=
  let subset := filter isSingleSelect fields in
  match r with
  | RuleNoSelectableFields => subset = []
  | RuleStatus => subset ≠ [] ∧ Exists isStatus subset
  | RuleOnlyOne => subset ≠ [] ∧ ¬ Exists isStatus subset ∧ length subset = 1%nat
  | RuleCandidates =>
      subset ≠ [] ∧ ¬ Exists isStatus subset ∧ length subset ≠ 1%nat
  end.

(** What each rule returns. *)
Definition outcome (fields : list FieldDef.t) (r : Rule)
    (result : option FieldDef.t * list FieldDef.t * option error) : Prop :=
  let subset := filter isSingleSelect fields in
  match r with
  | RuleNoSelectableFields =>
      result = (None, [], Some (errors_New "no SINGLE_SELECT fields found in project"))
  | RuleStatus =>
      ∃ before f after,
        fields = before ++ f :: after
        ∧ isSingleSelect f ∧ isStatus f
        ∧ Forall (λ g, ¬ (isSingleSelect g ∧ isStatus g)) before
        ∧ result = (Some f, [], None)
  | RuleOnlyOne =>
      ∃ f, subset = [f] ∧ result = (Some f, [], None)
  | RuleCandidates => result = (None, subset, None)
  end.

(** ** [ValidateOption], in the words of the specification *)

Definition validateOutcome (σ : State) (value : string) (e : option error) : Prop :=
  match groupField (st σ) with
  | None => e = Some ErrNoGroupField
  | Some f =>
      (value = "" → e = None)
      ∧ (value ≠ "" →
         (e = None ↔ ∃ o, o ∈ FieldDef.Options f ∧ Option.ID o = value)
         ∧ (e ≠ None →
            e = Some (Errorf_w ErrInvalidOption value)
            ∧ errors_Is (Errorf_w ErrInvalidOption value) ErrInvalidOption = true))
  end.

(** ** Statements about the accessors that return collections *)

(** The results of [GetColumns], [GetColumnCardIDs] and [GetAllCards] are
    structures of their own: whatever the caller writes into the map and
    its slices, into the slice of identities, or into the slice of card
    pointers, every read of the store gives what it gave before the call.
    For [GetAllCards] the cards behind the pointers are not part of the
    structure here. *)
Definition resultsAreCopies (σ : State) : Prop :=
  (∀ r e σ1 σ2,
     GetColumns σ = Some ((Some r, e), σ1) →
     callerWrites (columnsFootprint (mem σ1) r) σ1 σ2 →
     sameReads σ σ2)
  ∧ (∀ optionID r σ1 σ2,
       GetColumnCardIDs optionID σ = Some (r, σ1) →
       callerWrites (sliceFootprint r) σ1 σ2 →
       sameReads σ σ2)
  ∧ (∀ r σ1 σ2,
       GetAllCards σ = Some (r, σ1) →
       callerWrites (cardSliceOnlyFootprint r) σ1 σ2 →
       sameReads σ σ2).

(** The sentence of the specification for [GetAllCards], with the cards
    behind the returned pointers counted as part of what is returned. *)
Definition allCardsIndependent (σ : State) : Prop :=
  ∀ r σ1 σ2,
    GetAllCards σ = Some (r, σ1) →
    callerWrites (cardSliceFootprint (mem σ1) r) σ1 σ2 →
    sameReads σ σ2.

(** The caller's write [card.Title = title] through a pointer it got. *)
Definition writeTitle (p : loc) (title : string) : M unit :=
  c ← loadCard p;
  storeCard p (Card.mk (Card.ItemID c) (Card.ContentType c) title (Card.URL c)
                 (Card.Repo c) (Card.Number c) (Card.GroupOptionID c)
                 (Card.Assignees c) (Card.Body c) (Card.State c)
                 (Card.Labels c) (Card.Author c) (Card.CreatedAt c)).

Definition scribbled : State :=
  match writeTitle 1%positive "scribbled" afterGetAllCards.2 with
  | Some (_, σ) => σ
  | None => testState
  end.

(** ** Statements about pagination *)

(** A page as the network delivers it: the cards, the next cursor and the
    more-pages flag. *)
Definition Page : Type := list Card.t * string * bool.

Definition pageCards (pg : Page) : list Card.t := pg.1.1.
Definition pageCursor (pg : Page) : string := pg.1.2.
Definition pageHasMore (pg : Page) : bool := pg.2.

Definition pageResponse (pg : Page) : Response :=
  RespPage (pageCards pg) (pageCursor pg) (pageHasMore pg).

(** A further page is to be requested: the flag is set and the cursor is
    not empty. *)
Definition continues (pg : Page) : Prop :=
  pageHasMore pg = true ∧ pageCursor pg ≠ "".

(** The cards of the pages, in the order of delivery. *)
Definition deliveredCards (pgs : list Page) : list Card.t :=
  concat (pageCards <$> pgs).

(** Every card of [cs] is in the store, under its identity. *)
Definition inStore (σ : State) (cs : list Card.t) : Prop :=
  ∀ c, c ∈ cs → readCard σ (Card.ItemID c) = Some c.

(** How background loading ends when the network answers with the pages
    [pgs] and then [rest]. *)
Definition backgroundLoaded (fuel : nat) (m : BoardModel) (cursor0 : string)
    (pgs : list Page) (rest : list Response) (σ : State) : Prop :=
  ∃ m' σ',
    backgroundLoad fuel m cursor0 ((pageResponse <$> pgs) ++ rest) σ
    = Some ((PagingStopped, m', rest), σ')
    ∧ nextCursor m' = "" ∧ loadingMore m' = false
    ∧ cursor (st σ') = cursor (st σ) ∧ hasNextPage (st σ') = hasNextPage (st σ)
    ∧ inStore σ' (deliveredCards pgs)
    ∧ (∀ k, k ∉ Card.ItemID <$> deliveredCards pgs → readCard σ' k = readCard σ k)
    ∧ dom (cards (st σ'))
      = dom (cards (st σ)) ∪ list_to_set (Card.ItemID <$> deliveredCards pgs)
    ∧ (cards (st σ) = ∅ →
       length <$> obsGetAllCards σ' = Some (length (deliveredCards pgs)))
    ∧ wf σ' ∧ indexed σ'.

(** How the reload ends with the same answers. *)
Definition reloaded (m : BoardModel) (pgs : list Page) (rest : list Response)
    (σ : State) : Prop :=
  ∃ m' σ',
    reloadAll m ((pageResponse <$> pgs) ++ rest) σ = Some ((Some m', rest), σ')
    ∧ loading m' = false ∧ loadingMore m' = false
    ∧ obsValue GetPagination σ' = Some ("", false)
    ∧ inStore σ' (deliveredCards pgs)
    ∧ dom (cards (st σ')) = list_to_set (Card.ItemID <$> deliveredCards pgs)
    ∧ length <$> obsGetAllCards σ' = Some (length (deliveredCards pgs))
    ∧ wf σ' ∧ indexed σ'.

(** The scenario of the specification: 60 cards, then 40 cards with the
    more-pages flag unset. *)
Definition numberedCard (n : nat) : Card.t :=
  mkCard ("item_" +:+ pretty n) ContentTypeIssue ("Task " +:+ pretty n) ""
         "test/repo" (Z.of_nat n) "opt_todo".

Definition page60 : Page := (numberedCard <$> seq 1 60, "cursor_60", true).
Definition page40 : Page := (numberedCard <$> seq 61 40, "", false).

(** A new store with the project and the Status field set, as the board
    finds it, and a new board. *)
Definition boardState : State :=
  match (SetProject (Some createTestProject);;
         SetGroupField (Some createTestStatusField)) (New (heapOfCards [])) with
  | Some (_, σ) => σ
  | None => New (heapOfCards [])
  end.

Definition newBoard : BoardModel := mkBoard false false false "" "".

(** ** Statements about the controllers *)

(** A store that holds the card with all its fields, with project and
    field set, as the board has it. *)
Definition fullBoardState : State :=
  match (SetProject (Some createTestProject);;
         SetGroupField (Some createTestStatusField);;
         UpsertCards [1%positive]) (New (heapOfCards [fullCard])) with
  | Some (_, σ) => σ
  | None => New (heapOfCards [])
  end.

(** Further moves on the board, each one successful in the store. *)
Inductive boardMoves : State → State → Prop :=
  | boardMoves_refl σ : boardMoves σ σ
  | boardMoves_step σ p targetColID newOptionID σ' σ'' :
      moveCardToColumn (Some p) targetColID σ
      = Some (cmdUpdateItemField p newOptionID, σ') →
      boardMoves σ' σ'' →
      boardMoves σ σ''.

(** The sentence of the specification on a failed remote update: whenever
    the move error arrives after the local move, the handler leaves the card
    as it was before that move. *)
Definition failedMoveRestored (σ : State) : Prop :=
  ∀ p c targetColID newOptionID σ1 σk m e m' cmd σ2,
    cards (st σ) !! Card.ItemID c = Some p →
    cardMem (mem σ) !! p = Some c →
    moveCardToColumn (Some p) targetColID σ
    = Some (cmdUpdateItemField p newOptionID, σ1) →
    boardMoves σ1 σk →
    BoardUpdate m (moveErrorMsg e) σk = Some ((m', cmd), σ2) →
    readCard σ2 (Card.ItemID c) = Some c.

(** What the handler of the move error does.  It always calls the store's
    rollback and sets the toast.  When it runs right after the local move of
    the selected card, the card has its old group value again and sits in
    its old column, and nothing is left to roll back. *)
Definition moveErrorHandled (m : BoardModel) (σ : State) : Prop :=
  (∀ e, ∃ r σ',
     RollbackMove σ = Some (r, σ')
     ∧ BoardUpdate m (moveErrorMsg e) σ
       = Some ((set_errorToast ("Move failed: " +:+ Error e) m, cmdNil), σ'))
  ∧ (∀ p c targetColID e,
       cards (st σ) !! Card.ItemID c = Some p →
       cardMem (mem σ) !! p = Some c →
       let newOptionID :=
         if decide (targetColID = NoStatusKey) then "" else targetColID in
       ∃ σ1 σ2,
         moveCardToColumn (Some p) targetColID σ
         = Some (cmdUpdateItemField p newOptionID, σ1)
         ∧ Card.GroupOptionID <$> readCard σ1 (Card.ItemID c) = Some newOptionID
         ∧ BoardUpdate m (moveErrorMsg e) σ1
           = Some ((set_errorToast ("Move failed: " +:+ Error e) m, cmdNil), σ2)
         ∧ Card.GroupOptionID <$> readCard σ2 (Card.ItemID c)
           = Some (Card.GroupOptionID c)
         ∧ (∀ k, Card.ItemID c ∈ readColumns σ2 !!! k ↔ k = columnKey c)
         ∧ rollbackCard (st σ2) = None).

(** The state after [m], or the state itself if [m] panics. *)
Definition stateAfter {A} (m : M A) (σ : State) : State :=
  match m σ with
  | Some (_, σ') => σ'
  | None => σ
  end.

(** Two moves of [item_1] on the board over the test store, and the state
    after a move error is handled. *)
Definition move1State : State :=
  stateAfter (moveCardToColumn (Some 1%positive) "opt_inprogress") testState.

Definition move2State : State :=
  stateAfter (moveCardToColumn (Some 1%positive) "opt_done") move1State.

Definition networkDown : error := errors_New "network down".

Definition move1FailedState : State :=
  stateAfter (BoardUpdate newBoard (moveErrorMsg networkDown)) move2State.

(** The handler of [projectsLoadedMsg] and of [fieldsLoadedMsg] ended in
    the error display: the error is set, nothing is asked of the user (the
    screen and its model are as before, no command is issued) and the store
    is as before. *)
Definition endsInError (m : AppModel) (σ : State)
    (res : option (AppModel * AppCmd * State)) : Prop :=
  ∃ e m',
    res = Some ((m', appNil), σ)
    ∧ err m' = Some e ∧ showsError m' = true
    ∧ currentScreen m' = currentScreen m ∧ currentModel m' = currentModel m.

(** What the two handlers do with pre-filled values.  A project number is
    pre-filled when it is positive, a field name when it is not empty. *)
Definition prefilledHonoured (m : AppModel) (σ : State) : Prop :=
  (∀ projects,
     0 < projectFlag m →
     (∀ proj, proj ∈ projects → Project.Number proj ≠ projectFlag m) →
     endsInError m σ (projectsLoaded m projects σ))
  ∧ (∀ before proj after,
       0 < projectFlag m →
       Project.Number proj = projectFlag m →
       Forall (λ q, Project.Number q ≠ projectFlag m) before →
       ∃ m',
         projectsLoaded m (before ++ proj :: after) σ
         = Some ((m', appLoadFields), mkState (mem σ) (set_project (Some proj) (st σ)))
         ∧ appProject m' = Some proj ∧ err m' = err m
         ∧ currentScreen m' = currentScreen m ∧ currentModel m' = currentModel m)
  ∧ (∀ fs,
       groupFieldFlag m ≠ "" →
       (∀ f, f ∈ fs → FieldDef.Name f ≠ groupFieldFlag m) →
       endsInError m σ (fieldsLoaded m fs σ))
  ∧ (∀ before f after,
       groupFieldFlag m ≠ "" →
       FieldDef.Name f = groupFieldFlag m →
       Forall (λ g, FieldDef.Name g ≠ groupFieldFlag m) before →
       Exists isSingleSelect (before ++ f :: after) →
       ∃ m' σ',
         fieldsLoaded m (before ++ f :: after) σ
         = Some ((m', appLoadItemsAndShowBoard), σ')
         ∧ groupField (st σ') = Some f ∧ appGroupField m' = Some f
         ∧ err m' = err m
         ∧ currentScreen m' = currentScreen m ∧ currentModel m' = currentModel m)
  ∧ (∀ fs,
       ¬ Exists isSingleSelect fs →
       endsInError m σ (fieldsLoaded m fs σ)).

(** The sentence of the specification on a field name that matches: the
    picker is skipped and the matched field is installed in the store. *)
Definition matchedFieldInstalled (m : AppModel) (fs : list FieldDef.t) (σ : State) : Prop :=
  groupFieldFlag m ≠ "" →
  ∀ f, f ∈ fs → FieldDef.Name f = groupFieldFlag m →
  ∃ m' cmd σ' g,
    fieldsLoaded m fs σ = Some ((m', cmd), σ')
    ∧ groupField (st σ') = Some g ∧ FieldDef.Name g = groupFieldFlag m.
(** ** Further statements about the store *)

(** Every stored pointer is filed under the identity of the card it points
    to: [UpsertCards] and [RollbackMove] file a pointer under [card.ItemID],
    and no operation of the store writes that field. *)
Definition keyed (σ : State) : Prop :=
  ∀ itemID p c,
    cards (st σ) !! itemID = Some p → cardMem (mem σ) !! p = Some c →
    Card.ItemID c = itemID.

(** The card pointers that an operation is called with point to objects. *)
Definition validOp (σ : State) (o : StoreOp) : Prop :=
  match o with
  | OpUpsertCards cs => Forall (λ p, is_Some (cardMem (mem σ) !! p)) cs
  | _ => True
  end.

(** The column a card with the group value [v] is filed under. *)
Definition columnOf (v : string) : string :=
  if decide (v = "") then NoStatusKey else v.



(** ** Package tui: the board with its view

    The fields of [BoardModel] that the controllers above leave out are the
    record [View]; [Board.Model] pairs them with the control fields.  The
    UI components ([keymap], [help], [spinner], [filterInput]) belong to
    the libraries bubbles and bubbletea and are not modelled: what
    [filterInput.Value()] returns is a parameter of the key handler, and a
    key that only changes a component leaves the model as it is.

    The maps of the view are held by value.  Go shares them between the
    copies of a [BoardModel]; the handlers return the copy they wrote to and
    the event loop drops the old one, so the sharing is not observed.

    Go's [int] has 64 bits here: additions and subtractions wrap around,
    and [wrap] is written wherever the operands are not bounded by the code.
    A length is below 2^63, so [len(x) - 1] is exact, and so are
    [m.selectedColumn--] under the guard [m.selectedColumn > 0] and
    [m.selectedColumn++] under the guard [m.selectedColumn < len(m.columns)-1].
    [strings.ToLower] and [strings.EqualFold] work on Unicode tables and
    are parameters of [applyFilter]. *)

Module Board.

Definition minColumnWidth : Z := 20.
Definition headerLines : Z := 1.
Definition pageJumpSize : Z := 10.

(** The value of a 64-bit [int] computation whose exact result is [z]. *)
Definition wrap (z : Z) : Z := (z + 2 ^ 63) `mod` 2 ^ 64 - 2 ^ 63.

(** [len(l)]. *)
Definition len {A} (l : list A) : Z := Z.of_nat (length l).

(** [l[i]]: [None] is the panic of an index out of range. *)
Definition elemAt {A} (l : list A) (i : Z) : option A :=
  if decide (0 ≤ i) then l !! Z.to_nat i else None.

(** [m[k]] for a [map[string]int]: zero for a missing key. *)
Definition intAt (m : gmap string Z) (k : string) : Z := default 0 (m !! k).

(** [m[k]] for a [map[string][]string]: the nil slice for a missing key. *)
Definition idsAt (m : gmap string (list string)) (k : string) : list string :=
  default [] (m !! k).

Record View : Type := mkView {
  columns : list string;
  columnNames : gmap string string;
  filteredCards : gmap string (list string);
  selectedColumn : Z;
  columnOffset : Z;
  selectedCard : gmap string Z;
  scrollOffset : gmap string Z;
  width : Z;
  height : Z;
  showHelp : bool;
  filterMode : bool;
  filterText : string;
  filterMyOnly : bool }.

Record Model : Type := mkModel {
  ctl : BoardModel;
  view : View }.

Definition set_columns (cols : list string) (names : gmap string string) (v : View) : View :=
  mkView cols names (filteredCards v) (selectedColumn v) (columnOffset v)
         (selectedCard v) (scrollOffset v) (width v) (height v) (showHelp v)
         (filterMode v) (filterText v) (filterMyOnly v).
Definition set_filteredCards (fc : gmap string (list string)) (v : View) : View :=
  mkView (columns v) (columnNames v) fc (selectedColumn v) (columnOffset v)
         (selectedCard v) (scrollOffset v) (width v) (height v) (showHelp v)
         (filterMode v) (filterText v) (filterMyOnly v).
Definition set_selectedColumn (i : Z) (v : View) : View :=
  mkView (columns v) (columnNames v) (filteredCards v) i (columnOffset v)
         (selectedCard v) (scrollOffset v) (width v) (height v) (showHelp v)
         (filterMode v) (filterText v) (filterMyOnly v).
Definition set_columnOffset (i : Z) (v : View) : View :=
  mkView (columns v) (columnNames v) (filteredCards v) (selectedColumn v) i
         (selectedCard v) (scrollOffset v) (width v) (height v) (showHelp v)
         (filterMode v) (filterText v) (filterMyOnly v).
Definition set_selectedCard (sel : gmap string Z) (v : View) : View :=
  mkView (columns v) (columnNames v) (filteredCards v) (selectedColumn v)
         (columnOffset v) sel (scrollOffset v) (width v) (height v) (showHelp v)
         (filterMode v) (filterText v) (filterMyOnly v).
Definition set_scrollOffset (off : gmap string Z) (v : View) : View :=
  mkView (columns v) (columnNames v) (filteredCards v) (selectedColumn v)
         (columnOffset v) (selectedCard v) off (width v) (height v) (showHelp v)
         (filterMode v) (filterText v) (filterMyOnly v).
Definition set_size (w h : Z) (v : View) : View :=
  mkView (columns v) (columnNames v) (filteredCards v) (selectedColumn v)
         (columnOffset v) (selectedCard v) (scrollOffset v) w h (showHelp v)
         (filterMode v) (filterText v) (filterMyOnly v).
Definition set_showHelp (b : bool) (v : View) : View :=
  mkView (columns v) (columnNames v) (filteredCards v) (selectedColumn v)
         (columnOffset v) (selectedCard v) (scrollOffset v) (width v) (height v) b
         (filterMode v) (filterText v) (filterMyOnly v).
Definition set_filterMode (b : bool) (v : View) : View :=
  mkView (columns v) (columnNames v) (filteredCards v) (selectedColumn v)
         (columnOffset v) (selectedCard v) (scrollOffset v) (width v) (height v)
         (showHelp v) b (filterText v) (filterMyOnly v).
Definition set_filterText (s : string) (v : View) : View :=
  mkView (columns v) (columnNames v) (filteredCards v) (selectedColumn v)
         (columnOffset v) (selectedCard v) (scrollOffset v) (width v) (height v)
         (showHelp v) (filterMode v) s (filterMyOnly v).
Definition set_filterMyOnly (b : bool) (v : View) : View :=
  mkView (columns v) (columnNames v) (filteredCards v) (selectedColumn v)
         (columnOffset v) (selectedCard v) (scrollOffset v) (width v) (height v)
         (showHelp v) (filterMode v) (filterText v) b.

Definition with_view (f : View → View) (m : Model) : Model :=
  mkModel (ctl m) (f (view m)).
Definition with_ctl (f : BoardModel → BoardModel) (m : Model) : Model :=
  mkModel (f (ctl m)) (view m).

(** [NewBoardModel]. *)
Definition NewBoardModel : Model :=
  mkModel (mkBoard false false false "" "")
          (mkView [] ∅ ∅ 0 0 ∅ ∅ 0 0 false false "" false).

(** [strings.Contains]. *)
Fixpoint Contains (s substr : string) : bool :=
  String.prefix substr s
  || match s with
     | EmptyString => false
     | String _ s' => Contains s' substr
     end.

(** The board's [rebuildColumns]: one column per option of the grouping
    field, in the order of the options, and the column [NoStatusKey] last;
    without a grouping field the view stays. *)
Definition rebuildColumns (m : Model) : M Model :=
  groupField ← GetGroupField;
  match groupField with
  | None => ret m
  | Some f =>
      let cols := (Option.ID <$> FieldDef.Options f) ++ [NoStatusKey] in
      let names :=
        <[NoStatusKey := "No Status"]>
          (foldl (λ ns opt, <[Option.ID opt := Option.Name opt]> ns) ∅
                 (FieldDef.Options f)) in
      let m1 := with_view (set_columns cols names) m in
      if decide (len cols ≤ selectedColumn (view m1))
      then ret (with_view (set_selectedColumn 0) m1)
      else ret m1
  end.

Section filter.
Variable strings_ToLower : string → string.
Variable strings_EqualFold : string → string → bool.

(** The loop over [card.Assignees]. *)
Definition isAssignedToMe (viewerLogin : string) (assignees : list string) : bool :=
  existsb (λ assignee, strings_EqualFold assignee viewerLogin) assignees.

(** The body of the loop over the identities of a column, up to the
    [append]: does the card pass the filters? *)
Definition passes (v : View) (viewerLogin itemID : string) : M bool :=
  r ← GetCard itemID;
  match r with
  | (Some p, None) =>
      card ← loadCard p;
      if negb (bool_decide (filterText v = ""))
         && negb (Contains (strings_ToLower (Card.Title card))
                           (strings_ToLower (filterText v)))
      then ret false
      else if filterMyOnly v && negb (bool_decide (viewerLogin = ""))
      then ret (isAssignedToMe viewerLogin (Card.Assignees card))
      else ret true
  | _ => ret false
  end.

Fixpoint filterColumn (v : View) (viewerLogin : string) (cardIDs filtered : list string)
  : M (list string) :=
  match cardIDs with
  | [] => ret filtered
  | itemID :: rest =>
      keep ← passes v viewerLogin itemID;
      filterColumn v viewerLogin rest (if keep then filtered ++ [itemID] else filtered)
  end.

(** The loop over [storeColumns]. *)
Fixpoint populate (v : View) (viewerLogin : string) (storeColumns : list (string * loc))
    (fc : gmap string (list string)) : M (gmap string (list string)) :=
  match storeColumns with
  | [] => ret fc
  | (colID, cardIDs) :: rest =>
      l ← loadSlice cardIDs;
      filtered ← filterColumn v viewerLogin l [];
      populate v viewerLogin rest (<[colID := filtered]> fc)
  end.

(** The body of the last loop: the scroll offset of the column is reset and
    a selection beyond the end is moved to the last card. *)
Definition resetColumn (fc : gmap string (list string))
    (acc : gmap string Z * gmap string Z) (colID : string)
  : gmap string Z * gmap string Z :=
  let '(sel, off) := acc in
  let n := len (idsAt fc colID) in
  (if decide (n ≤ intAt sel colID)
   then <[colID := if decide (0 < n) then n - 1 else 0]> sel
   else sel,
   <[colID := 0]> off).

Definition applyFilter (m : Model) : M Model :=
  let v := view m in
  r ← GetColumns;
  storeColumns ← match r with
                 | (Some cols, None) => c ← loadMap cols; ret (map_to_list c)
                 | _ => ret []
                 end;
  let fc0 := foldl (λ fc colID, <[colID := []]> fc) ∅ (columns v) in
  viewerLogin ← GetViewerLogin;
  fc ← populate v viewerLogin storeColumns fc0;
  let '(sel, off) :=
    foldl (resetColumn fc) (selectedCard v, scrollOffset v) (map_to_list fc).*1 in
  ret (with_view (λ v, set_scrollOffset off (set_selectedCard sel (set_filteredCards fc v))) m).

(** [rebuildColumns] followed by [applyFilter], as [Update] calls them. *)
Definition refresh (m : Model) : M Model :=
  m1 ← rebuildColumns m;
  applyFilter m1.

(** The number of cards that [adjustScroll] takes to be visible. *)
Definition visibleCards (m : Model) : Z :=
  let contentHeight := wrap (wrap (height (view m) - headerLines) - 2) in
  let contentHeight :=
    if moveMode (ctl m) then wrap (contentHeight - 1) else contentHeight in
  let contentHeight :=
    if filterMode (view m) then wrap (contentHeight - 1) else contentHeight in
  let cardsHeight := wrap (contentHeight - 3) in
  if decide (cardsHeight < 3) then 3 else cardsHeight.

Definition adjustScroll (colID : string) (m : Model) : Model :=
  let selectedIdx := intAt (selectedCard (view m)) colID in
  let scrollOffset0 := intAt (scrollOffset (view m)) colID in
  let visible := visibleCards m in
  let m1 :=
    if decide (selectedIdx < scrollOffset0)
    then with_view (λ v, set_scrollOffset (<[colID := selectedIdx]> (scrollOffset v)) v) m
    else m in
  if decide (wrap (scrollOffset0 + visible) ≤ selectedIdx)
  then with_view (λ v, set_scrollOffset
                         (<[colID := wrap (wrap (selectedIdx - visible) + 1)]>
                            (scrollOffset v)) v) m1
  else m1.

(** [moveCardSelection]; [None] is the panic of [m.columns[m.selectedColumn]]
    out of range. *)
Definition moveCardSelection (delta : Z) (m : Model) : option Model :=
  if decide (len (columns (view m)) = 0) then Some m
  else
    match elemAt (columns (view m)) (selectedColumn (view m)) with
    | None => None
    | Some colID =>
        let cardIDs := idsAt (filteredCards (view m)) colID in
        if decide (len cardIDs = 0) then Some m
        else
          let currentIdx := intAt (selectedCard (view m)) colID in
          let newIdx := wrap (currentIdx + delta) in
          let newIdx := if decide (newIdx < 0) then 0 else newIdx in
          let newIdx :=
            if decide (len cardIDs ≤ newIdx) then len cardIDs - 1 else newIdx in
          Some (adjustScroll colID
                  (with_view (λ v, set_selectedCard (<[colID := newIdx]> (selectedCard v)) v)
                             m))
    end.

Definition jumpToCard (idx : Z) (m : Model) : option Model :=
  if decide (len (columns (view m)) = 0) then Some m
  else
    match elemAt (columns (view m)) (selectedColumn (view m)) with
    | None => None
    | Some colID =>
        let cardIDs := idsAt (filteredCards (view m)) colID in
        if decide (len cardIDs = 0) then Some m
        else
          let idx := if decide (idx < 0) then len cardIDs - 1 else idx in
          let idx := if decide (len cardIDs ≤ idx) then len cardIDs - 1 else idx in
          Some (adjustScroll colID
                  (with_view (λ v, set_selectedCard (<[colID := idx]> (selectedCard v)) v)
                             m))
    end.

(** The number of columns that [adjustColumnScroll] takes to fit. *)
Definition visibleCols (v : View) : Z :=
  let n := width v ÷ minColumnWidth in
  let n := if decide (n < 1) then 1 else n in
  if decide (len (columns v) < n) then len (columns v) else n.

Definition adjustColumnScroll (m : Model) : Model :=
  let v := view m in
  if decide (len (columns v) = 0 ∨ width v = 0) then m
  else
    let visible := visibleCols v in
    let m1 :=
      if decide (selectedColumn v < columnOffset v)
      then with_view (set_columnOffset (selectedColumn v)) m
      else m in
    if decide (wrap (columnOffset v + visible) ≤ selectedColumn v)
    then with_view (set_columnOffset (wrap (wrap (selectedColumn v - visible) + 1))) m1
    else m1.

(** [getSelectedCard]: the pointer that [GetCard] returns, or nil.  The two
    index expressions panic out of range. *)
Definition getSelectedCard (m : Model) : M (option loc) :=
  let v := view m in
  if decide (len (columns v) = 0) then ret None
  else
    match elemAt (columns v) (selectedColumn v) with
    | None => panic
    | Some colID =>
        let cardIDs := idsAt (filteredCards v) colID in
        if decide (len cardIDs = 0) then ret None
        else
          let cardIdx := intAt (selectedCard v) colID in
          let cardIdx := if decide (len cardIDs ≤ cardIdx) then 0 else cardIdx in
          match elemAt cardIDs cardIdx with
          | None => panic
          | Some itemID =>
              r ← GetCard itemID;
              match r with
              | (Some p, None) => ret (Some p)
              | _ => ret None
              end
          end
    end.

(** [moveCardToColumn] of the board: the selected card is moved in the
    store. *)
Definition moveCardToColumn (m : Model) (targetColID : string) : M BoardCmd :=
  card ← getSelectedCard m;
  moveCardToColumn card targetColID.

(** The index that the keys ["1"] to ["9"] stand for:
    [int(msg.Runes[0] - '1')]. *)
Definition digitIndex (key : string) : option Z :=
  match key with
  | String a EmptyString =>
      let code := Z.of_N (byte_of a) in
      if decide (49 ≤ code ≤ 57) then Some (code - 49) else None
  | _ => None
  end.

Definition handleMoveMode (m : Model) (key : string) : M (Model * BoardCmd) :=
  if decide (key = "esc" ∨ key = "q") then
    ret (with_ctl (set_moveMode false) m, cmdNil)
  else
    match digitIndex key with
    | Some idx =>
        if decide (0 ≤ idx < len (columns (view m))) then
          match elemAt (columns (view m)) idx with
          | Some colID => cmd ← moveCardToColumn m colID; ret (m, cmd)
          | None => panic
          end
        else ret (m, cmdNil)
    | None => ret (m, cmdNil)
    end.

(** What a handler of the board returns as its [tea.Cmd]: one of the
    commands of moves and pages, or one of the others.  [OpenURL url] stands
    for the call [browser.OpenURL(url)] that the key [o] makes before it
    returns nil. *)
Inductive Cmd : Type :=
  | Core (c : BoardCmd)
  | Quit
  | LoadAllItems
  | ChangeGroupField
  | OpenDetail (card : loc)
  | OpenURL (url : string)
  | ComponentCmd.

Definition liftPure {A} (r : option A) : M A :=
  match r with
  | Some a => ret a
  | None => panic
  end.

(** The normal navigation of [handleKeyPress]. *)
Definition navigate (m : Model) (key : string) : M (Model * Cmd) :=
  let v := view m in
  if decide (key = "q") then ret (m, Quit)
  else if decide (key = "?") then ret (with_view (set_showHelp true) m, Core cmdNil)
  else if decide (key = "/") then ret (with_view (set_filterMode true) m, Core cmdNil)
  else if decide (key = "h" ∨ key = "left") then
    if decide (0 < selectedColumn v)
    then ret (adjustColumnScroll
                (with_view (set_selectedColumn (selectedColumn v - 1)) m),
              Core cmdNil)
    else ret (m, Core cmdNil)
  else if decide (key = "l" ∨ key = "right") then
    if decide (selectedColumn v < len (columns v) - 1)
    then ret (adjustColumnScroll
                (with_view (set_selectedColumn (selectedColumn v + 1)) m),
              Core cmdNil)
    else ret (m, Core cmdNil)
  else if decide (key = "j" ∨ key = "down") then
    m' ← liftPure (moveCardSelection 1 m); ret (m', Core cmdNil)
  else if decide (key = "k" ∨ key = "up") then
    m' ← liftPure (moveCardSelection (-1) m); ret (m', Core cmdNil)
  else if decide (key = "g") then
    m' ← liftPure (jumpToCard 0 m); ret (m', Core cmdNil)
  else if decide (key = "G") then
    m' ← liftPure (jumpToCard (-1) m); ret (m', Core cmdNil)
  else if decide (key = "ctrl+d") then
    m' ← liftPure (moveCardSelection pageJumpSize m); ret (m', Core cmdNil)
  else if decide (key = "ctrl+u") then
    m' ← liftPure (moveCardSelection (- pageJumpSize) m); ret (m', Core cmdNil)
  else if decide (key = "m") then
    card ← getSelectedCard m;
    match card with
    | Some _ => ret (with_ctl (set_moveMode true) m, Core cmdNil)
    | None => ret (m, Core cmdNil)
    end
  else if decide (key = "o") then
    card ← getSelectedCard m;
    match card with
    | Some p =>
        c ← loadCard p;
        if decide (Card.URL c ≠ "") then ret (m, OpenURL (Card.URL c))
        else ret (m, Core cmdNil)
    | None => ret (m, Core cmdNil)
    end
  else if decide (key = "r") then ret (with_ctl (set_loading true) m, LoadAllItems)
  else if decide (key = "f") then ret (m, ChangeGroupField)
  else if decide (key = "a") then
    m' ← applyFilter (with_view (set_filterMyOnly (negb (filterMyOnly v))) m);
    ret (m', Core cmdNil)
  else if decide (key = "enter") then
    card ← getSelectedCard m;
    match card with
    | Some p => ret (m, OpenDetail p)
    | None => ret (m, Core cmdNil)
    end
  else ret (m, Core cmdNil).

(** [handleKeyPress]; [inputValue] is what [m.filterInput.Value()]
    returns. *)
Definition handleKeyPress (inputValue : string) (m : Model) (key : string)
  : M (Model * Cmd) :=
  if decide (key = "ctrl+c") then ret (m, Quit)
  else if showHelp (view m) then
    if decide (key = "?" ∨ key = "q" ∨ key = "esc")
    then ret (with_view (set_showHelp false) m, Core cmdNil)
    else ret (m, Core cmdNil)
  else if filterMode (view m) then
    if decide (key = "enter") then
      m' ← applyFilter
             (with_view (λ v, set_filterText inputValue (set_filterMode false v)) m);
      ret (m', Core cmdNil)
    else if decide (key = "esc") then
      ret (with_view (set_filterMode false) m, Core cmdNil)
    else ret (m, ComponentCmd)
  else if moveMode (ctl m) then
    r ← handleMoveMode m key; ret (r.1, Core r.2)
  else navigate m key.

(** The messages of the board: the size of the window, the first build,
    the messages of pages and moves, a tick of the spinner, a key. *)
Inductive Msg : Type :=
  | WindowSizeMsg (w h : Z)
  | boardInitMsg
  | StoreMsg (msg : BoardMsg)
  | TickMsg
  | KeyMsg (key : string).

(** [BoardModel.Update]. *)
Definition Update (inputValue : string) (m : Model) (msg : Msg) : M (Model * Cmd) :=
  match msg with
  | WindowSizeMsg w h => ret (with_view (set_size w h) m, Core cmdNil)
  | boardInitMsg => m' ← refresh m; ret (m', Core cmdNil)
  | StoreMsg itemsLoadedMsg =>
      m' ← refresh (with_ctl (λ b, set_loadingMore false (set_loading false b)) m);
      ret (m', Core cmdNil)
  | StoreMsg (pageLoadedMsg cs next more (Some err)) =>
      ret (with_ctl (λ b, set_errorToast ("Load failed: " +:+ Error err)
                            (set_loadingMore false b)) m,
           Core cmdNil)
  | StoreMsg (pageLoadedMsg cs next more None) =>
      UpsertCards cs;;
      m' ← refresh m;
      if more && negb (bool_decide (next = "")) then
        ret (with_ctl (λ b, set_nextCursor next (set_loadingMore true b)) m',
             Core (cmdLoadNextPage next))
      else
        ret (with_ctl (λ b, set_nextCursor "" (set_loadingMore false b)) m',
             Core cmdNil)
  | StoreMsg moveSuccessMsg =>
      m' ← refresh (with_ctl (set_moveMode false) m);
      ret (m', Core cmdNil)
  | StoreMsg (moveErrorMsg err) =>
      _ ← RollbackMove;
      m' ← refresh m;
      ret (with_ctl (set_errorToast ("Move failed: " +:+ Error err)) m', Core cmdNil)
  | StoreMsg (itemsErrorMsg _) => ret (m, Core cmdNil)
  | TickMsg => ret (m, ComponentCmd)
  | KeyMsg key => handleKeyPress inputValue m key
  end.

(** The number that the header shows as the item count: the lengths of all
    entries of [filteredCards] added up. *)
Definition totalItems (v : View) : Z :=
  map_fold (λ _ cardIDs total, wrap (total + len cardIDs)) 0 (filteredCards v).

End filter.

(** *** The indices that [View] draws

    [View] builds the screen as a string with lipgloss.  Of [View],
    [renderBoard] and [renderColumn] the definitions below keep the index
    computations: the height and width handed down, the columns that
    [renderBoard] passes to [renderColumn], and the cards that the loop of
    [renderColumn] goes through. *)

(** The width and the height that [View] works with. *)
Definition viewWidth (v : View) : Z := if decide (width v = 0) then 80 else width v.

Definition viewHeight (v : View) : Z := if decide (height v = 0) then 24 else height v.

(** [boardHeight], which [View] passes to [renderBoard] as [totalHeight]. *)
Definition boardHeight (m : Model) : Z :=
  let boardHeight := wrap (viewHeight (view m) - 2) in
  let boardHeight :=
    if filterMode (view m) then wrap (boardHeight - 1) else boardHeight in
  let boardHeight :=
    if moveMode (ctl m) then wrap (boardHeight - 1) else boardHeight in
  if decide (boardHeight < 5) then 5 else boardHeight.

(** [maxCardLines], which [renderBoard] passes to [renderColumn]. *)
Definition maxCardLines (totalHeight : Z) : Z :=
  let colContentHeight := wrap (totalHeight - 2) in
  let colContentHeight := if decide (colContentHeight < 3) then 3 else colContentHeight in
  let maxCardLines := colContentHeight - 1 in
  if decide (maxCardLines < 1) then 1 else maxCardLines.

(** The columns [startCol .. endCol - 1] that [renderBoard] draws. *)
Definition columnRange (v : View) (totalWidth : Z) : Z * Z :=
  let numCols := len (columns v) in
  let maxVisibleCols := totalWidth ÷ minColumnWidth in
  let maxVisibleCols := if decide (maxVisibleCols < 1) then 1 else maxVisibleCols in
  let visibleCols := if decide (numCols < maxVisibleCols) then numCols else maxVisibleCols in
  let startCol := columnOffset v in
  let endCol := wrap (startCol + visibleCols) in
  if decide (numCols < endCol) then
    let startCol := numCols - visibleCols in
    (if decide (startCol < 0) then 0 else startCol, numCols)
  else (startCol, endCol).

(** The cards [scrollOffset .. endIdx - 1] that the loop of [renderColumn]
    draws, each on a line of its own, between the lines of the two scroll
    indicators. *)
Definition cardRange (v : View) (colID : string) (maxCardLines : Z) : Z * Z :=
  let cards := idsAt (filteredCards v) colID in
  let scrollOffset := intAt (scrollOffset v) colID in
  let cardSlots := wrap (maxCardLines - 1) in
  let cardSlots := if decide (cardSlots < 1) then 1 else cardSlots in
  let needUpIndicator := bool_decide (0 < scrollOffset) in
  let availableSlots := if needUpIndicator then cardSlots - 1 else cardSlots in
  let endIdx := wrap (scrollOffset + availableSlots) in
  let endIdx := if decide (len cards < endIdx) then len cards else endIdx in
  if decide (endIdx < len cards) then
    let availableSlots := availableSlots - 1 in
    let endIdx := wrap (scrollOffset + availableSlots) in
    let endIdx := if decide (len cards < endIdx) then len cards else endIdx in
    (scrollOffset, endIdx)
  else (scrollOffset, endIdx).

(** The two ranges for the board as [View] calls [renderBoard]. *)
Definition drawnColumns (m : Model) : Z * Z := columnRange (view m) (viewWidth (view m)).

Definition drawnCards (m : Model) (colID : string) : Z * Z :=
  cardRange (view m) colID (maxCardLines (boardHeight m)).

End Board.
(** ** Statements about the view of the board *)

Section view_props.
Variable strings_ToLower : string → string.
Variable strings_EqualFold : string → string → bool.

(** The card passes the text filter: no text is set, or the title contains
    the text, both in lower case. *)
Definition matchesText (v : Board.View) (c : Card.t) : Prop :=
  Board.filterText v = ""
  ∨ Board.Contains (strings_ToLower (Card.Title c))
                   (strings_ToLower (Board.filterText v)) = true.

(** The card passes the filter of the viewer's own cards: the filter is
    off, or the login of the viewer is not known, or one of the assignees is
    the viewer. *)
Definition matchesMine (v : Board.View) (login : string) (c : Card.t) : Prop :=
  Board.filterMyOnly v = false
  ∨ login = ""
  ∨ ∃ a, a ∈ Card.Assignees c ∧ strings_EqualFold a login = true.

(** The stored card [itemID] passes the filters of the view. *)
Definition shown (σ : State) (v : Board.View) (itemID : string) : Prop :=
  ∃ c, readCard σ itemID = Some c
       ∧ matchesText v c ∧ matchesMine v (viewerLogin (st σ)) c.

(** The same as a test. *)
Definition cardPasses (v : Board.View) (login : string) (c : Card.t) : bool :=
  (bool_decide (Board.filterText v = "")
   || Board.Contains (strings_ToLower (Card.Title c))
                     (strings_ToLower (Board.filterText v)))
  && (negb (Board.filterMyOnly v)
      || bool_decide (login = "")
      || Board.isAssignedToMe strings_EqualFold login (Card.Assignees c)).

Definition shownB (σ : State) (v : Board.View) (itemID : string) : bool :=
  match readCard σ itemID with
  | Some c => cardPasses v (viewerLogin (st σ)) c
  | None => false
  end.

End view_props.

(** The selection that [applyFilter] leaves for a column: a selection
    beyond the end is moved to the last card. *)
Definition clampSel (fc : gmap string (list string)) (sel : gmap string Z) (k : string) : Z :=
  let n := Board.len (Board.idsAt fc k) in
  if decide (n ≤ Board.intAt sel k) then (if decide (0 < n) then n - 1 else 0)
  else Board.intAt sel k.

(** The selections of a view are in range: the selected column is a column
    of the board (column 0 when the board has none), no selected index is
    negative, and in every list of the view the selected index is the
    index of a card (0 in an empty list). *)
Definition viewOk (v : Board.View) : Prop :=
  0 ≤ Board.selectedColumn v
  ∧ Board.selectedColumn v < Z.max (Board.len (Board.columns v)) 1
  ∧ map_Forall (λ _ i, 0 ≤ i) (Board.selectedCard v)
  ∧ (∀ k ids, Board.filteredCards v !! k = Some ids →
       Board.intAt (Board.selectedCard v) k ≤ Z.max (Board.len ids - 1) 0).

(** The card pointers of a message point to objects. *)
Definition validMsg (σ : State) (msg : Board.Msg) : Prop :=
  match msg with
  | Board.StoreMsg (pageLoadedMsg cs _ _ None) =>
      Forall (λ p, is_Some (cardMem (mem σ) !! p)) cs
  | _ => True
  end.

(** A lower-casing of the ASCII letters, which is what [strings.ToLower]
    does to a string of ASCII characters. *)
Definition lowerByte (a : Ascii.ascii) : Ascii.ascii :=
  let n := byte_of a in
  if ((65 <=? n) && (n <=? 90))%N then Ascii.ascii_of_N (n + 32) else a.

Fixpoint lowerASCII (s : string) : string :=
  match s with
  | EmptyString => EmptyString
  | String a s' => String (lowerByte a) (lowerASCII s')
  end.

(** ** Fixtures for the board *)

(** The columns of the test board, as [rebuildColumns] builds them from the
    Status field. *)
Definition testColumns : Board.View → Board.View :=
  Board.set_columns ["opt_todo"; "opt_inprogress"; "opt_done"; NoStatusKey]
    {[ "opt_todo" := "Todo"; "opt_inprogress" := "In Progress"; "opt_done" := "Done";
       NoStatusKey := "No Status" ]}.

(** A board with these columns and the text filter "BUG", and one with the
    filter of the viewer's own cards switched on. *)
Definition textFilterModel : Board.Model :=
  Board.with_view (λ v, Board.set_filterText "BUG" (testColumns v)) Board.NewBoardModel.

Definition mineOnlyModel : Board.Model :=
  Board.with_view (λ v, Board.set_filterMyOnly true (testColumns v)) Board.NewBoardModel.

(** The board and its store are in order: the pointers of the store point
    to objects, the column index is the one computed from the cards, and
    the selections of the view are in range. *)
Definition boardOk (m : Board.Model) (σ : State) : Prop :=
  wf σ ∧ indexed σ ∧ viewOk (Board.view m).

(** The selected card of the column is inside the window that
    [adjustScroll] keeps: the scroll offset is not negative, not behind the
    selection, and the selection is less than [visibleCards] further. *)
Definition cardVisible (m : Board.Model) (colID : string) : Prop :=
  let i := Board.intAt (Board.selectedCard (Board.view m)) colID in
  let o := Board.intAt (Board.scrollOffset (Board.view m)) colID in
  0 ≤ o ∧ o ≤ i ∧ i < o + Board.visibleCards m.

(** The selected column is inside the window that [adjustColumnScroll]
    keeps. *)
Definition columnVisible (v : Board.View) : Prop :=
  Board.columnOffset v ≤ Board.selectedColumn v
  ∧ Board.selectedColumn v < Board.columnOffset v + Board.visibleCols v.

(** The index [i] is in the range [r] of indices that [View] draws. *)
Definition drawn (r : Z * Z) (i : Z) : Prop := r.1 ≤ i < r.2.

(** The numbers are far from the ends of the 64-bit range, as the sizes of
    a terminal and the lengths of lists in memory are. *)
Definition small (z : Z) : Prop := - 2 ^ 61 ≤ z ≤ 2 ^ 61.

(** A board with the test columns in a window of 10 lines and 50 columns,
    with the last column selected, which lists 100 cards. *)
Definition tallColumn : list string :=
  (λ n, "item_" +:+ pretty n) <$> seq 0 100.

Definition scrollModel : Board.Model :=
  Board.with_view
    (λ v, Board.set_size 50 10
            (Board.set_selectedColumn 3
               (Board.set_filteredCards {[ NoStatusKey := tallColumn ]} (testColumns v))))
    Board.NewBoardModel.

(** That board with the card of index 10 selected, before [adjustScroll]
    has run. *)
Definition pageDownModel : Board.Model :=
  Board.with_view (Board.set_selectedCard {[ NoStatusKey := 10 ]}) scrollModel.

(** The new board after its first [refresh] on the test store, in move
    mode, and the store after that [refresh]. *)
Definition testBoard : Board.Model * State :=
  default (Board.NewBoardModel, testState)
          (Board.refresh lowerASCII EqualFold Board.NewBoardModel testState).

Definition movingBoard : Board.Model :=
  Board.with_ctl (set_moveMode true) testBoard.1.

(** The store with the one card whose group value is no option of the
    Status field. *)
Definition strayState : State := default (New (heapOfCards [])) strayStore.
(** ** Package gh: the answers of the server

    Every query function of [gh.Client] sends a request with
    [c.makeRequest], which decodes the answer into a local struct or
    returns an error, and then converts the struct.  The client itself is
    not part of the sources at hand: what [makeRequest] returns is the
    argument of the functions here, an error or the decoded struct.  A
    pointer to a struct that the server may leave out is an [option].  A
    nil slice and an empty one are both the empty list. *)

Module gh.

Definition OwnerTypeOrganization : string := "Organization".
Definition OwnerTypeUser : string := "User".

(** The errors of this package and of its callers: an error of the client,
    [fmt.Errorf(prefix + ": %w", cause)], and [fmt.Errorf] without [%w]. *)
Inductive Err : Type :=
  | Client (e : error)
  | Wrap (prefix : string) (cause : Err)
  | Plain (msg : string).

Module Owner.
Record t : Type := mk {
  Login : string;
  ID : string;
  Type_ : string }.
End Owner.

Module OrgNode.
Record t : Type := mk {
  Login : string;
  ID : string }.
End OrgNode.

Module ViewerResp.
Record t : Type := mk {
  Login : string;
  ID : string;
  Organizations : list OrgNode.t }.
End ViewerResp.

Definition GetViewerAndOrgs (answer : error + ViewerResp.t)
  : list Owner.t * option Err :=
  match answer with
  | inl err => ([], Some (Wrap "failed to get viewer and orgs" (Client err)))
  | inr resp =>
      (Owner.mk (ViewerResp.Login resp) (ViewerResp.ID resp) OwnerTypeUser
       :: ((λ org, Owner.mk (OrgNode.Login org) (OrgNode.ID org) OwnerTypeOrganization)
           <$> ViewerResp.Organizations resp),
       None)
  end.

Module OwnerResp.
Record t : Type := mk {
  Organization : option string;
  User : option string }.
End OwnerResp.

Definition ResolveOwner (answer : error + OwnerResp.t) (login : string)
  : string * string * option Err :=
  match answer with
  | inl err => ("", "", Some (Wrap "failed to resolve owner" (Client err)))
  | inr resp =>
      match OwnerResp.Organization resp with
      | Some id => (OwnerTypeOrganization, id, None)
      | None =>
          match OwnerResp.User resp with
          | Some id => (OwnerTypeUser, id, None)
          | None =>
              ("", "",
               Some (Plain ("login '" +:+ login
                            +:+ "' not found (neither organization nor user)")))
          end
      end
  end.

Module OptionNode.
Record t : Type := mk {
  ID : string;
  Name : string;
  Color : string }.
End OptionNode.

Module FieldNode.
Record t : Type := mk {
  ID : string;
  Name : string;
  DataType : string;
  Options : list OptionNode.t }.
End FieldNode.

(** The body of the loop of [GetProjectFields] for the node at index
    [idx]; the options are numbered by the inner loop. *)
Definition fieldOfNode (idx : nat) (node : FieldNode.t) : FieldDef.t :=
  FieldDef.mk (FieldNode.ID node) (FieldNode.Name node) (FieldNode.DataType node)
    (if decide (FieldNode.DataType node = FieldTypeSingleSelect
                ∧ (0 < length (FieldNode.Options node))%nat)
     then imap (λ optIdx opt,
                  Option.mk (OptionNode.ID opt) (OptionNode.Name opt)
                            (OptionNode.Color opt) (Z.of_nat optIdx))
               (FieldNode.Options node)
     else [])
    (Z.of_nat idx).

Definition GetProjectFields (answer : error + list FieldNode.t)
  : list FieldDef.t * option Err :=
  match answer with
  | inl err => ([], Some (Wrap "failed to get project fields" (Client err)))
  | inr nodes => (imap fieldOfNode nodes, None)
  end.

Module ContentNode.
Record t : Type := mk {
  Typename : string;
  Title : string;
  Body : string;
  URL : string;
  Number : Z;
  State : string;
  CreatedAt : string;
  Author : option string;
  Repository : option string;
  Assignees : option (list string);
  Labels : option (list string) }.
End ContentNode.

Module ItemNode.
Record t : Type := mk {
  ID : string;
  FieldValueByName : option string;
  Content : option ContentNode.t }.
End ItemNode.

Module ItemsResp.
Record t : Type := mk {
  HasNextPage : bool;
  EndCursor : string;
  Nodes : list ItemNode.t }.
End ItemsResp.

(** The body of the loop of [GetItems]: the card of a node.  Fields that
    the code does not assign keep their zero value. *)
Definition cardOfNode (node : ItemNode.t) : Card.t :=
  let groupOptionID := default "" (ItemNode.FieldValueByName node) in
  match ItemNode.Content node with
  | None =>
      Card.mk (ItemNode.ID node) ContentTypePrivate "(private item)" "" "" 0
              groupOptionID [] "" "" [] "" ""
  | Some content =>
      let assignees := default [] (ContentNode.Assignees content) in
      let labels := default [] (ContentNode.Labels content) in
      let createdAt := ContentNode.CreatedAt content in
      let author := default "" (ContentNode.Author content) in
      let repo := default "" (ContentNode.Repository content) in
      if decide (ContentNode.Typename content = "Issue") then
        Card.mk (ItemNode.ID node) ContentTypeIssue (ContentNode.Title content)
                (ContentNode.URL content) repo (ContentNode.Number content)
                groupOptionID assignees (ContentNode.Body content)
                (ContentNode.State content) labels author createdAt
      else if decide (ContentNode.Typename content = "PullRequest") then
        Card.mk (ItemNode.ID node) ContentTypePullRequest (ContentNode.Title content)
                (ContentNode.URL content) repo (ContentNode.Number content)
                groupOptionID assignees (ContentNode.Body content)
                (ContentNode.State content) labels author createdAt
      else if decide (ContentNode.Typename content = "DraftIssue") then
        Card.mk (ItemNode.ID node) ContentTypeDraftIssue (ContentNode.Title content)
                (ContentNode.URL content) "" 0 groupOptionID assignees "" "" labels
                author createdAt
      else
        Card.mk (ItemNode.ID node) ContentTypePrivate "(unknown item type)" "" "" 0
                groupOptionID assignees "" "" labels author createdAt
  end.

Definition GetItems (answer : error + ItemsResp.t)
  : list Card.t * string * bool * option Err :=
  match answer with
  | inl err => ([], "", false, Some (Wrap "failed to get items" (Client err)))
  | inr resp =>
      (cardOfNode <$> ItemsResp.Nodes resp, ItemsResp.EndCursor resp,
       ItemsResp.HasNextPage resp, None)
  end.

End gh.

(** ** Package tui: further cases of the start-up screens *)

(** The messages that the closure of [resolveOwner] returns. *)
Inductive OwnerMsg : Type :=
  | ErrorMsg (err : gh.Err)
  | ownerResolvedMsg (ownerType ownerID : string).

(** The closure of [AppModel.resolveOwner(login)], run with the answers of
    the two requests it sends: the login of the viewer is stored if the
    first request succeeds, then the owner is resolved. *)
Definition resolveOwner (login : string) (viewer : error + gh.ViewerResp.t)
    (owner : error + gh.OwnerResp.t) : M OwnerMsg :=
  match gh.GetViewerAndOrgs viewer with
  | (o :: _, None) => SetViewerLogin (gh.Owner.Login o)
  | _ => ret tt
  end;;
  match gh.ResolveOwner owner login with
  | (_, _, Some err) =>
      ret (ErrorMsg (gh.Wrap ("failed to resolve owner '" +:+ login +:+ "'") err))
  | (ownerType, ownerID, None) => ret (ownerResolvedMsg ownerType ownerID)
  end.

(** The case [FieldSelectedMsg] of [AppModel.Update]. *)
Definition fieldSelected (m : AppModel) (field : FieldDef.t) : M (AppModel * AppCmd) :=
  SetGroupField (Some field);;
  ret (set_screen (currentScreen m) None (set_appGroupField (Some field) m),
       appLoadItemsAndShowBoard).

(** The case [changeGroupFieldMsg] of [AppModel.Update]. *)
Definition changeGroupField (m : AppModel) : M (AppModel * AppCmd) :=
  let fieldValues := filter (λ f, FieldDef.Type_ f = FieldTypeSingleSelect) (fields m) in
  if decide (length fieldValues = 0%nat) then
    ret (set_err (Some (errors_New "no SINGLE_SELECT fields available")) m, appNil)
  else
    ret (set_screen ScreenFieldPicker (Some (GroupFieldPickerModel fieldValues)) m,
         appPickerInit).

(** ** Fixtures for the answers of the server *)

(** The four content types and a node without content, with the ids
    item_1 to item_5; the second and the fifth have no value of the
    grouping field. *)
Definition testContent (typename title : string) : gh.ContentNode.t :=
  gh.ContentNode.mk typename title "body" "https://github.com/test/repo/issues/1" 7
    "OPEN" "2024-01-01T00:00:00Z" (Some "carol") (Some "test/repo")
    (Some ["alice"; "bob"]) (Some ["bug"]).

Definition testItems : gh.ItemsResp.t :=
  gh.ItemsResp.mk true "cursor_5"
    [ gh.ItemNode.mk "item_1" (Some "opt_todo") (Some (testContent "Issue" "Fix bug"));
      gh.ItemNode.mk "item_2" None (Some (testContent "PullRequest" "Add feature"));
      gh.ItemNode.mk "item_3" (Some "opt_done") (Some (testContent "DraftIssue" "Draft"));
      gh.ItemNode.mk "item_4" (Some "opt_todo") (Some (testContent "Commit" "Other"));
      gh.ItemNode.mk "item_5" (Some "") None ].

(** The fields of a project as the server lists them: a text field and two
    single-select fields. *)
Definition testFieldNodes : list gh.FieldNode.t :=
  [ gh.FieldNode.mk "field_title" "Title" FieldTypeText [];
    gh.FieldNode.mk "field_status" "Status" FieldTypeSingleSelect
      [ gh.OptionNode.mk "opt_todo" "Todo" "GRAY";
        gh.OptionNode.mk "opt_inprogress" "In Progress" "YELLOW";
        gh.OptionNode.mk "opt_done" "Done" "GREEN" ];
    gh.FieldNode.mk "field_priority" "Priority" FieldTypeSingleSelect
      [ gh.OptionNode.mk "opt_high" "High" "RED";
        gh.OptionNode.mk "opt_low" "Low" "BLUE" ] ].

(** The app on the board of the test project, with these fields loaded. *)
Definition boardApp : AppModel :=
  mkApp "testorg" 1 "" ScreenBoard (Some OtherModel) None "" "testorg"
        (Some createTestProject) (gh.GetProjectFields (inr testFieldNodes)).1
        (Some createTestStatusField).

(** ** Lemmas on the column index as a function *)

(** Projections of explicit states and heaps. *)
Ltac heap_simpl :=
  cbn [mem st cardMem sliceMem cardSliceMem mapMem
       set_cardMem set_sliceMem set_cardSliceMem set_mapMem
       project groupField viewerLogin cards columns cursor hasNextPage rollbackCard
       set_project set_groupField set_viewerLogin set_cards set_columns
       set_cursor set_hasNextPage set_rollbackCard] in *.

Section buckets.
Implicit Types (b : gmap string (list string)) (l : list (string * string)).

Lemma bucketsOf_foldl l : bucketsOf l = foldl bucketStep ∅ l.
Proof. reflexivity. Qed.

Lemma addToBucket_lookup_total b key itemID k :
  addToBucket b key itemID !!! k
  = if decide (key = k) then (b !!! k) ++ [itemID] else b !!! k.
Proof.
  unfold addToBucket. case_decide as Hk.
  - subst. by rewrite lookup_total_insert_eq.
  - by rewrite lookup_total_insert_ne.
Qed.

Lemma foldl_bucket_elem l : ∀ b itemID k,
  itemID ∈ foldl bucketStep b l !!! k ↔ itemID ∈ b !!! k ∨ (itemID, k) ∈ l.
Proof.
  induction l as [|[i key] l IH]; intros b itemID k; simpl.
  - rewrite elem_of_nil. tauto.
  - rewrite IH, addToBucket_lookup_total, elem_of_cons.
    case_decide as Hk.
    + subst. rewrite elem_of_app, list_elem_of_singleton.
      split; [intros [[?|?]|?]|intros [?|[?|?]]]; simplify_eq; auto.
    + split; [intros [?|?]|intros [?|[?|?]]]; simplify_eq; auto.
Qed.

Lemma foldl_bucket_NoDup l : ∀ b,
  NoDup l.*1 →
  (∀ k, NoDup (b !!! k)) →
  (∀ itemID k, itemID ∈ b !!! k → itemID ∉ l.*1) →
  ∀ k, NoDup (foldl bucketStep b l !!! k).
Proof.
  induction l as [|[i key] l IH]; intros b Hl Hb Hdisj k; simpl; [done|].
  simpl in Hl. apply NoDup_cons in Hl as [Hi Hl].
  apply IH; [done| |].
  - intros k'. rewrite addToBucket_lookup_total. case_decide; [|done].
    subst. apply NoDup_app. split; [done|]. split; [|apply NoDup_singleton].
    intros x Hx ->%list_elem_of_singleton.
    apply (Hdisj _ _ Hx). simpl. left.
  - intros x k'. rewrite addToBucket_lookup_total. case_decide.
    + subst. rewrite elem_of_app, list_elem_of_singleton. intros [Hx| ->].
      * intros Hin. apply (Hdisj _ _ Hx). simpl. by right.
      * done.
    + intros Hx Hin. apply (Hdisj _ _ Hx). simpl. by right.
Qed.


Lemma bucketsOf_elem l itemID k :
  itemID ∈ bucketsOf l !!! k ↔ (itemID, k) ∈ l.
Proof.
  rewrite bucketsOf_foldl, foldl_bucket_elem, lookup_total_empty.
  rewrite elem_of_nil. tauto.
Qed.

Lemma bucketsOf_NoDup l k : NoDup l.*1 → NoDup (bucketsOf l !!! k).
Proof.
  intros Hl. rewrite bucketsOf_foldl. apply foldl_bucket_NoDup; [done| |].
  - intros k'. rewrite lookup_total_empty. apply NoDup_nil_2.
  - intros x k'. rewrite lookup_total_empty. by intros ?%elem_of_nil.
Qed.


(** The index does not depend on the order of enumeration, as far as
    membership goes. *)
Lemma bucketsOf_perm_elem l1 l2 itemID k :
  l1 ≡ₚ l2 → itemID ∈ bucketsOf l1 !!! k ↔ itemID ∈ bucketsOf l2 !!! k.
Proof. intros Hp. rewrite !bucketsOf_elem. by rewrite Hp. Qed.

End buckets.

(** ** Running the store code *)

Section run.

Lemma readMap_lookup h r m k :
  mapMem h !! r = Some m →
  readMap h r !! k = m !! k ≫= (sliceMem h !!.).
Proof. intros Hm. unfold readMap. rewrite Hm. by rewrite lookup_omap. Qed.

Lemma rebuildStep_run r σ m itemID p c :
  mapMem (mem σ) !! r = Some m →
  cardMem (mem σ) !! p = Some c →
  map_Forall (λ _ sl, is_Some (sliceMem (mem σ) !! sl)) m →
  rebuildStep r (itemID, p) σ
  = Some (tt, mkState
      (mkHeap (cardMem (mem σ))
         (<[fresh (dom (sliceMem (mem σ))) :=
              default [] (m !! columnKey c ≫= (sliceMem (mem σ) !!.)) ++ [itemID]]>
            (sliceMem (mem σ)))
         (cardSliceMem (mem σ))
         (<[r := <[columnKey c := fresh (dom (sliceMem (mem σ)))]> m]> (mapMem (mem σ))))
      (st σ)).
Proof.
  intros Hm Hc Hwf. unfold rebuildStep, bind, loadCard, loadMap. rewrite Hc, Hm.
  destruct (m !! columnKey c) as [sl|] eqn:Hk; simpl.
  - destruct (Hwf _ _ Hk) as [old Hold].
    unfold loadSlice, allocSlice, storeMap. rewrite Hold. simpl. by rewrite Hm.
  - unfold ret, allocSlice, storeMap. simpl. by rewrite Hm.
Qed.

Lemma fresh_slice_lookup (h : gmap loc (list string)) : h !! fresh (dom h) = None.
Proof. apply not_elem_of_dom, is_fresh. Qed.

Lemma fresh_map_lookup (h : gmap loc (gmap string loc)) : h !! fresh (dom h) = None.
Proof. apply not_elem_of_dom, is_fresh. Qed.

Lemma fresh_card_lookup (h : gmap loc Card.t) : h !! fresh (dom h) = None.
Proof. apply not_elem_of_dom, is_fresh. Qed.

Lemma rebuildLoop_spec l : ∀ σ m r,
  mapMem (mem σ) !! r = Some m →
  map_Forall (λ _ sl, is_Some (sliceMem (mem σ) !! sl)) m →
  Forall (λ x, is_Some (cardMem (mem σ) !! x.2)) l →
  ∃ σ' m',
    forRange l (rebuildStep r) σ = Some (tt, σ')
    ∧ cardMem (mem σ') = cardMem (mem σ)
    ∧ cardSliceMem (mem σ') = cardSliceMem (mem σ)
    ∧ st σ' = st σ
    ∧ sliceMem (mem σ) ⊆ sliceMem (mem σ')
    ∧ mapMem (mem σ') = <[r := m']> (mapMem (mem σ))
    ∧ map_Forall (λ _ sl, is_Some (sliceMem (mem σ') !! sl)) m'
    ∧ readMap (mem σ') r
      = foldl bucketStep (readMap (mem σ) r) (keysOf (cardMem (mem σ)) l).
Proof.
  induction l as [|[itemID p] l IH]; intros σ m r Hm Hwf Hl.
  - exists σ, m. simpl. repeat split; try done.
    by rewrite insert_id.
  - apply Forall_cons in Hl as [[c Hc] Hl]. simpl in Hc.
    pose proof (rebuildStep_run r σ m itemID p c Hm Hc Hwf) as Hstep.
    set (sl := fresh (dom (sliceMem (mem σ)))) in *.
    set (old := default [] (m !! columnKey c ≫= (sliceMem (mem σ) !!.))) in *.
    set (σ1 := mkState _ _) in Hstep.
    assert (Hsl : sliceMem (mem σ) !! sl = None) by apply fresh_slice_lookup.
    assert (Hsub : sliceMem (mem σ) ⊆ sliceMem (mem σ1)).
    { simpl. by apply insert_subseteq. }
    destruct (IH σ1 (<[columnKey c := sl]> m) r) as (σ' & m' & Hrun & H1 & H2 & H3 & H4 & H5 & H6 & H7).
    + simpl. by rewrite lookup_insert_eq.
    + simpl. intros k s. destruct (decide (columnKey c = k)) as [->|Hne].
      * rewrite lookup_insert_eq. intros [= <-]. by rewrite lookup_insert_eq.
      * rewrite lookup_insert_ne by done. intros Hs.
        destruct (Hwf _ _ Hs) as [x Hx]. exists x.
        eapply lookup_weaken; [exact Hx|exact Hsub].
    + done.
    + exists σ', m'. cbn [forRange]. unfold bind at 1. rewrite Hstep.
      split; [exact Hrun|]. split; [by rewrite H1|]. split; [by rewrite H2|].
      split; [by rewrite H3|]. split; [by etrans|].
      split; [rewrite H5; simpl; by rewrite insert_insert_eq|].
      split; [done|].
      rewrite H7. simpl. rewrite Hc. simpl. f_equal.
      apply map_eq. intros k. unfold addToBucket.
      erewrite readMap_lookup by (simpl; apply lookup_insert_eq). simpl.
      destruct (decide (columnKey c = k)) as [<-|Hne].
      * rewrite !lookup_insert_eq. simpl. rewrite lookup_insert_eq.
        f_equal. f_equal. subst old.
        rewrite lookup_total_alt. erewrite readMap_lookup by done. done.
      * rewrite !lookup_insert_ne by done.
        erewrite readMap_lookup by done.
        destruct (m !! k) as [s|] eqn:Hs; simpl; [|done].
        rewrite lookup_insert_ne; [done|].
        intros <-. destruct (Hwf _ _ Hs) as [x Hx]. congruence.
Qed.

Lemma rebuildColumns_spec σ :
  cardsOk σ → ∃ σ', rebuildColumns σ = Some (tt, σ') ∧ rebuilt σ σ'.
Proof.
  intros Hc. unfold rebuildColumns, bind, allocMap, modifyStore, getStore.
  cbn [st mem cards set_columns].
  set (r := fresh (dom (mapMem (mem σ)))).
  set (σ1 := mkState (set_mapMem (<[r := ∅]> (mapMem (mem σ))) (mem σ))
                     (set_columns r (st σ))).
  assert (Hr : mapMem (mem σ) !! r = None) by apply fresh_map_lookup.
  destruct (rebuildLoop_spec (map_to_list (cards (st σ))) σ1 ∅ r)
    as (σ' & m' & Hrun & H1 & H2 & H3 & H4 & H5 & H6 & H7).
  - simpl. by rewrite lookup_insert_eq.
  - apply map_Forall_empty.
  - simpl. apply Forall_forall. intros [k p] Hkp%elem_of_map_to_list.
    simpl. exact (Hc _ _ Hkp).
  - exists σ'. split; [exact Hrun|].
    assert (Hcols : columns (st σ') = r) by (by rewrite H3).
    assert (Hm' : mapMem (mem σ') !! r = Some m').
    { rewrite H5. by rewrite lookup_insert_eq. }
    split; try done.
    + rewrite H5. simpl. rewrite insert_insert_eq. by apply insert_subseteq.
    + unfold columnsOk. by rewrite Hcols, Hm'.
    + unfold readColumns. rewrite Hcols, H7. simpl. f_equal.
      unfold readMap. simpl. rewrite lookup_insert_eq. apply omap_empty.
Qed.

End run.

Section ops.

Lemma rebuilt_wf_indexed σ σ' :
  rebuilt σ σ' → cardsOk σ → rollbackOk σ → wf σ' ∧ indexed σ'.
Proof.
  intros [H1 H2 H3 H4 H5 H6 H7] Hc Hr. split; [split; [|split]|].
  - unfold cardsOk. rewrite H5, H1. exact Hc.
  - unfold rollbackOk. rewrite H5, H1. exact Hr.
  - exact H6.
  - unfold indexed, cardKeys. rewrite H7, H1, H5. done.
Qed.

Lemma rebuilt_readCard σ σ' itemID :
  rebuilt σ σ' → readCard σ' itemID = readCard σ itemID.
Proof. intros [H1 _ _ _ H5 _ _]. unfold readCard. by rewrite H5, H1. Qed.

Lemma wf_New h : wf (New h).
Proof.
  unfold wf, cardsOk, rollbackOk, columnsOk, New. simpl.
  rewrite lookup_insert_eq. split; [apply map_Forall_empty|].
  split; [done|apply map_Forall_empty].
Qed.

Lemma indexed_New h : indexed (New h).
Proof.
  unfold indexed, readColumns, readMap, cardKeys, New. simpl.
  rewrite lookup_insert_eq, omap_empty, map_to_list_empty. done.
Qed.

Lemma SetGroupField_run field σ :
  cardsOk σ →
  ∃ σ', SetGroupField field σ = Some (tt, σ')
        ∧ rebuilt (mkState (mem σ) (set_groupField field (st σ))) σ'.
Proof.
  intros Hc. unfold SetGroupField, bind, modifyStore.
  by apply rebuildColumns_spec.
Qed.

Lemma upsertLoop_run cs : ∀ σ,
  Forall (λ p, is_Some (cardMem (mem σ) !! p)) cs →
  forRange cs upsertStep σ
  = Some (tt, mkState (mem σ)
                (set_cards (upsertAll (cardMem (mem σ)) cs (cards (st σ))) (st σ))).
Proof.
  induction cs as [|p cs IH]; intros σ Hcs.
  - simpl. unfold ret. by destruct σ as [h []].
  - apply Forall_cons in Hcs as [[c Hc] Hcs].
    cbn [forRange]. unfold bind at 1. unfold upsertStep, bind, loadCard.
    rewrite Hc. unfold modifyStore. rewrite IH by done. simpl. by rewrite Hc.
Qed.

Lemma upsertAll_cardsOk h cs : ∀ m,
  map_Forall (λ _ p, is_Some (h !! p)) m →
  map_Forall (λ (_ : string) p, is_Some (h !! p)) (upsertAll h cs m).
Proof.
  induction cs as [|p cs IH]; intros m Hm; [done|]. simpl.
  apply IH. destruct (h !! p) as [c|] eqn:Hc; [|done].
  apply map_Forall_insert_2; [by rewrite Hc|done].
Qed.

Lemma UpsertCards_run cs σ :
  cardsOk σ →
  Forall (λ p, is_Some (cardMem (mem σ) !! p)) cs →
  ∃ σ', UpsertCards cs σ = Some (tt, σ')
        ∧ rebuilt (mkState (mem σ)
             (set_cards (upsertAll (cardMem (mem σ)) cs (cards (st σ))) (st σ))) σ'.
Proof.
  intros Hc Hcs. unfold UpsertCards, bind. rewrite upsertLoop_run by done.
  apply rebuildColumns_spec. unfold cardsOk. simpl.
  by apply upsertAll_cardsOk.
Qed.

Lemma MoveCard_missing itemID newOptionID σ :
  cards (st σ) !! itemID = None →
  MoveCard itemID newOptionID σ = Some (Some ErrCardNotFound, σ).
Proof. intros H. unfold MoveCard, bind, getStore. by rewrite H. Qed.

Lemma moveWritten_cardsOk σ p c v :
  cardsOk σ → cardMem (mem σ) !! p = Some c → cardsOk (moveWritten σ p c v).
Proof.
  intros Hc Hp. unfold cardsOk, moveWritten. simpl.
  intros k q Hq. destruct (Hc _ _ Hq) as [x Hx].
  destruct (decide (p = q)) as [->|Hne].
  - rewrite lookup_insert_eq. eauto.
  - rewrite lookup_insert_ne by done.
    destruct (decide (fresh (dom (cardMem (mem σ))) = q)) as [<-|Hne'].
    + rewrite lookup_insert_eq. eauto.
    + rewrite lookup_insert_ne by done. eauto.
Qed.

Lemma moveWritten_rollbackOk σ p c v : rollbackOk (moveWritten σ p c v).
Proof.
  unfold rollbackOk, moveWritten. simpl.
  destruct (decide (p = fresh (dom (cardMem (mem σ))))) as [->|Hne].
  - rewrite lookup_insert_eq. eauto.
  - rewrite lookup_insert_ne, lookup_insert_eq by done. eauto.
Qed.

Lemma MoveCard_run itemID newOptionID σ p c :
  cardsOk σ →
  cards (st σ) !! itemID = Some p →
  cardMem (mem σ) !! p = Some c →
  ∃ σ', MoveCard itemID newOptionID σ = Some (None, σ')
        ∧ rebuilt (moveWritten σ p c newOptionID) σ'.
Proof.
  intros Hc Hp Hpc. unfold MoveCard, bind, getStore. rewrite Hp.
  unfold loadCard. rewrite Hpc. unfold allocCard, modifyStore, storeCard. simpl.
  assert (Hfr : cardMem (mem σ) !! fresh (dom (cardMem (mem σ))) = None)
    by apply fresh_card_lookup.
  assert (Hne : fresh (dom (cardMem (mem σ))) ≠ p) by congruence.
  rewrite lookup_insert_ne, Hpc by done.
  destruct (rebuildColumns_spec (moveWritten σ p c newOptionID)) as (σ' & Hrun & Hreb).
  { by apply moveWritten_cardsOk. }
  exists σ'. unfold moveWritten in Hrun.
  unfold set_cardMem in *. simpl in *. by rewrite Hrun.
Qed.

Lemma RollbackMove_none σ :
  rollbackCard (st σ) = None →
  RollbackMove σ = Some (Some (errors_New "no rollback state available"), σ).
Proof. intros H. unfold RollbackMove, bind, getStore. by rewrite H. Qed.

Lemma RollbackMove_run σ rb c :
  cardsOk σ →
  rollbackCard (st σ) = Some rb →
  cardMem (mem σ) !! rb = Some c →
  ∃ σ', RollbackMove σ
        = Some (None, mkState (mem σ') (set_rollbackCard None (st σ')))
        ∧ rebuilt (rollbackWritten σ rb c) σ'.
Proof.
  intros Hc Hrb Hc'. unfold RollbackMove, bind, getStore. rewrite Hrb.
  unfold loadCard. rewrite Hc'. unfold modifyStore. simpl.
  destruct (rebuildColumns_spec (rollbackWritten σ rb c)) as (σ' & Hrun & Hreb).
  { unfold cardsOk, rollbackWritten. simpl.
    apply map_Forall_insert_2; [by rewrite Hc'|done]. }
  exists σ'. unfold rollbackWritten in Hrun. by rewrite Hrun.
Qed.

Lemma Clear_run σ :
  Clear σ
  = Some (tt, mkState
      (set_mapMem (<[fresh (dom (mapMem (mem σ))) := ∅]> (mapMem (mem σ))) (mem σ))
      (mkStore (project (st σ)) (groupField (st σ)) (viewerLogin (st σ)) ∅
               (fresh (dom (mapMem (mem σ)))) "" false None)).
Proof. reflexivity. Qed.

Lemma Clear_wf_indexed σ σ' : Clear σ = Some (tt, σ') → wf σ' ∧ indexed σ'.
Proof.
  rewrite Clear_run. intros [= <-]. split.
  - unfold wf, cardsOk, rollbackOk, columnsOk. simpl. rewrite lookup_insert_eq.
    split; [apply map_Forall_empty|]. split; [done|apply map_Forall_empty].
  - unfold indexed, readColumns, readMap, cardKeys. simpl.
    rewrite lookup_insert_eq, omap_empty, map_to_list_empty. done.
Qed.

Lemma Reset_run σ :
  Reset σ = Clear (mkState (mem σ) (set_groupField None (set_project None (st σ)))).
Proof. reflexivity. Qed.

Lemma set_rollbackCard_None_wf_indexed σ :
  wf σ → indexed σ →
  wf (mkState (mem σ) (set_rollbackCard None (st σ)))
  ∧ indexed (mkState (mem σ) (set_rollbackCard None (st σ))).
Proof.
  intros (H1 & H2 & H3) Hi. split; [|exact Hi].
  split; [exact H1|]. split; [done|exact H3].
Qed.

Lemma runOp_wf_indexed o σ σ' :
  wf σ → indexed σ → runOp o σ = Some (tt, σ') → wf σ' ∧ indexed σ'.
Proof.
  intros (Hc & Hr & Hcol) Hi Hrun. destruct o as [f|cs|itemID v| | |]; simpl in Hrun.
  - destruct (SetGroupField_run f σ Hc) as (σ1 & Hrun1 & Hreb).
    rewrite Hrun1 in Hrun. injection Hrun as <-.
    by apply (rebuilt_wf_indexed _ _ Hreb).
  - destruct (decide (Forall (λ p, is_Some (cardMem (mem σ) !! p)) cs)) as [Hcs|Hcs].
    + destruct (UpsertCards_run cs σ Hc Hcs) as (σ1 & Hrun1 & Hreb).
      rewrite Hrun1 in Hrun. injection Hrun as <-.
      apply (rebuilt_wf_indexed _ _ Hreb); [|done].
      unfold cardsOk. simpl. by apply upsertAll_cardsOk.
    + exfalso. apply Hcs. clear Hcs.
      unfold UpsertCards, bind in Hrun.
      destruct (forRange cs upsertStep σ) as [[[] σ1]|] eqn:Hloop; [|done].
      clear Hrun Hc Hr Hcol Hi. revert σ σ1 Hloop.
      induction cs as [|p cs IH]; intros σ σ1 Hloop; [done|].
      cbn [forRange] in Hloop. unfold bind at 1 in Hloop.
      unfold upsertStep, bind, loadCard in Hloop.
      destruct (cardMem (mem σ) !! p) as [c|] eqn:Hp; [|done].
      apply Forall_cons. split; [eauto|].
      unfold modifyStore in Hloop. by apply IH in Hloop.
  - unfold bind in Hrun.
    destruct (cards (st σ) !! itemID) as [p|] eqn:Hp.
    + destruct (Hc _ _ Hp) as [c Hpc].
      destruct (MoveCard_run itemID v σ p c Hc Hp Hpc) as (σ1 & Hrun1 & Hreb).
      rewrite Hrun1 in Hrun. injection Hrun as <-.
      apply (rebuilt_wf_indexed _ _ Hreb).
      * by apply moveWritten_cardsOk.
      * apply moveWritten_rollbackOk.
    + rewrite MoveCard_missing in Hrun by done. by injection Hrun as <-.
  - unfold bind in Hrun.
    destruct (rollbackCard (st σ)) as [rb|] eqn:Hrb.
    + pose proof Hr as Hr'. unfold rollbackOk in Hr'. rewrite Hrb in Hr'.
      destruct Hr' as [c Hrbc].
      destruct (RollbackMove_run σ rb c Hc Hrb Hrbc) as (σ1 & Hrun1 & Hreb).
      rewrite Hrun1 in Hrun. injection Hrun as <-.
      apply set_rollbackCard_None_wf_indexed;
        apply (rebuilt_wf_indexed _ _ Hreb); try done.
      all: try (unfold cardsOk, rollbackWritten; simpl;
                apply map_Forall_insert_2; [by rewrite Hrbc|done]).
      all: unfold rollbackOk, rollbackWritten; simpl; rewrite Hrb; eauto.
    + rewrite RollbackMove_none in Hrun by done. by injection Hrun as <-.
  - by apply Clear_wf_indexed in Hrun.
  - rewrite Reset_run in Hrun. by apply Clear_wf_indexed in Hrun.
Qed.

Lemma keysOf_cons (h : gmap loc Card.t) k p (l : list (string * loc)) :
  keysOf h ((k, p) :: l)
  = match h !! p with
    | Some c => (k, columnKey c) :: keysOf h l
    | None => keysOf h l
    end.
Proof. unfold keysOf. simpl. by destruct (h !! p). Qed.

Lemma keysOf_ext (h1 h2 : gmap loc Card.t) (l : list (string * loc)) :
  Forall (λ x, h1 !! x.2 = h2 !! x.2) l → keysOf h1 l = keysOf h2 l.
Proof.
  induction 1 as [|[k p] l Hx _ IH]; [done|].
  rewrite !keysOf_cons. simpl in Hx. by rewrite Hx, IH.
Qed.

Lemma allocCard_wf_indexed c σ p σ' :
  wf σ → indexed σ → allocCard c σ = Some (p, σ') → wf σ' ∧ indexed σ'.
Proof.
  intros (Hc & Hr & Hcol) Hi [= <- <-].
  assert (Hfr : cardMem (mem σ) !! fresh (dom (cardMem (mem σ))) = None)
    by apply fresh_card_lookup.
  assert (Hkeep : ∀ q, is_Some (cardMem (mem σ) !! q) →
            <[fresh (dom (cardMem (mem σ))) := c]> (cardMem (mem σ)) !! q
            = cardMem (mem σ) !! q).
  { intros q [x Hx]. rewrite lookup_insert_ne; [done|congruence]. }
  split; [split; [|split]|].
  - unfold cardsOk. simpl. intros k q Hq. rewrite Hkeep; by apply (Hc k q).
  - unfold rollbackOk in *. simpl. destruct (rollbackCard (st σ)); [|done].
    by rewrite Hkeep.
  - exact Hcol.
  - unfold indexed, cardKeys, readColumns in *. simpl.
    change (readMap _ (columns (st σ))) with (readMap (mem σ) (columns (st σ))).
    rewrite Hi. f_equal. apply keysOf_ext, Forall_forall.
    intros [k q] Hkq%elem_of_map_to_list. simpl. symmetry. apply Hkeep.
    by apply (Hc k q).
Qed.

Lemma reachable_wf_indexed σ : reachable σ → wf σ ∧ indexed σ.
Proof.
  induction 1 as [h|σ o σ' _ [IHw IHi] Hrun|σ c p σ' _ [IHw IHi] Hrun].
  - split; [apply wf_New|apply indexed_New].
  - by apply (runOp_wf_indexed o σ).
  - by apply (allocCard_wf_indexed c σ p).
Qed.

End ops.

(** ** The accessors *)

Section accessors.

Lemma omap_ext_elem {A B} (f g : A → option B) (l : list A) :
  (∀ x, x ∈ l → f x = g x) → omap f l = omap g l.
Proof.
  induction l as [|x l IH]; intros H; [done|]. csimpl.
  rewrite (H x) by left. rewrite IH; [done|].
  intros y Hy. apply H. by right.
Qed.

Lemma copyStep_run result σ res k sl l :
  mapMem (mem σ) !! result = Some res →
  sliceMem (mem σ) !! sl = Some l →
  copyStep result (k, sl) σ
  = Some (tt, mkState
      (mkHeap (cardMem (mem σ))
         (<[fresh (dom (sliceMem (mem σ))) := l]> (sliceMem (mem σ)))
         (cardSliceMem (mem σ))
         (<[result := <[k := fresh (dom (sliceMem (mem σ)))]> res]> (mapMem (mem σ))))
      (st σ)).
Proof.
  intros Hres Hsl. unfold copyStep, bind, loadSlice. rewrite Hsl.
  unfold allocSlice, loadMap, storeMap. heap_simpl. rewrite Hres.
  heap_simpl. by rewrite Hres.
Qed.

Lemma copyLoop_spec result l : ∀ σ res,
  mapMem (mem σ) !! result = Some res →
  Forall (λ x, is_Some (sliceMem (mem σ) !! x.2)) l →
  NoDup l.*1 →
  ∃ σ' res',
    forRange l (copyStep result) σ = Some (tt, σ')
    ∧ cardMem (mem σ') = cardMem (mem σ)
    ∧ cardSliceMem (mem σ') = cardSliceMem (mem σ)
    ∧ st σ' = st σ
    ∧ sliceMem (mem σ) ⊆ sliceMem (mem σ')
    ∧ mapMem (mem σ') = <[result := res']> (mapMem (mem σ))
    ∧ (∀ k, k ∉ l.*1 → res' !! k = res !! k)
    ∧ (∀ k sl, (k, sl) ∈ l →
         ∃ sl', res' !! k = Some sl'
                ∧ sliceMem (mem σ) !! sl' = None
                ∧ sliceMem (mem σ') !! sl' = sliceMem (mem σ) !! sl).
Proof.
  induction l as [|[k sl] l IH]; intros σ res Hres Hl Hnd.
  - exists σ, res. simpl. repeat split; try done.
    + by rewrite insert_id.
    + by intros k sl ?%elem_of_nil.
  - apply Forall_cons in Hl as [[l0 Hsl] Hl]. simpl in Hsl.
    simpl in Hnd. apply NoDup_cons in Hnd as [Hk Hnd].
    pose proof (copyStep_run result σ res k sl l0 Hres Hsl) as Hstep.
    set (ids := fresh (dom (sliceMem (mem σ)))) in *.
    set (σ1 := mkState _ _) in Hstep.
    assert (Hids : sliceMem (mem σ) !! ids = None) by apply fresh_slice_lookup.
    assert (Hsub : sliceMem (mem σ) ⊆ sliceMem (mem σ1)).
    { simpl. by apply insert_subseteq. }
    destruct (IH σ1 (<[k := ids]> res)) as (σ' & res' & Hrun & H1 & H2 & H3 & H4 & H5 & H6 & H7).
    + simpl. by rewrite lookup_insert_eq.
    + eapply Forall_impl; [exact Hl|]. intros [k' s'] [x Hx]. simpl in *.
      exists x. eapply lookup_weaken; [exact Hx|exact Hsub].
    + done.
    + exists σ', res'. cbn [forRange]. unfold bind at 1. rewrite Hstep.
      split; [exact Hrun|]. split; [by rewrite H1|]. split; [by rewrite H2|].
      split; [by rewrite H3|]. split; [by etrans|].
      split; [rewrite H5; simpl; by rewrite insert_insert_eq|].
      split.
      * intros k' Hk'. simpl in Hk'. apply not_elem_of_cons in Hk' as [Hne Hk'].
        rewrite H6 by done. by rewrite lookup_insert_ne.
      * intros k' s' [Heq|Hin]%elem_of_cons.
        -- injection Heq as -> ->. exists ids.
           rewrite H6 by done. rewrite lookup_insert_eq.
           split; [done|]. split; [done|].
           rewrite Hsl. eapply lookup_weaken; [|exact H4].
           simpl. by rewrite lookup_insert_eq.
        -- destruct (H7 _ _ Hin) as (sl' & Hr' & Hn' & He').
           exists sl'. split; [done|]. split.
           ++ destruct (sliceMem (mem σ) !! sl') as [x|] eqn:Hx; [|done].
              eapply lookup_weaken in Hx; [|exact Hsub]. congruence.
           ++ rewrite He'. simpl.
              rewrite Forall_forall in Hl. destruct (Hl _ Hin) as [x Hx].
              simpl in Hx. rewrite lookup_insert_ne; [done|]. congruence.
Qed.

Lemma GetColumns_none σ :
  groupField (st σ) = None →
  GetColumns σ = Some ((None, Some ErrNoGroupField), σ).
Proof. intros H. unfold GetColumns, bind, getStore. by rewrite H. Qed.

Lemma GetColumns_run σ f :
  columnsOk σ → groupField (st σ) = Some f →
  ∃ r σ', GetColumns σ = Some ((Some r, None), σ') ∧ copied σ σ' r.
Proof.
  intros Hcol Hf. unfold columnsOk in Hcol.
  destruct (mapMem (mem σ) !! columns (st σ)) as [m|] eqn:Hm; [|done].
  unfold GetColumns, bind, getStore. rewrite Hf. unfold loadMap. rewrite Hm.
  unfold allocMap. simpl.
  set (r := fresh (dom (mapMem (mem σ)))).
  set (σ1 := mkState _ _).
  assert (Hr : mapMem (mem σ) !! r = None) by apply fresh_map_lookup.
  destruct (copyLoop_spec r (map_to_list m) σ1 ∅)
    as (σ' & res' & Hrun & H1 & H2 & H3 & H4 & H5 & H6 & H7).
  - simpl. by rewrite lookup_insert_eq.
  - simpl. apply Forall_forall. intros [k sl] Hk%elem_of_map_to_list.
    simpl. exact (Hcol _ _ Hk).
  - apply NoDup_fst_map_to_list.
  - exists r, σ'. rewrite Hrun. split; [done|].
    assert (Hres : mapMem (mem σ') !! r = Some res').
    { rewrite H5. by rewrite lookup_insert_eq. }
    assert (Hin : ∀ k sl, res' !! k = Some sl → m !! k ≠ None).
    { intros k sl Hk Hmk. rewrite H6 in Hk; [by rewrite lookup_empty in Hk|].
      intros ((k' & s') & -> & Hin%elem_of_map_to_list)%list_elem_of_fmap.
      simpl in Hmk. congruence. }
    split; try done.
    + split; [by rewrite H1|]. split; [done|]. split; [by rewrite H2|].
      rewrite H5. simpl. rewrite insert_insert_eq. by apply insert_subseteq.
    + exists res'. split; [done|]. intros k sl Hk.
      destruct (m !! k) as [s0|] eqn:Hmk; [|by destruct (Hin _ _ Hk)].
      apply elem_of_map_to_list in Hmk.
      destruct (H7 _ _ Hmk) as (sl' & Hr' & Hn' & He').
      assert (sl' = sl) as -> by congruence.
      split; [done|]. rewrite He'. simpl.
      apply elem_of_map_to_list in Hmk. exact (Hcol _ _ Hmk).
    + apply map_eq. intros k. unfold readColumns.
      erewrite !readMap_lookup by done.
      destruct (m !! k) as [s0|] eqn:Hmk; simpl.
      * apply elem_of_map_to_list in Hmk.
        destruct (H7 _ _ Hmk) as (sl' & Hr' & Hn' & He').
        rewrite Hr'. simpl. by rewrite He'.
      * rewrite H6; [by rewrite lookup_empty|].
        intros ((k' & s') & -> & Hin'%elem_of_map_to_list)%list_elem_of_fmap.
        simpl in Hmk. congruence.
Qed.

Lemma GetColumns_inv σ r e σ' :
  columnsOk σ → GetColumns σ = Some ((Some r, e), σ') →
  e = None ∧ copied σ σ' r ∧ is_Some (groupField (st σ)).
Proof.
  intros Hcol Hrun. destruct (groupField (st σ)) as [f|] eqn:Hf.
  - destruct (GetColumns_run σ f Hcol Hf) as (r' & σ'' & Hrun' & Hcop).
    rewrite Hrun' in Hrun. injection Hrun as -> <- ->. eauto.
  - by rewrite GetColumns_none in Hrun.
Qed.

Lemma readColumns_lookup_total σ m k :
  mapMem (mem σ) !! columns (st σ) = Some m →
  readColumns σ !!! k
  = match m !! k with
    | Some sl => default [] (sliceMem (mem σ) !! sl)
    | None => []
    end.
Proof.
  intros Hm. rewrite lookup_total_alt. unfold readColumns.
  erewrite readMap_lookup by done. destruct (m !! k) as [sl|]; [|done].
  simpl. by destruct (sliceMem (mem σ) !! sl).
Qed.

Lemma GetColumnCardIDs_run σ optionID :
  columnsOk σ →
  ∃ r σ', GetColumnCardIDs optionID σ = Some (r, σ')
    ∧ st σ' = st σ
    ∧ heapSub (mem σ) (mem σ')
    ∧ sliceMem (mem σ) !! r = None
    ∧ sliceMem (mem σ') !! r = Some (readColumns σ !!! optionID).
Proof.
  intros Hcol. pose proof Hcol as Hcol'. unfold columnsOk in Hcol.
  destruct (mapMem (mem σ) !! columns (st σ)) as [m|] eqn:Hm; [|done].
  unfold GetColumnCardIDs, bind, getStore, loadMap. rewrite Hm.
  rewrite (readColumns_lookup_total σ m) by done.
  assert (Hr : sliceMem (mem σ) !! fresh (dom (sliceMem (mem σ))) = None)
    by apply fresh_slice_lookup.
  destruct (m !! optionID) as [sl|] eqn:Hk.
  - destruct (Hcol _ _ Hk) as [l Hl]. unfold loadSlice. rewrite Hl.
    eexists _, _. split; [reflexivity|]. heap_simpl.
    split; [done|]. split.
    { repeat split; try done. heap_simpl. by apply insert_subseteq. }
    split; [done|]. by rewrite lookup_insert_eq.
  - eexists _, _. split; [reflexivity|]. heap_simpl.
    split; [done|]. split.
    { repeat split; try done. heap_simpl. by apply insert_subseteq. }
    split; [done|]. by rewrite lookup_insert_eq.
Qed.

Lemma GetAllCards_run σ :
  ∃ r σ', GetAllCards σ = Some (r, σ')
    ∧ st σ' = st σ
    ∧ heapSub (mem σ) (mem σ')
    ∧ cardMem (mem σ') = cardMem (mem σ)
    ∧ cardSliceMem (mem σ) !! r = None
    ∧ cardSliceMem (mem σ') !! r = Some (snd <$> map_to_list (cards (st σ))).
Proof.
  eexists _, _. split; [reflexivity|]. heap_simpl.
  assert (Hr : cardSliceMem (mem σ) !! fresh (dom (cardSliceMem (mem σ))) = None).
  { apply not_elem_of_dom, is_fresh. }
  split; [done|]. split.
  { repeat split; try done. heap_simpl. by apply insert_subseteq. }
  split; [done|]. split; [done|]. by rewrite lookup_insert_eq.
Qed.

Lemma obsGetCard_eq itemID σ :
  obsGetCard itemID σ
  = Some (readCard σ itemID,
          match cards (st σ) !! itemID with
          | Some _ => None
          | None => Some ErrCardNotFound
          end).
Proof.
  unfold obsGetCard, GetCard, readCard, bind, getStore.
  by destruct (cards (st σ) !! itemID).
Qed.

Lemma obsGetAllCards_eq σ :
  obsGetAllCards σ
  = Some (omap (λ p, cardMem (mem σ) !! p) (snd <$> map_to_list (cards (st σ)))).
Proof.
  unfold obsGetAllCards, GetAllCards, bind, getStore, allocCardSlice, readCardSlice.
  heap_simpl. by rewrite lookup_insert_eq.
Qed.

Lemma obsGetColumns_eq σ :
  columnsOk σ →
  obsGetColumns σ
  = Some (match groupField (st σ) with
          | Some _ => (Some (readColumns σ), None)
          | None => (None, Some ErrNoGroupField)
          end).
Proof.
  intros Hcol. unfold obsGetColumns. destruct (groupField (st σ)) as [f|] eqn:Hf.
  - destruct (GetColumns_run σ f Hcol Hf) as (r & σ' & -> & Hcop).
    by rewrite (copied_read _ _ _ Hcop).
  - by rewrite GetColumns_none.
Qed.

Lemma obsGetColumnCardIDs_eq optionID σ :
  columnsOk σ →
  obsGetColumnCardIDs optionID σ = Some (readColumns σ !!! optionID).
Proof.
  intros Hcol. unfold obsGetColumnCardIDs.
  destruct (GetColumnCardIDs_run σ optionID Hcol) as (r & σ' & -> & _ & _ & _ & Hr).
  unfold readSlice. by rewrite Hr.
Qed.

(** A state with the same store fields whose heap holds every object of
    [σ] reads the same. *)
Lemma heapSub_readCard σ σ2 itemID :
  cardsOk σ → st σ2 = st σ → heapSub (mem σ) (mem σ2) →
  readCard σ2 itemID = readCard σ itemID.
Proof.
  intros Hc Hst (Hsub & _). unfold readCard. rewrite Hst.
  destruct (cards (st σ) !! itemID) as [p|] eqn:Hp; [|done].
  destruct (Hc _ _ Hp) as [c Hpc]. rewrite Hpc.
  by eapply lookup_weaken.
Qed.

Lemma heapSub_columns σ σ2 :
  columnsOk σ → st σ2 = st σ → heapSub (mem σ) (mem σ2) →
  columnsOk σ2 ∧ readColumns σ2 = readColumns σ.
Proof.
  intros Hcol Hst (_ & Hsl & _ & Hmap). unfold columnsOk in *.
  destruct (mapMem (mem σ) !! columns (st σ)) as [m|] eqn:Hm; [|done].
  assert (Hm2 : mapMem (mem σ2) !! columns (st σ2) = Some m).
  { rewrite Hst. by eapply lookup_weaken. }
  rewrite Hm2. split.
  - intros k sl Hk. destruct (Hcol _ _ Hk) as [l Hl]. exists l.
    by eapply lookup_weaken.
  - apply map_eq. intros k. unfold readColumns.
    erewrite !readMap_lookup by done.
    destruct (m !! k) as [sl|] eqn:Hk; [|done]. simpl.
    destruct (Hcol _ _ Hk) as [l Hl]. rewrite Hl. by eapply lookup_weaken.
Qed.

Lemma sameReads_frame σ σ2 :
  wf σ → st σ2 = st σ → heapSub (mem σ) (mem σ2) → sameReads σ σ2.
Proof.
  intros (Hc & Hr & Hcol) Hst Hsub.
  destruct (heapSub_columns σ σ2 Hcol Hst Hsub) as [Hcol2 Hread].
  unfold sameReads.
  repeat match goal with |- _ ∧ _ => split end.
  - unfold obsValue, GetProject, bind, getStore, ret. by rewrite Hst.
  - unfold obsValue, GetGroupField, bind, getStore, ret. by rewrite Hst.
  - unfold obsValue, GetViewerLogin, bind, getStore, ret. by rewrite Hst.
  - unfold obsValue, GetPagination, bind, getStore, ret. by rewrite Hst.
  - intros v. unfold obsValue, ValidateOption, bind, getStore. rewrite Hst.
    destruct (groupField (st σ)); [|done].
    destruct (decide (v = "")); [done|]. by destruct (existsb _ _).
  - intros itemID. rewrite !obsGetCard_eq, Hst.
    by rewrite (heapSub_readCard σ σ2).
  - rewrite !obsGetAllCards_eq, Hst. f_equal.
    apply omap_ext_elem. intros p Hp.
    apply list_elem_of_fmap in Hp as ([k q] & -> & Hkq%elem_of_map_to_list).
    simpl. destruct (Hc _ _ Hkq) as [c Hqc]. rewrite Hqc.
    symmetry. destruct Hsub as (Hsub & _). by eapply lookup_weaken.
  - rewrite !obsGetColumns_eq by done. by rewrite Hst, Hread.
  - intros k. rewrite !obsGetColumnCardIDs_eq by done. by rewrite Hread.
Qed.

End accessors.

(** ** The column index splits the cards *)

Section partition.

Lemma keysOf_fst_sublist (h : gmap loc Card.t) (l : list (string * loc)) :
  (keysOf h l).*1 `sublist_of` l.*1.
Proof.
  induction l as [|[k p] l IH]; [done|]. rewrite keysOf_cons.
  destruct (h !! p); simpl; by constructor.
Qed.

Lemma cardKeys_NoDup σ : NoDup (cardKeys σ).*1.
Proof.
  eapply sublist_NoDup; [|apply keysOf_fst_sublist].
  apply NoDup_fst_map_to_list.
Qed.

Lemma elem_of_cardKeys σ itemID k :
  (itemID, k) ∈ cardKeys σ
  ↔ ∃ c, readCard σ itemID = Some c ∧ k = columnKey c.
Proof.
  unfold cardKeys, keysOf, readCard. rewrite list_elem_of_omap. split.
  - intros ([i p] & Hin%elem_of_map_to_list & Hf).
    destruct (cardMem (mem σ) !! p) as [c|] eqn:Hp; [|done].
    injection Hf as -> <-. exists c. by rewrite Hin.
  - intros (c & Hc & ->).
    destruct (cards (st σ) !! itemID) as [p|] eqn:Hp; [|done].
    exists (itemID, p). split; [by apply elem_of_map_to_list|]. by rewrite Hc.
Qed.

Lemma indexed_elem σ itemID k :
  indexed σ →
  itemID ∈ readColumns σ !!! k
  ↔ ∃ c, readCard σ itemID = Some c ∧ k = columnKey c.
Proof. intros ->. by rewrite bucketsOf_elem, elem_of_cardKeys. Qed.

Lemma indexed_NoDup σ k : indexed σ → NoDup (readColumns σ !!! k).
Proof. intros ->. apply bucketsOf_NoDup, cardKeys_NoDup. Qed.

Lemma columnKey_sentinel c :
  columnKey c = NoStatusKey
  ↔ Card.GroupOptionID c = "" ∨ Card.GroupOptionID c = NoStatusKey.
Proof. unfold columnKey. case_decide; split; intros; tauto. Qed.

Lemma columnKey_value c :
  Card.GroupOptionID c ≠ "" → columnKey c = Card.GroupOptionID c.
Proof. unfold columnKey. by case_decide. Qed.

Lemma runOps_reachable ops : ∀ σ σ',
  reachable σ → runOps ops σ = Some σ' → reachable σ'.
Proof.
  induction ops as [|o ops IH]; intros σ σ' Hr Hrun; simpl in Hrun.
  - by injection Hrun as <-.
  - destruct (runOp o σ) as [[[] σ1]|] eqn:Ho; [|done].
    eapply IH; [|exact Hrun]. by eapply reachable_op.
Qed.

(** C1 (as amended).  In every state that a sequence of SetGroupField,
    UpsertCards, MoveCard, RollbackMove, Clear and Reset reaches, and with a
    grouping field set, the map that GetColumns returns splits the stored
    identities: every identity of the card map sits exactly once in the
    bucket whose key is the column key of its card, and in no other bucket,
    and the buckets hold nothing else.  The column key is the card's group
    value, and NoStatusKey when the value is empty; the active field's
    options play no part.  Without a grouping field GetColumns fails with
    ErrNoGroupField. *)
Theorem columns_partition_reachable σ :
  reachable σ → columnsPartition σ.
Proof.
  intros (Hwf & Hi)%reachable_wf_indexed. destruct Hwf as (Hc & Hr & Hcol).
  unfold columnsPartition. destruct (groupField (st σ)) as [f|] eqn:Hf.
  - destruct (GetColumns_run σ f Hcol Hf) as (r & σ' & Hrun & Hcop).
    exists r, σ'. split; [done|]. rewrite (copied_read _ _ _ Hcop).
    split; [|split].
    + intros itemID [p Hp]. unfold readCard. rewrite Hp. exact (Hc _ _ Hp).
    + intros itemID c Hcard. split; [|by apply indexed_NoDup].
      intros k. rewrite indexed_elem by done. split.
      * intros (c' & Hc' & ->). congruence.
      * intros ->. eauto.
    + intros itemID k (c & Hcard & _)%indexed_elem; [|done].
      unfold readCard in Hcard. by destruct (cards (st σ) !! itemID).
  - by apply GetColumns_none.
Qed.

(** The column key of a card, spelled out: the sentinel exactly for an
    empty group value (or the sentinel string itself), the group value for
    every other value. *)
Lemma columnKey_spec c :
  (Card.GroupOptionID c = "" → columnKey c = NoStatusKey)
  ∧ (Card.GroupOptionID c ≠ "" → columnKey c = Card.GroupOptionID c).
Proof. unfold columnKey. case_decide; split; intros; tauto. Qed.

Lemma columns_partition_witness :
  ∃ σ, testStore = Some σ ∧ reachable σ ∧ columnsPartition σ.
Proof.
  eexists. split; [vm_compute; reflexivity|].
  assert (Hr : reachable (default (New (heapOfCards [])) testStore)).
  { eapply (runOps_reachable (loadOps 4) (New (heapOfCards createTestCards)));
      [apply reachable_New|]. vm_compute. reflexivity. }
  split; [exact Hr|]. exact (columns_partition_reachable _ Hr).
Defined.

(** C1 as stated fails: a card whose group value is no option of the active
    field sits in the bucket of that value, not in the sentinel bucket. *)
Lemma sentinel_unrecognized_counterexample :
  ∃ σ, strayStore = Some σ ∧ reachable σ ∧ ¬ sentinelIffEmptyOrUnrecognized σ.
Proof.
  eexists. split; [vm_compute; reflexivity|].
  split.
  { eapply (runOps_reachable (loadOps 1) (New (heapOfCards [strayCard])));
      [apply reachable_New|]. vm_compute. reflexivity. }
  intros H.
  specialize (H createTestStatusField).
  eassert (Hobs : obsGetColumns _ = Some (Some _, None)).
  2: { specialize (H _ "item_9" strayCard eq_refl Hobs eq_refl).
       destruct H as [_ H].
       assert (Hin : "item_9" ∈ ({[ "opt_high" := ["item_9"] ]} : gmap string (list string)) !!! NoStatusKey).
       { apply H. right. unfold recognized. vm_compute.
         intros Hin. repeat (apply elem_of_cons in Hin as [Hin|Hin]; [discriminate|]).
         by apply elem_of_nil in Hin. }
       vm_compute in Hin. by apply elem_of_nil in Hin. }
  vm_compute. reflexivity.
Qed.

End partition.

(** ** Moves and rollback *)

Section moves.

Lemma rollbackCopy_id c :
  rollbackCopy c = c
  ↔ Card.Assignees c = [] ∧ Card.Body c = "" ∧ Card.State c = ""
    ∧ Card.Labels c = [] ∧ Card.Author c = "" ∧ Card.CreatedAt c = "".
Proof.
  destruct c. unfold rollbackCopy. simpl. split.
  - intros [= <- <- <- <- <- <-]. done.
  - intros (-> & -> & -> & -> & -> & ->). done.
Qed.

Lemma rollbackCopy_group c :
  Card.GroupOptionID (rollbackCopy c) = Card.GroupOptionID c.
Proof. reflexivity. Qed.

(** A successful move: the card at [p] has the new value, the saved card
    is a new object that holds the seven copied fields, whatever was saved
    before. *)
Lemma MoveCard_effect itemID newOptionID σ p c :
  wf σ →
  cards (st σ) !! itemID = Some p →
  cardMem (mem σ) !! p = Some c →
  ∃ σ1 rb,
    MoveCard itemID newOptionID σ = Some (None, σ1)
    ∧ wf σ1 ∧ indexed σ1
    ∧ cards (st σ1) = cards (st σ)
    ∧ rollbackCard (st σ1) = Some rb
    ∧ cardMem (mem σ) !! rb = None
    ∧ cardMem (mem σ1)
      = <[p := Card.set_GroupOptionID newOptionID c]>
          (<[rb := rollbackCopy c]> (cardMem (mem σ)))
    ∧ readCard σ1 itemID = Some (Card.set_GroupOptionID newOptionID c).
Proof.
  intros (Hc & Hr & Hcol) Hp Hpc.
  destruct (MoveCard_run itemID newOptionID σ p c Hc Hp Hpc) as (σ1 & Hrun & Hreb).
  exists σ1, (fresh (dom (cardMem (mem σ)))). split; [done|].
  destruct (rebuilt_wf_indexed _ _ Hreb) as [Hwf1 Hi1].
  { by apply moveWritten_cardsOk. }
  { apply moveWritten_rollbackOk. }
  destruct Hreb as [H1 _ _ _ H5 _ _]. unfold moveWritten in *. heap_simpl.
  split; [done|]. split; [done|].
  split; [by rewrite H5|]. split; [by rewrite H5|].
  split; [apply fresh_card_lookup|]. split; [done|].
  unfold readCard. rewrite H5, H1. heap_simpl. rewrite Hp.
  by rewrite lookup_insert_eq.
Qed.

(** A rollback with a saved card: the saved object becomes the card stored
    under its identity and the slot is emptied. *)
Lemma RollbackMove_effect σ rb c :
  wf σ →
  rollbackCard (st σ) = Some rb →
  cardMem (mem σ) !! rb = Some c →
  ∃ σ2,
    RollbackMove σ = Some (None, σ2)
    ∧ wf σ2 ∧ indexed σ2
    ∧ rollbackCard (st σ2) = None
    ∧ cards (st σ2) = <[Card.ItemID c := rb]> (cards (st σ))
    ∧ cardMem (mem σ2) = cardMem (mem σ).
Proof.
  intros (Hc & Hr & Hcol) Hrb Hrbc.
  destruct (RollbackMove_run σ rb c Hc Hrb Hrbc) as (σ' & Hrun & Hreb).
  eexists. split; [exact Hrun|].
  destruct (rebuilt_wf_indexed _ _ Hreb) as [Hwf1 Hi1].
  { unfold cardsOk, rollbackWritten. heap_simpl.
    apply map_Forall_insert_2; [by rewrite Hrbc|done]. }
  { unfold rollbackOk, rollbackWritten. heap_simpl. rewrite Hrb. eauto. }
  destruct (set_rollbackCard_None_wf_indexed σ' Hwf1 Hi1) as [Hwf2 Hi2].
  destruct Hreb as [H1 _ _ _ H5 _ _]. unfold rollbackWritten in *. heap_simpl.
  split; [done|]. split; [done|]. split; [done|].
  split; [by rewrite H5|done].
Qed.

(** A move followed by a rollback: the card stored under the identity is
    the seven-field copy of the card before the move, the column index
    is the one computed from the cards, and nothing is left to roll
    back. *)
Lemma MoveCard_RollbackMove itemID newOptionID σ p c :
  wf σ →
  cards (st σ) !! itemID = Some p →
  cardMem (mem σ) !! p = Some c →
  Card.ItemID c = itemID →
  ∃ σ1 σ2,
    MoveCard itemID newOptionID σ = Some (None, σ1)
    ∧ RollbackMove σ1 = Some (None, σ2)
    ∧ readCard σ2 itemID = Some (rollbackCopy c)
    ∧ indexed σ2
    ∧ rollbackCard (st σ2) = None.
Proof.
  intros Hwf Hp Hpc Hid.
  destruct (MoveCard_effect itemID newOptionID σ p c Hwf Hp Hpc)
    as (σ1 & rb & Hrun1 & Hwf1 & Hi1 & Hcards1 & Hrb1 & Hfresh & Hmem1 & _).
  assert (Hne : p ≠ rb) by congruence.
  assert (Hrbc : cardMem (mem σ1) !! rb = Some (rollbackCopy c)).
  { rewrite Hmem1. by rewrite lookup_insert_ne, lookup_insert_eq. }
  destruct (RollbackMove_effect σ1 rb (rollbackCopy c) Hwf1 Hrb1 Hrbc)
    as (σ2 & Hrun2 & Hwf2 & Hi2 & Hrb2 & Hcards2 & Hmem2).
  exists σ1, σ2. split; [done|]. split; [done|].
  split; [|done]. unfold readCard. rewrite Hcards2, Hmem2. simpl.
  by rewrite Hid, lookup_insert_eq.
Qed.

(** [RollbackMove] fails exactly when nothing is saved, and then changes
    nothing. *)
Lemma RollbackMove_error_iff σ :
  wf σ →
  (rollbackCard (st σ) = None
   ↔ RollbackMove σ = Some (Some (errors_New "no rollback state available"), σ))
  ∧ (rollbackCard (st σ) ≠ None ↔ ∃ σ', RollbackMove σ = Some (None, σ')).
Proof.
  intros Hwf. destruct (rollbackCard (st σ)) as [rb|] eqn:Hrb.
  - destruct Hwf as (Hc & Hr & Hcol). pose proof Hr as Hr'.
    unfold rollbackOk in Hr'. rewrite Hrb in Hr'. destruct Hr' as [c Hrbc].
    destruct (RollbackMove_effect σ rb c (conj Hc (conj Hr Hcol)) Hrb Hrbc)
      as (σ2 & Hrun & _).
    split; split; try done.
    + rewrite Hrun. done.
    + eauto.
  - rewrite RollbackMove_none by done. split; split; try done.
    intros [σ' H]. done.
Qed.

Lemma rollbackCard_New h : rollbackCard (st (New h)) = None.
Proof. reflexivity. Qed.

Lemma rollbackCard_Clear σ σ' : Clear σ = Some (tt, σ') → rollbackCard (st σ') = None.
Proof. rewrite Clear_run. by intros [= <-]. Qed.

Lemma rollbackCard_Reset σ σ' : Reset σ = Some (tt, σ') → rollbackCard (st σ') = None.
Proof. rewrite Reset_run. apply rollbackCard_Clear. Qed.

(** Two rollbacks in a row: the second one fails. *)
Lemma RollbackMove_twice σ σ1 :
  wf σ → RollbackMove σ = Some (None, σ1) →
  RollbackMove σ1 = Some (Some (errors_New "no rollback state available"), σ1).
Proof.
  intros Hwf Hrun. destruct (rollbackCard (st σ)) as [rb|] eqn:Hrb.
  - destruct Hwf as (Hc & Hr & Hcol). pose proof Hr as Hr'.
    unfold rollbackOk in Hr'. rewrite Hrb in Hr'. destruct Hr' as [c Hrbc].
    destruct (RollbackMove_effect σ rb c (conj Hc (conj Hr Hcol)) Hrb Hrbc)
      as (σ2 & Hrun2 & _ & _ & Hnone & _).
    rewrite Hrun2 in Hrun. injection Hrun as <-. by apply RollbackMove_none.
  - by rewrite RollbackMove_none in Hrun.
Qed.

(** Two moves and one rollback.  The rollback installs the copy that the
    second move saved: the moved card has the group value it had between the
    two moves, a card moved by the first move only keeps its new value, and
    a second rollback fails. *)
Lemma MoveCard_twice_RollbackMove id1 v1 id2 v2 σ p1 c1 :
  wf σ →
  cards (st σ) !! id1 = Some p1 →
  cardMem (mem σ) !! p1 = Some c1 →
  ∀ σ1 p2 c2,
    MoveCard id1 v1 σ = Some (None, σ1) →
    cards (st σ1) !! id2 = Some p2 →
    cardMem (mem σ1) !! p2 = Some c2 →
    Card.ItemID c2 = id2 →
    ∃ σ2 σ3,
      MoveCard id2 v2 σ1 = Some (None, σ2)
      ∧ RollbackMove σ2 = Some (None, σ3)
      ∧ readCard σ3 id2 = Some (rollbackCopy c2)
      ∧ (p1 ≠ p2 → id1 ≠ id2 →
         readCard σ3 id1 = Some (Card.set_GroupOptionID v1 c1))
      ∧ RollbackMove σ3 = Some (Some (errors_New "no rollback state available"), σ3).
Proof.
  intros Hwf Hp1 Hpc1 σ1 p2 c2 Hrun1 Hp2 Hpc2 Hid2.
  destruct (MoveCard_effect id1 v1 σ p1 c1 Hwf Hp1 Hpc1)
    as (σ1' & rb1 & Hrun1' & Hwf1 & Hi1 & Hcards1 & Hrb1 & Hfresh1 & Hmem1 & Hread1).
  rewrite Hrun1' in Hrun1. injection Hrun1 as <-.
  destruct (MoveCard_effect id2 v2 σ1' p2 c2 Hwf1 Hp2 Hpc2)
    as (σ2 & rb2 & Hrun2 & Hwf2 & Hi2 & Hcards2 & Hrb2 & Hfresh2 & Hmem2 & Hread2).
  assert (Hne : p2 ≠ rb2) by congruence.
  assert (Hrbc : cardMem (mem σ2) !! rb2 = Some (rollbackCopy c2)).
  { rewrite Hmem2. by rewrite lookup_insert_ne, lookup_insert_eq. }
  destruct (RollbackMove_effect σ2 rb2 (rollbackCopy c2) Hwf2 Hrb2 Hrbc)
    as (σ3 & Hrun3 & Hwf3 & Hi3 & Hrb3 & Hcards3 & Hmem3).
  exists σ2, σ3. split; [done|]. split; [done|].
  split; [|split].
  - unfold readCard. rewrite Hcards3, Hmem3. simpl.
    by rewrite Hid2, lookup_insert_eq.
  - intros Hpne Hidne. unfold readCard. rewrite Hcards3, Hmem3. simpl.
    rewrite Hid2, lookup_insert_ne by done. rewrite Hcards2, Hcards1, Hp1.
    rewrite Hmem2.
    assert (p1 ≠ rb2).
    { intros ->. rewrite Hmem1, lookup_insert_eq in Hfresh2. done. }
    rewrite !lookup_insert_ne by done. rewrite Hmem1. by rewrite lookup_insert_eq.
  - by apply RollbackMove_none.
Qed.

(** C10.  For every state and every identity that is not in the card map,
    MoveCard signals ErrCardNotFound and returns the state it was given:
    the card map, the column index, the pagination state, the saved
    rollback card and the heap are the same. *)
Theorem MoveCard_not_found_unchanged σ itemID newOptionID :
  cards (st σ) !! itemID = None →
  MoveCard itemID newOptionID σ = Some (Some ErrCardNotFound, σ).
Proof. apply MoveCard_missing. Qed.

Lemma MoveCard_not_found_unchanged_witness :
  ∃ σ, movedStore = Some σ
       ∧ is_Some (rollbackCard (st σ))
       ∧ cards (st σ) !! "nonexistent" = None
       ∧ MoveCard "nonexistent" "opt_done" σ = Some (Some ErrCardNotFound, σ).
Proof.
  eexists. split; [vm_compute; reflexivity|].
  split; [vm_compute; eauto|].
  split; [vm_compute; reflexivity|].
  apply MoveCard_not_found_unchanged. vm_compute. reflexivity.
Defined.

(** C2 (the code departs from it).  A card with assignees, a body, a state,
    labels, an author and a creation date is moved and rolled back.  The
    card stored under its identity afterwards is the seven-field copy that
    MoveCard saved: identity, content type, title, url, repository, number
    and group value are those of the card before the move, the other six
    fields are empty, so the card is not the one before the move.  The
    column index is the one computed from the stored cards. *)
Theorem rollback_drops_uncopied_fields :
  ∃ σ σ1 σ2,
    fullStore = Some σ
    ∧ readCard σ "item_1" = Some fullCard
    ∧ MoveCard "item_1" "opt_done" σ = Some (None, σ1)
    ∧ RollbackMove σ1 = Some (None, σ2)
    ∧ readCard σ2 "item_1" = Some (rollbackCopy fullCard)
    ∧ Card.GroupOptionID <$> readCard σ2 "item_1" = Some "opt_todo"
    ∧ Card.Assignees <$> readCard σ2 "item_1" = Some []
    ∧ readCard σ2 "item_1" ≠ readCard σ "item_1"
    ∧ readColumns σ2 = bucketsOf (cardKeys σ2).
Proof.
  eexists _, _, _.
  split; [vm_compute; reflexivity|].
  split; [vm_compute; reflexivity|].
  split; [vm_compute; reflexivity|].
  split; [vm_compute; reflexivity|].
  split; [vm_compute; reflexivity|].
  split; [vm_compute; reflexivity|].
  split; [vm_compute; reflexivity|].
  split; [vm_compute; discriminate|].
  vm_compute. reflexivity.
Qed.

(** C3 (the code departs from it in the last clause).  Two moves of a card
    with assignees and one rollback.  The rollback installs the copy saved
    by the second move, so the group value is the one between the two
    moves, and a second rollback fails; but the installed card is the
    seven-field copy, not the card as it was before the second move. *)
Theorem rollback_after_two_moves_drops_fields :
  ∃ σ σ1 σ2 σ3,
    fullStore = Some σ
    ∧ MoveCard "item_1" "opt_inprogress" σ = Some (None, σ1)
    ∧ readCard σ1 "item_1" = Some (Card.set_GroupOptionID "opt_inprogress" fullCard)
    ∧ MoveCard "item_1" "opt_done" σ1 = Some (None, σ2)
    ∧ RollbackMove σ2 = Some (None, σ3)
    ∧ readCard σ3 "item_1"
      = Some (rollbackCopy (Card.set_GroupOptionID "opt_inprogress" fullCard))
    ∧ Card.GroupOptionID <$> readCard σ3 "item_1" = Some "opt_inprogress"
    ∧ readCard σ3 "item_1" ≠ readCard σ1 "item_1"
    ∧ RollbackMove σ3 = Some (Some (errors_New "no rollback state available"), σ3).
Proof.
  eexists _, _, _, _.
  split; [vm_compute; reflexivity|].
  split; [vm_compute; reflexivity|].
  split; [vm_compute; reflexivity|].
  split; [vm_compute; reflexivity|].
  split; [vm_compute; reflexivity|].
  split; [vm_compute; reflexivity|].
  split; [vm_compute; reflexivity|].
  split; [vm_compute; discriminate|].
  vm_compute. reflexivity.
Qed.

End moves.

(** ** The field heuristic and the validation of options *)

Section heuristic.

Lemma find_filter_first (P : FieldDef.t → Prop) `{∀ x, Decision (P x)}
    (Q : FieldDef.t → bool) (l : list FieldDef.t) f :
  List.find Q (filter P l) = Some f →
  ∃ before after,
    l = before ++ f :: after ∧ P f ∧ Q f = true
    ∧ Forall (λ g, ¬ (P g ∧ Q g = true)) before.
Proof.
  induction l as [|x l IH]; [done|]. rewrite filter_cons.
  destruct (decide (P x)) as [HP|HP].
  - simpl. destruct (Q x) eqn:HQ.
    + intros [= ->]. by exists [], l.
    + intros (b & a & -> & H1 & H2 & H3)%IH. exists (x :: b), a.
      split_and!; try done. constructor; [|done]. intros [_ ?]. congruence.
  - intros (b & a & -> & H1 & H2 & H3)%IH. exists (x :: b), a.
    split_and!; try done. constructor; [|done]. tauto.
Qed.

Lemma find_None_Forall (Q : FieldDef.t → bool) (l : list FieldDef.t) :
  List.find Q l = None ↔ Forall (λ g, Q g ≠ true) l.
Proof.
  induction l as [|x l IH]; simpl.
  - split; [constructor|done].
  - destruct (Q x) eqn:HQ.
    + split; [done|]. intros [? _]%Forall_cons. done.
    + rewrite IH, Forall_cons. split; [|tauto]. intros ?. split; [|done]. congruence.
Qed.

Lemma find_Some_Exists (Q : FieldDef.t → bool) (l : list FieldDef.t) f :
  List.find Q l = Some f → Exists (λ g, Q g = true) l.
Proof.
  intros [Hin HQ]%List.find_some. apply Exists_exists. exists f.
  split; [by apply list_elem_of_In|done].
Qed.

(** C4.  SelectGroupField follows the four rules in their order: no
    single-select field, a failure; else the first single-select field, in
    input order, whose name is "Status" up to case, and no candidates; else
    the only single-select field, and no candidates; else no field and all
    single-select fields as candidates.  For every input exactly one rule
    applies, and the result is the one of that rule. *)
Theorem SelectGroupField_rules (fields : list FieldDef.t) :
  ∃ r, fires fields r
       ∧ (∀ r', fires fields r' → r' = r)
       ∧ outcome fields r (SelectGroupField fields).
Proof.
  unfold SelectGroupField, fires, outcome.
  change (filter (λ f, FieldDef.Type_ f = FieldTypeSingleSelect) fields)
    with (filter isSingleSelect fields).
  set (subset := filter isSingleSelect fields).
  destruct (decide (length subset = 0%nat)) as [Hlen|Hlen].
  - apply length_zero_iff_nil in Hlen.
    exists RuleNoSelectableFields. split; [done|]. split; [|done].
    intros []; simpl; tauto.
  - assert (Hne : subset ≠ []) by (by intros ->).
    destruct (List.find _ subset) as [f|] eqn:Hfind.
    + exists RuleStatus.
      pose proof (find_Some_Exists _ _ _ Hfind) as Hex.
      split; [done|]. split.
      * intros []; simpl; tauto.
      * subst subset.
        apply find_filter_first in Hfind as (b & a & -> & H1 & H2 & H3). eauto 10.
    + apply find_None_Forall in Hfind.
      assert (Hnex : ¬ Exists isStatus subset).
      { rewrite <- Forall_Exists_neg. exact Hfind. }
      destruct (decide (length subset = 1%nat)) as [Hone|Hone].
      * exists RuleOnlyOne. split; [done|]. split.
        -- intros []; simpl; tauto.
        -- destruct subset as [|f [|]]; try done. eauto.
      * exists RuleCandidates. split; [done|]. split; [|done].
        intros []; simpl; tauto.
Qed.

(** The four examples of the specification. *)

Example SelectGroupField_status :
  SelectGroupField [plainField "Priority" FieldTypeSingleSelect;
                    plainField "Status" FieldTypeSingleSelect;
                    plainField "Team" FieldTypeSingleSelect]
  = (Some (plainField "Status" FieldTypeSingleSelect), [], None).
Proof. vm_compute. reflexivity. Qed.

Example SelectGroupField_single :
  SelectGroupField [plainField "Description" FieldTypeText;
                    plainField "Priority" FieldTypeSingleSelect;
                    plainField "Points" FieldTypeNumber]
  = (Some (plainField "Priority" FieldTypeSingleSelect), [], None).
Proof. vm_compute. reflexivity. Qed.

Example SelectGroupField_candidates :
  SelectGroupField [plainField "Priority" FieldTypeSingleSelect;
                    plainField "Team" FieldTypeSingleSelect;
                    plainField "Description" FieldTypeText]
  = (None, [plainField "Priority" FieldTypeSingleSelect;
            plainField "Team" FieldTypeSingleSelect], None).
Proof. vm_compute. reflexivity. Qed.

Example SelectGroupField_none :
  SelectGroupField [plainField "Description" FieldTypeText;
                    plainField "Points" FieldTypeNumber]
  = (None, [], Some (errors_New "no SINGLE_SELECT fields found in project")).
Proof. vm_compute. reflexivity. Qed.

Example EqualFold_cases :
  EqualFold "STATUS" "Status" = true ∧ EqualFold "status" "Status" = true
  ∧ EqualFold "StAtUs" "Status" = true ∧ EqualFold "Statuses" "Status" = false
  ∧ EqualFold "Stat" "Status" = false.
Proof. vm_compute. done. Qed.

(** C5.  ValidateOption never changes the state.  Without an active field
    it signals ErrNoGroupField; with one it accepts the empty string, and
    accepts any other value exactly when it is the identity of an option of
    the active field; every other value is rejected with an error that wraps
    ErrInvalidOption. *)
Theorem ValidateOption_outcome (σ : State) (value : string) :
  ∃ e, ValidateOption value σ = Some (e, σ) ∧ validateOutcome σ value e.
Proof.
  unfold ValidateOption, validateOutcome, bind, getStore.
  destruct (groupField (st σ)) as [f|]; [|by eexists].
  destruct (decide (value = "")) as [Hv|Hv]; [by eexists|].
  destruct (existsb _ (FieldDef.Options f)) eqn:Hex.
  - eexists. split; [done|]. split; [done|]. intros _. split; [|done].
    split; [|done]. intros _.
    apply existsb_exists in Hex as (o & Hin & Ho).
    exists o. split; [by apply list_elem_of_In|]. by apply bool_decide_eq_true in Ho.
  - eexists. split; [done|]. split; [done|]. intros _. split.
    + split; [done|]. intros (o & Hin & Ho).
      assert (existsb (λ o, bool_decide (Option.ID o = value)) (FieldDef.Options f) = true);
        [|congruence].
      apply existsb_exists. exists o. split; [by apply list_elem_of_In|].
      by apply bool_decide_eq_true.
    + intros _. split; reflexivity.
Qed.

End heuristic.

(** ** What the accessors hand out *)

Section aliasing.

Lemma callerWrites_heapSub fp σ σ1 σ2 :
  heapSub (mem σ) (mem σ1) →
  callerWrites fp σ1 σ2 →
  (∀ l, l ∈ fpCards fp → cardMem (mem σ) !! l = None) →
  (∀ l, l ∈ fpSlices fp → sliceMem (mem σ) !! l = None) →
  (∀ l, l ∈ fpCardSlices fp → cardSliceMem (mem σ) !! l = None) →
  (∀ l, l ∈ fpMaps fp → mapMem (mem σ) !! l = None) →
  heapSub (mem σ) (mem σ2).
Proof.
  intros (S1 & S2 & S3 & S4) (_ & K1 & K2 & K3 & K4) F1 F2 F3 F4.
  split_and!; apply map_subseteq_spec; intros l v Hl.
  - apply K1; [|by eapply lookup_weaken]. intros Hin. rewrite F1 in Hl; done.
  - apply K2; [|by eapply lookup_weaken]. intros Hin. rewrite F2 in Hl; done.
  - apply K3; [|by eapply lookup_weaken]. intros Hin. rewrite F3 in Hl; done.
  - apply K4; [|by eapply lookup_weaken]. intros Hin. rewrite F4 in Hl; done.
Qed.

Lemma GetColumns_independent σ r e σ1 σ2 :
  wf σ →
  GetColumns σ = Some ((Some r, e), σ1) →
  callerWrites (columnsFootprint (mem σ1) r) σ1 σ2 →
  sameReads σ σ2.
Proof.
  intros Hwf Hrun Hcw. pose proof Hwf as (_ & _ & Hcol).
  destruct (GetColumns_inv σ r e σ1 Hcol Hrun) as (_ & Hcop & _).
  destruct Hcop as [Hst Hsub _ Hfresh (res & Hres & Hsl) _].
  apply sameReads_frame; [done| |].
  - destruct Hcw as (-> & _). done.
  - eapply callerWrites_heapSub; [exact Hsub|exact Hcw|..];
      unfold columnsFootprint; simpl.
    + by intros l ?%elem_of_empty.
    + rewrite Hres. intros l Hl. apply elem_of_list_to_set in Hl.
      apply list_elem_of_fmap in Hl as ([k s] & -> & Hk%elem_of_map_to_list).
      simpl. by destruct (Hsl _ _ Hk).
    + by intros l ?%elem_of_empty.
    + by intros l ->%elem_of_singleton.
Qed.

Lemma GetColumnCardIDs_independent σ optionID r σ1 σ2 :
  wf σ →
  GetColumnCardIDs optionID σ = Some (r, σ1) →
  callerWrites (sliceFootprint r) σ1 σ2 →
  sameReads σ σ2.
Proof.
  intros Hwf Hrun Hcw. pose proof Hwf as (_ & _ & Hcol).
  destruct (GetColumnCardIDs_run σ optionID Hcol)
    as (r' & σ1' & Hrun' & Hst & Hsub & Hfresh & _).
  rewrite Hrun' in Hrun. injection Hrun as -> ->.
  apply sameReads_frame; [done| |].
  - destruct Hcw as (-> & _). done.
  - eapply callerWrites_heapSub; [exact Hsub|exact Hcw|..];
      unfold sliceFootprint; simpl.
    + by intros l ?%elem_of_empty.
    + by intros l ->%elem_of_singleton.
    + by intros l ?%elem_of_empty.
    + by intros l ?%elem_of_empty.
Qed.

Lemma GetAllCards_slice_independent σ r σ1 σ2 :
  wf σ →
  GetAllCards σ = Some (r, σ1) →
  callerWrites (cardSliceOnlyFootprint r) σ1 σ2 →
  sameReads σ σ2.
Proof.
  intros Hwf Hrun Hcw.
  destruct (GetAllCards_run σ) as (r' & σ1' & Hrun' & Hst & Hsub & _ & Hfresh & _).
  rewrite Hrun' in Hrun. injection Hrun as -> ->.
  apply sameReads_frame; [done| |].
  - destruct Hcw as (-> & _). done.
  - eapply callerWrites_heapSub; [exact Hsub|exact Hcw|..];
      unfold cardSliceOnlyFootprint; simpl.
    + by intros l ?%elem_of_empty.
    + by intros l ?%elem_of_empty.
    + by intros l ->%elem_of_singleton.
    + by intros l ?%elem_of_empty.
Qed.

(** The elements of the slice that [GetAllCards] returns are the card
    pointers of the store. *)
Lemma GetAllCards_aliases σ r σ1 :
  GetAllCards σ = Some (r, σ1) →
  ∀ itemID p, cards (st σ) !! itemID = Some p →
    p ∈ default [] (cardSliceMem (mem σ1) !! r).
Proof.
  intros Hrun itemID p Hp.
  destruct (GetAllCards_run σ) as (r' & σ1' & Hrun' & _ & _ & _ & _ & Hr).
  rewrite Hrun' in Hrun. injection Hrun as -> ->. rewrite Hr. simpl.
  apply list_elem_of_fmap. exists (itemID, p). split; [done|].
  by apply elem_of_map_to_list.
Qed.

(** C6 (as amended).  In every state whose pointers are valid, GetColumns
    and GetColumnCardIDs return structures of their own (a new map with new
    slices, a new slice), and GetAllCards returns a new slice: whatever the
    caller writes into the returned map, its slices, or the returned slice
    of pointers, every later read of the store gives the same result.  The
    cards behind the pointers that GetAllCards returns are the store's own
    cards and are not covered. *)
Theorem accessors_return_copies σ : wf σ → resultsAreCopies σ.
Proof.
  intros Hwf. split; [|split].
  - intros r e σ1 σ2. by apply GetColumns_independent.
  - intros k r σ1 σ2. by apply GetColumnCardIDs_independent.
  - intros r σ1 σ2. by apply GetAllCards_slice_independent.
Qed.

Lemma testState_wf : wf testState.
Proof. apply (bool_decide_unpack (wf testState)). vm_compute. exact I. Qed.

Lemma accessors_return_copies_witness :
  wf testState ∧ resultsAreCopies testState.
Proof.
  split; [apply testState_wf|]. apply (accessors_return_copies testState).
  apply testState_wf.
Defined.

(** A write through a pointer of the footprint is a write of the
    caller. *)
Lemma writeTitle_callerWrites fp p title σ σ' :
  writeTitle p title σ = Some (tt, σ') →
  p ∈ fpCards fp →
  callerWrites fp σ σ'.
Proof.
  unfold writeTitle, bind, loadCard, storeCard. intros Hrun Hp.
  destruct (cardMem (mem σ) !! p) as [c|] eqn:Hc; [|done].
  rewrite Hc in Hrun. injection Hrun as <-.
  split; [done|]. split; [|split_and!; by intros l v _ Hv].
  intros l v Hl Hv. heap_simpl. rewrite lookup_insert_ne; [done|].
  by intros ->.
Qed.

Lemma testState_reachable : reachable testState.
Proof.
  eapply (runOps_reachable (loadOps 4) (New (heapOfCards createTestCards)));
    [apply reachable_New|]. vm_compute. reflexivity.
Qed.

(** C6 as stated fails for GetAllCards: a write through one of the returned
    pointers changes what GetCard shows afterwards. *)
Lemma GetAllCards_counterexample :
  wf testState ∧ ¬ allCardsIndependent testState.
Proof.
  split; [apply reachable_wf_indexed, testState_reachable|].
  intros H.
  assert (Hget : GetAllCards testState = Some (afterGetAllCards.1, afterGetAllCards.2))
    by (vm_compute; reflexivity).
  assert (Hwrite : writeTitle 1%positive "scribbled" afterGetAllCards.2
                   = Some (tt, scribbled)) by (vm_compute; reflexivity).
  assert (Hin : 1%positive ∈ fpCards (cardSliceFootprint (mem afterGetAllCards.2)
                                        afterGetAllCards.1)).
  { unfold cardSliceFootprint. simpl. apply elem_of_list_to_set.
    eapply (GetAllCards_aliases testState _ _ Hget "item_1").
    vm_compute. reflexivity. }
  pose proof (H _ _ scribbled Hget
                (writeTitle_callerWrites _ _ _ _ _ Hwrite Hin)) as Hreads.
  destruct Hreads as (_ & _ & _ & _ & _ & Hcard & _).
  specialize (Hcard "item_1"). vm_compute in Hcard. discriminate.
Qed.

End aliasing.

(** ** Pagination *)

Section pagination.

Lemma heapSub_refl h : heapSub h h.
Proof. by split_and!. Qed.

Lemma heapSub_trans h1 h2 h3 : heapSub h1 h2 → heapSub h2 h3 → heapSub h1 h3.
Proof.
  intros (A1 & A2 & A3 & A4) (B1 & B2 & B3 & B4). split_and!; by etrans.
Qed.

Lemma heapSub_wf_indexed σ σ' :
  wf σ → indexed σ → st σ' = st σ → heapSub (mem σ) (mem σ') →
  wf σ' ∧ indexed σ'.
Proof.
  intros (Hc & Hr & Hcol) Hi Hst Hsub.
  destruct (heapSub_columns σ σ' Hcol Hst Hsub) as [Hcol' Hread].
  pose proof Hsub as (Hcards & _).
  assert (Hkeep : ∀ p, is_Some (cardMem (mem σ) !! p) →
            cardMem (mem σ') !! p = cardMem (mem σ) !! p).
  { intros p [c Hp]. rewrite Hp. by eapply lookup_weaken. }
  split; [split_and!|].
  - unfold cardsOk. rewrite Hst. intros k p Hp. rewrite Hkeep; by apply (Hc k p).
  - unfold rollbackOk in *. rewrite Hst. destruct (rollbackCard (st σ)); [|done].
    by rewrite Hkeep.
  - done.
  - unfold indexed, cardKeys. rewrite Hread, Hi, Hst. f_equal.
    apply keysOf_ext, Forall_forall.
    intros [k p] Hkp%elem_of_map_to_list. simpl. symmetry. apply Hkeep.
    by apply (Hc k p).
Qed.

Lemma cardPtrs_run cs : ∀ σ,
  ∃ ps σ',
    cardPtrs cs σ = Some (ps, σ')
    ∧ st σ' = st σ
    ∧ heapSub (mem σ) (mem σ')
    ∧ Forall2 (λ p c, cardMem (mem σ') !! p = Some c) ps cs
    ∧ Forall (λ p, cardMem (mem σ) !! p = None) ps.
Proof.
  induction cs as [|c cs IH]; intros σ.
  - exists [], σ. split_and!; first [done|apply heapSub_refl].
  - cbn [cardPtrs]. unfold bind at 1. unfold allocCard.
    set (p := fresh (dom (cardMem (mem σ)))).
    set (σ1 := mkState _ _).
    assert (Hp : cardMem (mem σ) !! p = None) by apply fresh_card_lookup.
    assert (Hsub1 : heapSub (mem σ) (mem σ1)).
    { split_and!; try done. simpl. by apply insert_subseteq. }
    destruct (IH σ1) as (ps & σ' & Hrun & Hst & Hsub & Hall & Hfresh).
    exists (p :: ps), σ'. unfold bind. rewrite Hrun. split_and!; try done.
    + by eapply heapSub_trans.
    + constructor; [|done]. destruct Hsub as (Hsub & _).
      eapply lookup_weaken; [|exact Hsub]. simpl. by rewrite lookup_insert_eq.
    + constructor; [done|]. eapply Forall_impl; [exact Hfresh|].
      intros q Hq. simpl in Hq. destruct (cardMem (mem σ) !! q) eqn:Hq'; [|done].
      destruct Hsub1 as (Hsub1 & _). eapply lookup_weaken in Hq'; [|exact Hsub1].
      simpl in Hq'. congruence.
Qed.

(** The card map after an upsert of pointers [ps] to the cards [cs]. *)
Lemma upsertAll_spec (h : gmap loc Card.t) ps cs : ∀ m,
  Forall2 (λ p c, h !! p = Some c) ps cs →
  (∀ k, k ∉ Card.ItemID <$> cs → upsertAll h ps m !! k = m !! k)
  ∧ (NoDup (Card.ItemID <$> cs) →
     ∀ c, c ∈ cs → ∃ p, upsertAll h ps m !! Card.ItemID c = Some p ∧ h !! p = Some c)
  ∧ dom (upsertAll h ps m) = dom m ∪ list_to_set (Card.ItemID <$> cs).
Proof.
  intros m H. revert m. induction H as [|p c ps cs Hp _ IH]; intros m.
  - simpl. split_and!; try done.
    + by intros _ c ?%elem_of_nil.
    + set_solver.
  - simpl. rewrite Hp. destruct (IH (<[Card.ItemID c := p]> m)) as (I1 & I2 & I3).
    split_and!.
    + intros k Hk. apply not_elem_of_cons in Hk as [Hne Hk].
      rewrite I1 by done. by rewrite lookup_insert_ne.
    + intros Hnd c' Hc'. apply NoDup_cons in Hnd as [Hnotin Hnd].
      apply elem_of_cons in Hc' as [->|Hc'].
      * exists p. rewrite I1 by done. by rewrite lookup_insert_eq.
      * by apply I2.
    + rewrite I3, dom_insert_L. set_solver.
Qed.

(** One page: its cards become objects and are upserted. *)
Lemma page_round cs σ :
  wf σ →
  ∃ ps σa σ',
    cardPtrs cs σ = Some (ps, σa)
    ∧ UpsertCards ps σa = Some (tt, σ')
    ∧ wf σ' ∧ indexed σ'
    ∧ project (st σ') = project (st σ) ∧ groupField (st σ') = groupField (st σ)
    ∧ cursor (st σ') = cursor (st σ) ∧ hasNextPage (st σ') = hasNextPage (st σ)
    ∧ (∀ k, k ∉ Card.ItemID <$> cs → readCard σ' k = readCard σ k)
    ∧ (NoDup (Card.ItemID <$> cs) → inStore σ' cs)
    ∧ dom (cards (st σ')) = dom (cards (st σ)) ∪ list_to_set (Card.ItemID <$> cs).
Proof.
  intros (Hc & Hr & Hcol).
  destruct (cardPtrs_run cs σ) as (ps & σa & Hptrs & Hst & Hsub & Hall & Hfresh).
  assert (Hkeep : ∀ p, is_Some (cardMem (mem σ) !! p) →
            cardMem (mem σa) !! p = cardMem (mem σ) !! p).
  { intros p [c Hp]. rewrite Hp. destruct Hsub as (Hsub & _). by eapply lookup_weaken. }
  assert (Hca : cardsOk σa).
  { unfold cardsOk. rewrite Hst. intros k p Hp. rewrite Hkeep; by apply (Hc k p). }
  assert (Hra : rollbackOk σa).
  { unfold rollbackOk in *. rewrite Hst. destruct (rollbackCard (st σ)); [|done].
    by rewrite Hkeep. }
  assert (Hps : Forall (λ p, is_Some (cardMem (mem σa) !! p)) ps).
  { clear -Hall. induction Hall; constructor; eauto. }
  destruct (UpsertCards_run ps σa Hca Hps) as (σ' & Hrun & Hreb).
  destruct (rebuilt_wf_indexed _ _ Hreb) as [Hwf' Hi'].
  { unfold cardsOk. heap_simpl. by apply upsertAll_cardsOk. }
  { done. }
  destruct (upsertAll_spec (cardMem (mem σa)) ps cs (cards (st σa)) Hall)
    as (U1 & U2 & U3).
  destruct Hreb as [H1 _ _ _ H5 _ _]. heap_simpl.
  exists ps, σa, σ'. split_and!; try done.
  - by rewrite H5, Hst.
  - by rewrite H5, Hst.
  - by rewrite H5, Hst.
  - by rewrite H5, Hst.
  - intros k Hk. unfold readCard. rewrite H5, H1. heap_simpl.
    rewrite U1 by done. rewrite Hst.
    destruct (cards (st σ) !! k) as [p|] eqn:Hp; [|done].
    apply Hkeep. by apply (Hc k p).
  - intros Hnd c Hin. destruct (U2 Hnd c Hin) as (p & Hp & Hpc).
    unfold readCard. rewrite H5, H1. heap_simpl. by rewrite Hp.
  - rewrite H5. heap_simpl. by rewrite U3, Hst.
Qed.

Lemma continues_true pg :
  continues pg →
  pageHasMore pg && negb (bool_decide (pageCursor pg = "")) = true.
Proof.
  intros [-> Hc]. simpl. by rewrite bool_decide_eq_false_2.
Qed.

Lemma continues_false pg :
  ¬ continues pg →
  pageHasMore pg && negb (bool_decide (pageCursor pg = "")) = false.
Proof.
  intros Hn. unfold continues in Hn. destruct (pageHasMore pg); [|done]. simpl.
  destruct (decide (pageCursor pg = "")) as [->|Hne]; [done|]. tauto.
Qed.

Lemma loadNextPage_page cursor0 pg net σ :
  is_Some (project (st σ)) → is_Some (groupField (st σ)) →
  loadNextPage cursor0 (pageResponse pg :: net) σ
  = match cardPtrs (pageCards pg) σ with
    | Some (ps, σa) =>
        Some ((Some (pageLoadedMsg ps (pageCursor pg) (pageHasMore pg) None), net), σa)
    | None => None
    end.
Proof.
  intros [pr Hpr] [gf Hgf]. unfold loadNextPage, bind, getStore.
  rewrite Hpr, Hgf. simpl. by destruct (cardPtrs (pageCards pg) σ) as [[]|].
Qed.

Lemma BoardUpdate_page m ps next more σ :
  BoardUpdate m (pageLoadedMsg ps next more None) σ
  = match UpsertCards ps σ with
    | Some (_, σ') =>
        Some ((if more && negb (bool_decide (next = ""))
               then (set_nextCursor next (set_loadingMore true m), cmdLoadNextPage next)
               else (set_nextCursor "" (set_loadingMore false m), cmdNil)), σ')
    | None => None
    end.
Proof.
  unfold BoardUpdate, bind. destruct (UpsertCards ps σ) as [[[] σ']|]; [|done].
  by destruct (more && negb (bool_decide (next = ""))).
Qed.

Lemma deliveredCards_cons pg pgs :
  deliveredCards (pg :: pgs) = pageCards pg ++ deliveredCards pgs.
Proof. reflexivity. Qed.

Lemma deliveredCards_single pg : deliveredCards [pg] = pageCards pg.
Proof. unfold deliveredCards. simpl. by rewrite app_nil_r. Qed.

Lemma background_run pre : ∀ σ m cursor0 fuel term rest,
  wf σ →
  is_Some (project (st σ)) → is_Some (groupField (st σ)) →
  Forall continues pre → ¬ continues term →
  NoDup (Card.ItemID <$> deliveredCards (pre ++ [term])) →
  (length pre < fuel)%nat →
  ∃ m' σ',
    backgroundLoad fuel m cursor0 ((pageResponse <$> (pre ++ [term])) ++ rest) σ
    = Some ((PagingStopped, m', rest), σ')
    ∧ nextCursor m' = "" ∧ loadingMore m' = false
    ∧ cursor (st σ') = cursor (st σ) ∧ hasNextPage (st σ') = hasNextPage (st σ)
    ∧ inStore σ' (deliveredCards (pre ++ [term]))
    ∧ (∀ k, k ∉ Card.ItemID <$> deliveredCards (pre ++ [term]) →
         readCard σ' k = readCard σ k)
    ∧ dom (cards (st σ'))
      = dom (cards (st σ))
        ∪ list_to_set (Card.ItemID <$> deliveredCards (pre ++ [term]))
    ∧ wf σ' ∧ indexed σ'.
Proof.
  induction pre as [|pg pre IH]; intros σ m cursor0 fuel term rest
    Hwf Hpr Hgf Hpre Hterm Hnd Hfuel.
  - destruct fuel as [|fuel]; [simpl in Hfuel; lia|].
    destruct (page_round (pageCards term) σ Hwf)
      as (ps & σa & σ' & Hptrs & Hups & Hwf' & Hi' & E1 & E2 & E3 & E4 & Hframe & Hin & Hdom).
    simpl app in *. rewrite deliveredCards_single in *.
    exists (set_nextCursor "" (set_loadingMore false m)), σ'.
    split_and!; try done.
    + cbn [backgroundLoad fmap list_fmap app]. unfold bind at 1.
      rewrite loadNextPage_page, Hptrs by done. unfold bind.
      rewrite BoardUpdate_page, Hups, continues_false by done. done.
    + by apply Hin.
  - destruct fuel as [|fuel]; [simpl in Hfuel; lia|].
    apply Forall_cons in Hpre as [Hpg Hpre].
    change ((pg :: pre) ++ [term]) with (pg :: (pre ++ [term])) in *.
    rewrite deliveredCards_cons, fmap_app in Hnd.
    apply NoDup_app in Hnd as (Hnd1 & Hdisj & Hnd2).
    destruct (page_round (pageCards pg) σ Hwf)
      as (ps & σa & σ' & Hptrs & Hups & Hwf' & Hi' & E1 & E2 & E3 & E4 & Hframe & Hin & Hdom).
    destruct (IH σ' (set_nextCursor (pageCursor pg) (set_loadingMore true m))
                (pageCursor pg) fuel term rest)
      as (m'' & σ'' & Hrun & F1 & F2 & F3 & F4 & Hin' & Hframe' & Hdom' & Hwf'' & Hi'');
      try done.
    { by rewrite E1. }
    { by rewrite E2. }
    { simpl in Hfuel. lia. }
    exists m'', σ''. split_and!; try done.
    + cbn [backgroundLoad fmap list_fmap app]. unfold bind at 1.
      rewrite loadNextPage_page, Hptrs by done. unfold bind.
      rewrite BoardUpdate_page, Hups, continues_true by done. exact Hrun.
    + by rewrite F3.
    + by rewrite F4.
    + intros c. rewrite deliveredCards_cons, elem_of_app. intros [Hc|Hc].
      * rewrite Hframe'; [by apply Hin|].
        apply Hdisj. apply list_elem_of_fmap. by exists c.
      * by apply Hin'.
    + intros k. rewrite deliveredCards_cons, fmap_app, not_elem_of_app.
      intros [Hk1 Hk2]. rewrite Hframe' by done. by apply Hframe.
    + rewrite Hdom', Hdom, deliveredCards_cons, fmap_app, list_to_set_app_L.
      by rewrite (assoc_L (∪)).
Qed.

Lemma length_omap_Some {A B} (f : A → option B) (l : list A) :
  Forall (λ x, is_Some (f x)) l → length (omap f l) = length l.
Proof.
  induction 1 as [|x l [y Hy] _ IH]; [done|]. csimpl. rewrite Hy. simpl. by rewrite IH.
Qed.

Lemma obsGetAllCards_length σ :
  cardsOk σ → length <$> obsGetAllCards σ = Some (size (cards (st σ))).
Proof.
  intros Hc. rewrite obsGetAllCards_eq. simpl. f_equal.
  rewrite length_omap_Some.
  - by rewrite length_fmap, length_map_to_list.
  - apply Forall_forall. intros p Hp.
    apply list_elem_of_fmap in Hp as ([k q] & -> & Hkq%elem_of_map_to_list).
    exact (Hc _ _ Hkq).
Qed.

Lemma background_spec pre σ m cursor0 fuel term rest :
  wf σ →
  is_Some (project (st σ)) → is_Some (groupField (st σ)) →
  Forall continues pre → ¬ continues term →
  NoDup (Card.ItemID <$> deliveredCards (pre ++ [term])) →
  (length pre < fuel)%nat →
  backgroundLoaded fuel m cursor0 (pre ++ [term]) rest σ.
Proof.
  intros Hwf Hpr Hgf Hpre Hterm Hnd Hfuel.
  destruct (background_run pre σ m cursor0 fuel term rest Hwf Hpr Hgf Hpre Hterm Hnd Hfuel)
    as (m' & σ' & Hrun & F1 & F2 & F3 & F4 & Hin & Hframe & Hdom & Hwf' & Hi').
  exists m', σ'. split_and!; try done.
  intros Hempty. rewrite obsGetAllCards_length by (by destruct Hwf' as (? & _)).
  f_equal. rewrite <- size_dom, Hdom, Hempty, dom_empty_L, (left_id_L ∅ (∪)).
  rewrite size_list_to_set by done. by rewrite length_fmap.
Qed.

Lemma loadAllLoop_spec pre : ∀ σ cursor0 acc term rest,
  Forall continues pre → ¬ continues term →
  ∃ ps σ',
    loadAllLoop ((pageResponse <$> (pre ++ [term])) ++ rest) cursor0 acc σ
    = Some ((LoopDone (acc ++ ps), rest), σ')
    ∧ st σ' = st σ
    ∧ heapSub (mem σ) (mem σ')
    ∧ Forall2 (λ p c, cardMem (mem σ') !! p = Some c) ps (deliveredCards (pre ++ [term])).
Proof.
  induction pre as [|pg pre IH]; intros σ cursor0 acc term rest Hpre Hterm.
  - destruct (cardPtrs_run (pageCards term) σ) as (ps & σ' & Hptrs & Hst & Hsub & Hall & _).
    exists ps, σ'. simpl app. rewrite deliveredCards_single. split_and!; try done.
    cbn [loadAllLoop fmap list_fmap app pageResponse]. unfold bind. rewrite Hptrs.
    pose proof (continues_false term Hterm) as Hb.
    destruct (pageHasMore term); simpl in *; [|done].
    apply negb_false_iff in Hb. by rewrite Hb.
  - apply Forall_cons in Hpre as [Hpg Hpre].
    change ((pg :: pre) ++ [term]) with (pg :: (pre ++ [term])).
    destruct (cardPtrs_run (pageCards pg) σ) as (ps & σa & Hptrs & Hst & Hsub & Hall & _).
    destruct (IH σa (pageCursor pg) (acc ++ ps) term rest Hpre Hterm)
      as (ps' & σ' & Hrun & Hst' & Hsub' & Hall').
    exists (ps ++ ps'), σ'. split_and!.
    + cbn [loadAllLoop fmap list_fmap app pageResponse]. unfold bind. rewrite Hptrs.
      pose proof (continues_true pg Hpg) as Hb.
      destruct (pageHasMore pg); simpl in *; [|done].
      apply negb_true_iff in Hb. rewrite Hb. rewrite Hrun. by rewrite (assoc_L (++)).
    + by rewrite Hst'.
    + by eapply heapSub_trans.
    + rewrite deliveredCards_cons. apply Forall2_app; [|done].
      eapply Forall2_impl; [exact Hall|]. intros p c Hp. simpl in Hp.
      destruct Hsub' as (Hsub' & _). by eapply lookup_weaken.
Qed.

Lemma reload_spec pre σ m term rest :
  is_Some (project (st σ)) → is_Some (groupField (st σ)) →
  Forall continues pre → ¬ continues term →
  NoDup (Card.ItemID <$> deliveredCards (pre ++ [term])) →
  reloaded m (pre ++ [term]) rest σ.
Proof.
  intros [pr Hpr] [gf Hgf] Hpre Hterm Hnd. unfold reloaded.
  pose proof (Clear_run σ) as Hclear. set (σc := mkState _ _) in Hclear.
  destruct (Clear_wf_indexed σ σc Hclear) as [Hwfc Hic].
  destruct (loadAllLoop_spec pre σc "" [] term rest Hpre Hterm)
    as (ps & σl & Hloop & Hstl & Hsubl & Hall).
  destruct (heapSub_wf_indexed σc σl Hwfc Hic Hstl Hsubl) as [(Hcl & Hrl & Hcoll) Hil].
  assert (Hps : Forall (λ p, is_Some (cardMem (mem σl) !! p)) ps).
  { clear -Hall. induction Hall; constructor; eauto. }
  destruct (UpsertCards_run ps σl Hcl Hps) as (σu & Hups & Hreb).
  destruct (rebuilt_wf_indexed _ _ Hreb) as [Hwfu Hiu].
  { unfold cardsOk. heap_simpl. by apply upsertAll_cardsOk. }
  { done. }
  destruct (upsertAll_spec (cardMem (mem σl)) ps _ (cards (st σl)) Hall)
    as (U1 & U2 & U3).
  destruct Hreb as [H1 _ _ _ H5 _ _]. heap_simpl.
  assert (Hcardsl : cards (st σl) = ∅) by (by rewrite Hstl).
  set (σ' := mkState (mem σu) (set_hasNextPage false (set_cursor "" (st σu)))).
  assert (Hcards' : cards (st σ') = upsertAll (cardMem (mem σl)) ps ∅).
  { subst σ'. heap_simpl. rewrite H5. heap_simpl. by rewrite Hcardsl. }
  assert (Hdom : dom (cards (st σ'))
                 = list_to_set (Card.ItemID <$> deliveredCards (pre ++ [term]))).
  { rewrite Hcards', <- Hcardsl, U3, Hcardsl, dom_empty_L. by rewrite (left_id_L ∅ (∪)). }
  exists (set_loadingMore false (set_loading false (set_loading true m))), σ'.
  split_and!; try done.
  - unfold reloadAll, loadAllItems, bind, getStore. rewrite Hpr, Hgf.
    rewrite Hclear. simpl app in Hloop. rewrite Hloop. rewrite Hups. reflexivity.
  - intros c Hc. destruct (U2 Hnd c Hc) as (p & Hp & Hpc).
    unfold readCard. rewrite Hcards'. rewrite Hcardsl in Hp. rewrite Hp.
    subst σ'. heap_simpl. by rewrite H1.
  - rewrite obsGetAllCards_length; [|by destruct Hwfu as (? & _)].
    f_equal. rewrite <- size_dom, Hdom, size_list_to_set by done.
    by rewrite length_fmap.
Qed.

(** C7.  Both loading paths ask for a further page only after a page whose
    more-pages flag is set and whose cursor is not empty.  So when the
    network answers with pages that all continue, then a page that does not,
    both paths stop after that page and leave the later answers untouched.
    The cards of the delivered pages, with distinct identities, are all in
    the store under their identities (a page may be empty); the reload holds
    exactly these cards, and GetAllCards returns as many entries as cards
    were delivered.  At the end the background path has no next cursor and
    is not loading, and the store's pagination state is as before; after the
    reload the store's pagination state has an empty cursor and no more
    pages. *)
Theorem pagination_terminates (pre : list Page) (term : Page) (rest : list Response)
    (σ : State) (m : BoardModel) (cursor0 : string) (fuel : nat) :
  wf σ →
  is_Some (project (st σ)) → is_Some (groupField (st σ)) →
  Forall continues pre → ¬ continues term →
  NoDup (Card.ItemID <$> deliveredCards (pre ++ [term])) →
  (length pre < fuel)%nat →
  backgroundLoaded fuel m cursor0 (pre ++ [term]) rest σ
  ∧ reloaded m (pre ++ [term]) rest σ.
Proof.
  intros. split; [by apply background_spec|by apply reload_spec].
Qed.

Lemma pagination_terminates_witness :
  backgroundLoaded 2 newBoard "" [page60; page40] [] boardState
  ∧ reloaded newBoard [page60; page40] [] boardState.
Proof.
  apply (pagination_terminates [page60] page40 [] boardState newBoard "" 2).
  - apply (bool_decide_unpack (wf boardState)). vm_compute. exact I.
  - vm_compute. eauto.
  - vm_compute. eauto.
  - constructor; [|constructor]. split; [reflexivity|discriminate].
  - intros [Hmore _]. discriminate.
  - apply (bool_decide_unpack (NoDup _)). vm_compute. exact I.
  - simpl. lia.
Defined.

(** The scenario, run: both pages are handled, the store holds 100 cards and
    neither the board nor the store has a cursor left. *)
Example two_pages_background :
  ∃ m' σ',
    backgroundLoad 2 newBoard "" [pageResponse page60; pageResponse page40] boardState
    = Some ((PagingStopped, m', []), σ')
    ∧ length <$> obsGetAllCards σ' = Some 100%nat
    ∧ obsValue GetPagination σ' = Some ("", false)
    ∧ nextCursor m' = "" ∧ loadingMore m' = false.
Proof.
  eexists _, _. split; [vm_compute; reflexivity|]. vm_compute. done.
Qed.

Example two_pages_reload :
  ∃ m' σ',
    reloadAll newBoard [pageResponse page60; pageResponse page40] boardState
    = Some ((Some m', []), σ')
    ∧ length <$> obsGetAllCards σ' = Some 100%nat
    ∧ obsValue GetPagination σ' = Some ("", false)
    ∧ loading m' = false.
Proof.
  eexists _, _. split; [vm_compute; reflexivity|]. vm_compute. done.
Qed.

(** A page that continues makes the background path ask again: with no
    answer left it waits. *)
Example continuing_page_waits :
  ∃ m' σ',
    backgroundLoad 2 newBoard "" [pageResponse page60] boardState
    = Some ((PagingWaiting, m', []), σ')
    ∧ nextCursor m' = "cursor_60" ∧ loadingMore m' = true.
Proof.
  eexists _, _. split; [vm_compute; reflexivity|]. done.
Qed.

End pagination.

(** ** The controllers *)

Section controllers.

Lemma BoardUpdate_moveError m e σ :
  BoardUpdate m (moveErrorMsg e) σ
  = match RollbackMove σ with
    | Some (_, σ') =>
        Some ((set_errorToast ("Move failed: " +:+ Error e) m, cmdNil), σ')
    | None => None
    end.
Proof. unfold BoardUpdate, bind. by destruct (RollbackMove σ) as [[]|]. Qed.

(** An optimistic move whose remote update fails.  The board moves the
    selected card in the store, the closure reports the failure, and the
    handler calls the store's rollback and sets the toast: afterwards the
    card stored under the identity is the seven-field copy of the card
    before the move (so its group value is the old one), nothing is left
    to roll back, and the toast names the failed move and the cause. *)
Lemma failed_move_rolled_back m σ p c targetColID cause :
  wf σ →
  is_Some (project (st σ)) → is_Some (groupField (st σ)) →
  cards (st σ) !! Card.ItemID c = Some p →
  cardMem (mem σ) !! p = Some c →
  let newOptionID := if decide (targetColID = NoStatusKey) then "" else targetColID in
  ∃ σ1 σ2,
    moveCardToColumn (Some p) targetColID σ = Some (cmdUpdateItemField p newOptionID, σ1)
    ∧ readCard σ1 (Card.ItemID c) = Some (Card.set_GroupOptionID newOptionID c)
    ∧ updateItemField (Some cause) σ1 = Some (moveErrorMsg cause, σ1)
    ∧ BoardUpdate m (moveErrorMsg cause) σ1
      = Some ((set_errorToast ("Move failed: " +:+ Error cause) m, cmdNil), σ2)
    ∧ RollbackMove σ1 = Some (None, σ2)
    ∧ readCard σ2 (Card.ItemID c) = Some (rollbackCopy c)
    ∧ rollbackCard (st σ2) = None
    ∧ indexed σ2.
Proof.
  intros Hwf [pr Hpr] [gf Hgf] Hp Hpc newOptionID.
  destruct (MoveCard_effect (Card.ItemID c) newOptionID σ p c Hwf Hp Hpc)
    as (σ1 & rb & Hrun1 & Hwf1 & Hi1 & Hcards1 & Hrb1 & Hfresh & Hmem1 & Hread1).
  destruct (MoveCard_RollbackMove (Card.ItemID c) newOptionID σ p c Hwf Hp Hpc eq_refl)
    as (σ1' & σ2 & Hrun1' & Hrun2 & Hread2 & Hi2 & Hrb2).
  rewrite Hrun1 in Hrun1'. injection Hrun1' as <-.
  exists σ1, σ2. split_and!; try done.
  - unfold moveCardToColumn, bind, loadCard. rewrite Hpc.
    fold newOptionID. by rewrite Hrun1.
  - unfold updateItemField, bind, getStore.
    assert (Hst : project (st σ1) = Some pr ∧ groupField (st σ1) = Some gf).
    { destruct (MoveCard_run (Card.ItemID c) newOptionID σ p c) as (σ1' & Hr & Hreb);
        [by destruct Hwf|done|done|].
      rewrite Hrun1 in Hr. injection Hr as <-.
      destruct Hreb as [_ _ _ _ H5 _ _]. rewrite H5. by heap_simpl. }
    destruct Hst as [-> ->]. done.
  - by rewrite BoardUpdate_moveError, Hrun2.
Qed.

(** C8 (as amended).  Whenever a move error is delivered, the handler calls
    the store's rollback and sets a toast that names the failed move and
    carries the cause.  The rollback undoes the most recent successful
    local move whose saved card is still held: when the error follows the
    local move of the selected card directly, the card has its old group
    value again, sits in its old column and in no other, and nothing is left
    to roll back. *)
Theorem move_error_handled (m : BoardModel) (σ : State) :
  wf σ → moveErrorHandled m σ.
Proof.
  intros Hwf. split.
  - intros e. rewrite BoardUpdate_moveError.
    destruct (rollbackCard (st σ)) as [rb|] eqn:Hrb.
    + pose proof Hwf as (Hc & Hr & Hcol). pose proof Hr as Hr'.
      unfold rollbackOk in Hr'. rewrite Hrb in Hr'. destruct Hr' as [c Hrbc].
      destruct (RollbackMove_effect σ rb c Hwf Hrb Hrbc) as (σ2 & Hrun & _).
      exists None, σ2. by rewrite Hrun.
    + rewrite RollbackMove_none by done. eauto.
  - intros p c targetColID e Hp Hpc newOptionID.
    destruct (MoveCard_effect (Card.ItemID c) newOptionID σ p c Hwf Hp Hpc)
      as (σ1 & rb & Hrun1 & Hwf1 & Hi1 & Hcards1 & Hrb1 & Hfresh & Hmem1 & Hread1).
    destruct (MoveCard_RollbackMove (Card.ItemID c) newOptionID σ p c Hwf Hp Hpc eq_refl)
      as (σ1' & σ2 & Hrun1' & Hrun2 & Hread2 & Hi2 & Hrb2).
    rewrite Hrun1 in Hrun1'. injection Hrun1' as <-.
    exists σ1, σ2. split_and!; try done.
    + unfold moveCardToColumn, bind, loadCard. rewrite Hpc.
      fold newOptionID. by rewrite Hrun1.
    + by rewrite Hread1.
    + by rewrite BoardUpdate_moveError, Hrun2.
    + by rewrite Hread2.
    + intros k. rewrite indexed_elem by done. rewrite Hread2. split.
      * intros (c' & [= <-] & ->). done.
      * intros ->. by exists (rollbackCopy c).
Qed.

Lemma move_error_handled_witness :
  wf testState ∧ moveErrorHandled newBoard testState.
Proof.
  split; [apply testState_wf|]. apply (move_error_handled newBoard testState).
  apply testState_wf.
Defined.

(** C8 as stated fails: [item_1] is moved twice on the board and then the
    error of the first move arrives.  The rollback undoes the second move,
    so the card is in the column of the first move, not back where it was
    before the move that failed. *)
Lemma failed_move_counterexample : ¬ failedMoveRestored testState.
Proof.
  intros H.
  set (c := mkCard "item_1" ContentTypeIssue "Fix bug"
              "https://github.com/test/repo/issues/1" "test/repo" 1 "opt_todo").
  assert (H1 : cards (st testState) !! Card.ItemID c = Some 1%positive)
    by (vm_compute; reflexivity).
  assert (H2 : cardMem (mem testState) !! 1%positive = Some c)
    by (vm_compute; reflexivity).
  assert (H3 : moveCardToColumn (Some 1%positive) "opt_inprogress" testState
               = Some (cmdUpdateItemField 1%positive "opt_inprogress", move1State))
    by (vm_compute; reflexivity).
  assert (H4 : moveCardToColumn (Some 1%positive) "opt_done" move1State
               = Some (cmdUpdateItemField 1%positive "opt_done", move2State))
    by (vm_compute; reflexivity).
  assert (H5 : BoardUpdate newBoard (moveErrorMsg networkDown) move2State
               = Some ((set_errorToast "Move failed: network down" newBoard, cmdNil),
                       move1FailedState))
    by (vm_compute; reflexivity).
  pose proof (H 1%positive c "opt_inprogress" "opt_inprogress" move1State move2State
                newBoard networkDown _ cmdNil move1FailedState H1 H2 H3
                (boardMoves_step _ _ _ _ _ _ H4 (boardMoves_refl _)) H5) as Hread.
  vm_compute in Hread. discriminate.
Qed.

(** The incomplete copy of [MoveCard] shows here too: on the board a failed
    move of a card with assignees leaves the card without them. *)
Example failed_move_drops_fields :
  ∃ σ1 σ2 m',
    readCard fullBoardState "item_1" = Some fullCard
    ∧ moveCardToColumn (Some 1%positive) "opt_done" fullBoardState
      = Some (cmdUpdateItemField 1%positive "opt_done", σ1)
    ∧ updateItemField (Some (errors_New "network down")) σ1
      = Some (moveErrorMsg (errors_New "network down"), σ1)
    ∧ BoardUpdate newBoard (moveErrorMsg (errors_New "network down")) σ1
      = Some ((m', cmdNil), σ2)
    ∧ RollbackMove σ1 = Some (None, σ2)
    ∧ errorToast m' = "Move failed: network down"
    ∧ Card.GroupOptionID <$> readCard σ2 "item_1" = Some "opt_todo"
    ∧ readCard σ2 "item_1" = Some (rollbackCopy fullCard)
    ∧ readCard σ2 "item_1" ≠ readCard fullBoardState "item_1".
Proof.
  eexists _, _, _.
  split; [vm_compute; reflexivity|].
  split; [vm_compute; reflexivity|].
  split; [vm_compute; reflexivity|].
  split; [vm_compute; reflexivity|].
  split; [vm_compute; reflexivity|].
  split; [vm_compute; reflexivity|].
  split; [vm_compute; reflexivity|].
  split; [vm_compute; reflexivity|].
  vm_compute. discriminate.
Qed.

Lemma find_first {A} (Q : A → bool) (before : list A) x after :
  Q x = true → Forall (λ y, Q y = false) before →
  List.find Q (before ++ x :: after) = Some x.
Proof.
  intros Hx. induction 1 as [|y before Hy _ IH]; simpl; [by rewrite Hx|].
  by rewrite Hy.
Qed.

Lemma find_none {A} (Q : A → bool) (l : list A) :
  (∀ x, x ∈ l → Q x = false) → List.find Q l = None.
Proof.
  induction l as [|y l IH]; intros H; [done|]. simpl.
  rewrite (H y) by left. apply IH. intros x Hx. apply H. by right.
Qed.

Lemma SelectGroupField_error fs :
  ¬ Exists isSingleSelect fs →
  SelectGroupField fs
  = (None, [], Some (errors_New "no SINGLE_SELECT fields found in project")).
Proof.
  intros Hn. unfold SelectGroupField.
  change (filter (λ f, FieldDef.Type_ f = FieldTypeSingleSelect) fs)
    with (filter isSingleSelect fs).
  assert (filter isSingleSelect fs = []) as ->; [|done].
  apply Forall_Exists_neg in Hn. induction Hn as [|x l Hx _ IH]; [done|].
  rewrite filter_cons. by rewrite decide_False.
Qed.

Lemma SelectGroupField_ok fs :
  Exists isSingleSelect fs →
  ∃ selected candidates, SelectGroupField fs = (selected, candidates, None).
Proof.
  intros Hex. unfold SelectGroupField.
  change (filter (λ f, FieldDef.Type_ f = FieldTypeSingleSelect) fs)
    with (filter isSingleSelect fs).
  assert (filter isSingleSelect fs ≠ []) as Hne.
  { apply Exists_exists in Hex as (x & Hin & Hx).
    intros Hnil. assert (x ∈ filter isSingleSelect fs) as Hx'.
    { by apply list_elem_of_filter. }
    rewrite Hnil in Hx'. by apply elem_of_nil in Hx'. }
  rewrite decide_False; [|by intros ?%length_zero_iff_nil].
  destruct (List.find _ _); [eauto|]. destruct (decide _); eauto.
Qed.

(** C9 (as amended).  With a positive project number that no fetched
    project has, and with a non-empty field name that no fetched field has,
    the handler ends in the error display: the error is set and shown, no
    picker is opened, no command is issued.  With a positive project number
    that some fetched project has, the first such project is installed in
    the store and the fields are loaded, without the project picker.  With a
    non-empty field name that some fetched field has, the first such field
    is installed in the store and the board is shown, without the field
    picker, provided that the fetched fields contain a single-select field;
    when they contain none the handler ends in the error display, whatever
    the pre-filled name. *)
Theorem prefilled_flags (m : AppModel) (σ : State) :
  wf σ → prefilledHonoured m σ.
Proof.
  intros (Hc & _ & _). unfold prefilledHonoured. split_and!.
  - intros projects Hflag Hnone. unfold projectsLoaded.
    rewrite decide_True by done. rewrite find_none.
    + eexists _, _. split; [reflexivity|]. done.
    + intros proj Hin. apply bool_decide_eq_false_2. by apply Hnone.
  - intros before proj after Hflag Hnum Hbefore. unfold projectsLoaded.
    rewrite decide_True by done.
    rewrite (find_first _ before proj after).
    + eexists. split; [reflexivity|]. done.
    + by apply bool_decide_eq_true_2.
    + eapply Forall_impl; [exact Hbefore|]. intros q Hq.
      by apply bool_decide_eq_false_2.
  - intros fs Hflag Hnone. unfold fieldsLoaded.
    destruct (decide (Exists isSingleSelect fs)) as [Hex|Hex].
    + destruct (SelectGroupField_ok fs Hex) as (sel & cands & ->).
      heap_simpl. simpl. rewrite decide_True by done. rewrite find_none.
      * eexists _, _. split; [reflexivity|]. done.
      * intros f Hin. apply bool_decide_eq_false_2. by apply Hnone.
    + rewrite SelectGroupField_error by done.
      eexists _, _. split; [reflexivity|]. done.
  - intros before f after Hflag Hname Hbefore Hex. unfold fieldsLoaded.
    destruct (SelectGroupField_ok _ Hex) as (sel & cands & ->).
    simpl. rewrite decide_True by done.
    rewrite (find_first _ before f after).
    + destruct (SetGroupField_run (Some f) σ Hc) as (σ' & Hrun & Hreb).
      unfold bind. rewrite Hrun. eexists _, σ'. split; [reflexivity|].
      destruct Hreb as [_ _ _ _ H5 _ _]. rewrite H5. done.
    + by apply bool_decide_eq_true_2.
    + eapply Forall_impl; [exact Hbefore|]. intros q Hq.
      by apply bool_decide_eq_false_2.
  - intros fs Hex. unfold fieldsLoaded. rewrite SelectGroupField_error by done.
    eexists _, _. split; [reflexivity|]. done.
Qed.

Lemma prefilled_flags_witness :
  wf projectState ∧ prefilledHonoured (NewAppModel "testorg" 1 "Status") projectState.
Proof.
  assert (Hwf : wf projectState).
  { apply (bool_decide_unpack (wf projectState)). vm_compute. exact I. }
  split; [exact Hwf|]. exact (prefilled_flags _ projectState Hwf).
Defined.

(** C9 as stated fails: the pre-filled name "Notes" matches a fetched field,
    but the fetched fields hold no single-select field, so the handler ends
    in the error display and installs nothing. *)
Lemma matched_field_counterexample :
  ¬ matchedFieldInstalled (NewAppModel "testorg" 1 "Notes")
      [plainField "Notes" FieldTypeText] projectState.
Proof.
  intros H.
  destruct (H ltac:(discriminate) (plainField "Notes" FieldTypeText))
    as (m' & cmd & σ' & g & Hrun & Hg & Hname).
  - left.
  - reflexivity.
  - vm_compute in Hrun. injection Hrun as <- <- <-.
    vm_compute in Hg. discriminate.
Qed.

(** What the handler does there: it ends in the error display. *)
Example matched_field_ends_in_error :
  fieldsLoaded (NewAppModel "testorg" 1 "Notes") [plainField "Notes" FieldTypeText]
               projectState
  = Some ((set_err (Some (errors_New "no SINGLE_SELECT fields found in project"))
             (set_fields [plainField "Notes" FieldTypeText]
                (NewAppModel "testorg" 1 "Notes")), appNil), projectState).
Proof. reflexivity. Qed.

(** A project number below zero is not treated as pre-filled: the project
    picker is opened. *)
Example negative_project_flag_opens_picker :
  projectsLoaded (NewAppModel "testorg" (-1) "") [createTestProject] projectState
  = Some ((set_screen ScreenProjectPicker
             (Some (ProjectPickerModel [createTestProject]))
             (NewAppModel "testorg" (-1) ""), appPickerInit), projectState).
Proof. reflexivity. Qed.

End controllers.
(** * Further properties of the store *)

Section store_extras.

(** [UpsertCards] dereferences every pointer it is given. *)
Lemma upsertLoop_valid cs : ∀ σ σ',
  forRange cs upsertStep σ = Some (tt, σ') →
  Forall (λ p, is_Some (cardMem (mem σ) !! p)) cs.
Proof.
  induction cs as [|p cs IH]; intros σ σ' Hloop; [done|].
  cbn [forRange] in Hloop. unfold bind at 1 in Hloop.
  unfold upsertStep, bind, loadCard in Hloop.
  destruct (cardMem (mem σ) !! p) as [c|] eqn:Hp; [|done].
  apply Forall_cons. split; [eauto|].
  unfold modifyStore in Hloop. by apply IH in Hloop.
Qed.

Lemma UpsertCards_valid cs σ r :
  UpsertCards cs σ = Some r → Forall (λ p, is_Some (cardMem (mem σ) !! p)) cs.
Proof.
  unfold UpsertCards, bind. intros Hrun.
  destruct (forRange cs upsertStep σ) as [[[] σ1]|] eqn:Hloop; [|done].
  by eapply upsertLoop_valid.
Qed.

Lemma upsertAll_snoc (h : gmap loc Card.t) ps p m :
  upsertAll h (ps ++ [p]) m
  = match h !! p with
    | Some c => <[Card.ItemID c := p]> (upsertAll h ps m)
    | None => upsertAll h ps m
    end.
Proof. unfold upsertAll. by rewrite foldl_snoc. Qed.

Lemma upsertAll_keyed (h : gmap loc Card.t) ps : ∀ m,
  (∀ itemID p c, m !! itemID = Some p → h !! p = Some c → Card.ItemID c = itemID) →
  ∀ itemID p c,
    upsertAll h ps m !! itemID = Some p → h !! p = Some c → Card.ItemID c = itemID.
Proof.
  induction ps as [|q ps IH]; intros m Hm; [done|]. simpl.
  destruct (h !! q) as [d|] eqn:Hq; [|by apply IH].
  apply IH. intros itemID p c Hl Hp.
  destruct (decide (Card.ItemID d = itemID)) as [<-|Hne].
  - rewrite lookup_insert_eq in Hl. injection Hl as <-. congruence.
  - rewrite lookup_insert_ne in Hl by done. by eapply Hm.
Qed.

(** The last pointer of the list with a given identity is the one that stays
    filed under it. *)
Lemma upsertAll_last (h : gmap loc Card.t) ps : ∀ m i p c,
  ps !! i = Some p → h !! p = Some c →
  (∀ j q d, (i < j)%nat → ps !! j = Some q → h !! q = Some d →
     Card.ItemID d ≠ Card.ItemID c) →
  upsertAll h ps m !! Card.ItemID c = Some p.
Proof.
  induction ps as [|q ps IH] using rev_ind; intros m i p c Hi Hp Hlast; [done|].
  rewrite upsertAll_snoc.
  destruct (decide (i = length ps)) as [->|Hne].
  - rewrite lookup_app_r, Nat.sub_diag in Hi by done. injection Hi as ->.
    rewrite Hp. by rewrite lookup_insert_eq.
  - assert (Hlt : (i < length ps)%nat).
    { apply lookup_lt_Some in Hi. rewrite length_app in Hi. simpl in Hi. lia. }
    rewrite lookup_app_l in Hi by done.
    assert (IH' : upsertAll h ps m !! Card.ItemID c = Some p).
    { apply (IH m i p c Hi Hp). intros j q' d Hj Hq' Hd.
      apply (Hlast j q' d Hj); [|done].
      rewrite lookup_app_l; [done|]. by apply lookup_lt_Some in Hq'. }
    destruct (h !! q) as [d|] eqn:Hq; [|done].
    rewrite lookup_insert_ne; [done|].
    apply (Hlast (length ps) q d Hlt); [|done].
    by rewrite lookup_app_r, Nat.sub_diag by done.
Qed.

Lemma upsertAll_other (h : gmap loc Card.t) ps itemID : ∀ m,
  (∀ p c, p ∈ ps → h !! p = Some c → Card.ItemID c ≠ itemID) →
  upsertAll h ps m !! itemID = m !! itemID.
Proof.
  induction ps as [|q ps IH]; intros m Hne; [done|]. simpl.
  rewrite IH by (intros p c Hp; apply Hne; by right).
  destruct (h !! q) as [d|] eqn:Hq; [|done].
  rewrite lookup_insert_ne; [done|]. eapply Hne; [by left|done].
Qed.

Lemma runOp_keyed o σ σ' :
  wf σ → keyed σ → runOp o σ = Some (tt, σ') → keyed σ'.
Proof.
  intros Hwf Hk Hrun. pose proof Hwf as (Hc & Hr & Hcol).
  destruct o as [f|cs|itemID v| | |]; simpl in Hrun.
  - destruct (SetGroupField_run f σ Hc) as (σ1 & Hrun1 & [H1 _ _ _ H5 _ _]).
    rewrite Hrun1 in Hrun. injection Hrun as <-.
    intros i p c. rewrite H5, H1. heap_simpl. apply Hk.
  - pose proof (UpsertCards_valid _ _ _ Hrun) as Hcs.
    destruct (UpsertCards_run cs σ Hc Hcs) as (σ1 & Hrun1 & [H1 _ _ _ H5 _ _]).
    rewrite Hrun1 in Hrun. injection Hrun as <-.
    intros i p c. rewrite H5, H1. heap_simpl. by apply upsertAll_keyed.
  - unfold bind in Hrun.
    destruct (cards (st σ) !! itemID) as [p|] eqn:Hp.
    + destruct (Hc _ _ Hp) as [c Hpc].
      destruct (MoveCard_effect itemID v σ p c Hwf Hp Hpc)
        as (σ1 & rb & Hrun1 & _ & _ & Hcards & _ & Hrb & Hmem & _).
      rewrite Hrun1 in Hrun. injection Hrun as <-.
      intros i q d. rewrite Hcards, Hmem. intros Hi Hq.
      destruct (decide (q = p)) as [->|Hqp].
      * rewrite lookup_insert_eq in Hq. injection Hq as <-. simpl.
        by apply (Hk i p c).
      * rewrite lookup_insert_ne in Hq by done.
        destruct (decide (q = rb)) as [->|Hqrb].
        -- destruct (Hc _ _ Hi) as [? Hx]. congruence.
        -- rewrite lookup_insert_ne in Hq by done. by apply (Hk i q d).
    + rewrite MoveCard_missing in Hrun by done. by injection Hrun as <-.
  - unfold bind in Hrun.
    destruct (rollbackCard (st σ)) as [rb|] eqn:Hrb.
    + pose proof Hr as Hr'. unfold rollbackOk in Hr'. rewrite Hrb in Hr'.
      destruct Hr' as [c Hrbc].
      destruct (RollbackMove_effect σ rb c Hwf Hrb Hrbc)
        as (σ2 & Hrun2 & _ & _ & _ & Hcards & Hmem).
      rewrite Hrun2 in Hrun. injection Hrun as <-.
      intros i q d. rewrite Hcards, Hmem. intros Hi Hq.
      destruct (decide (Card.ItemID c = i)) as [<-|Hne].
      * rewrite lookup_insert_eq in Hi. injection Hi as <-. congruence.
      * rewrite lookup_insert_ne in Hi by done. by apply (Hk i q d).
    + rewrite RollbackMove_none in Hrun by done. by injection Hrun as <-.
  - rewrite Clear_run in Hrun. injection Hrun as <-. by intros i p c.
  - rewrite Reset_run, Clear_run in Hrun. injection Hrun as <-. by intros i p c.
Qed.

Lemma reachable_keyed σ : reachable σ → keyed σ.
Proof.
  induction 1 as [h|σ o σ' Hreach IH Hrun|σ c p σ' Hreach IH Halloc].
  - by intros i p c.
  - eapply runOp_keyed; [|done..]. by apply reachable_wf_indexed.
  - destruct (reachable_wf_indexed _ Hreach) as [(Hc & _ & _) _].
    unfold allocCard in Halloc. injection Halloc as <- <-.
    intros i q d. heap_simpl. intros Hi Hq.
    rewrite lookup_insert_ne in Hq; [by apply (IH i q d)|].
    intros <-. destruct (Hc _ _ Hi) as [? Hx].
    by rewrite fresh_card_lookup in Hx.
Qed.

(** An operation that is called with card pointers that point to objects
    returns. *)
Lemma runOp_returns o σ :
  wf σ → validOp σ o → ∃ σ', runOp o σ = Some (tt, σ').
Proof.
  intros (Hc & Hr & Hcol) Hv. destruct o as [f|cs|itemID v| | |]; simpl.
  - destruct (SetGroupField_run f σ Hc) as (σ1 & -> & _). eauto.
  - destruct (UpsertCards_run cs σ Hc Hv) as (σ1 & -> & _). eauto.
  - unfold bind. destruct (cards (st σ) !! itemID) as [p|] eqn:Hp.
    + destruct (Hc _ _ Hp) as [c Hpc].
      destruct (MoveCard_run itemID v σ p c Hc Hp Hpc) as (σ1 & -> & _). eauto.
    + rewrite MoveCard_missing by done. eauto.
  - unfold bind. destruct (rollbackCard (st σ)) as [rb|] eqn:Hrb.
    + pose proof Hr as Hr'. unfold rollbackOk in Hr'. rewrite Hrb in Hr'.
      destruct Hr' as [c Hrbc].
      destruct (RollbackMove_run σ rb c Hc Hrb Hrbc) as (σ1 & -> & _). eauto.
    + rewrite RollbackMove_none by done. eauto.
  - rewrite Clear_run. eauto.
  - rewrite Reset_run, Clear_run. eauto.
Qed.

(** X1.  No store operation dereferences a nil pointer of the store's own:
    in every state that a sequence of SetGroupField, UpsertCards, MoveCard,
    RollbackMove, Clear and Reset reaches, each of these operations returns
    (and reaches such a state again) exactly when the card pointers it is
    called with point to cards, and GetColumns and GetColumnCardIDs
    return.  UpsertCards with a nil pointer in its list panics. *)
Theorem store_operations_never_panic (σ : State) (o : StoreOp) :
  reachable σ →
  (validOp σ o ↔ ∃ σ', runOp o σ = Some (tt, σ') ∧ reachable σ')
  ∧ is_Some (GetColumns σ)
  ∧ (∀ optionID, is_Some (GetColumnCardIDs optionID σ)).
Proof.
  intros Hreach. destruct (reachable_wf_indexed _ Hreach) as [Hwf _].
  split; [split|split].
  - intros Hv. destruct (runOp_returns o σ Hwf Hv) as [σ' Hrun].
    exists σ'. split; [done|]. by eapply reachable_op.
  - intros (σ' & Hrun & _). destruct o; try exact I. simpl in *.
    by eapply UpsertCards_valid.
  - destruct Hwf as (_ & _ & Hcol).
    destruct (groupField (st σ)) as [f|] eqn:Hf.
    + destruct (GetColumns_run σ f Hcol Hf) as (r & σ' & -> & _). eauto.
    + rewrite GetColumns_none by done. eauto.
  - intros optionID. destruct Hwf as (_ & _ & Hcol).
    destruct (GetColumnCardIDs_run σ optionID Hcol) as (r & σ' & -> & _). eauto.
Qed.

Lemma store_operations_never_panic_witness :
  reachable testState
  ∧ (validOp testState (OpUpsertCards [1%positive; 2%positive])
     ↔ ∃ σ', runOp (OpUpsertCards [1%positive; 2%positive]) testState = Some (tt, σ')
             ∧ reachable σ')
  ∧ is_Some (GetColumns testState)
  ∧ (∀ optionID, is_Some (GetColumnCardIDs optionID testState)).
Proof.
  split; [apply testState_reachable|].
  apply (store_operations_never_panic testState (OpUpsertCards [1%positive; 2%positive])).
  apply testState_reachable.
Defined.



(** X3.  UpsertCards files each pointer under the identity of its card and
    GetCard hands the same pointer back, not a copy; of several cards with
    one identity in the list the last one stays; identities that are not
    in the list keep what GetCard returned before; and the card is listed
    in the column of its group value. *)
Theorem UpsertCards_GetCard (σ : State) (ps : list loc) :
  wf σ →
  Forall (λ p, is_Some (cardMem (mem σ) !! p)) ps →
  ∃ σ',
    UpsertCards ps σ = Some (tt, σ')
    ∧ cardMem (mem σ') = cardMem (mem σ)
    ∧ (∀ i p c,
         ps !! i = Some p → cardMem (mem σ) !! p = Some c →
         (∀ j q d, (i < j)%nat → ps !! j = Some q → cardMem (mem σ) !! q = Some d →
            Card.ItemID d ≠ Card.ItemID c) →
         GetCard (Card.ItemID c) σ' = Some ((Some p, None), σ')
         ∧ Card.ItemID c ∈ readColumns σ' !!! columnKey c)
    ∧ (∀ itemID,
         (∀ p c, p ∈ ps → cardMem (mem σ) !! p = Some c → Card.ItemID c ≠ itemID) →
         obsValue (GetCard itemID) σ' = obsValue (GetCard itemID) σ).
Proof.
  intros (Hc & Hr & Hcol) Hps.
  destruct (UpsertCards_run ps σ Hc Hps) as (σ' & Hrun & Hreb).
  exists σ'. split; [done|].
  destruct (rebuilt_wf_indexed _ _ Hreb) as [Hwf' Hi'].
  { unfold cardsOk. simpl. by apply upsertAll_cardsOk. }
  { done. }
  destruct Hreb as [H1 _ _ _ H5 _ _]. heap_simpl.
  split; [done|]. split.
  - intros i p c Hi Hp Hlast.
    pose proof (upsertAll_last (cardMem (mem σ)) ps (cards (st σ)) i p c Hi Hp Hlast)
      as Hl.
    split.
    + unfold GetCard, bind, getStore. rewrite H5. heap_simpl. by rewrite Hl.
    + apply indexed_elem; [done|]. exists c. split; [|done].
      unfold readCard. rewrite H5, H1. heap_simpl. by rewrite Hl.
  - intros itemID Hne. unfold obsValue, GetCard, bind, getStore.
    rewrite H5. heap_simpl. rewrite upsertAll_other by done.
    by destruct (cards (st σ) !! itemID).
Qed.

Lemma UpsertCards_GetCard_witness :
  wf testState
  ∧ Forall (λ p, is_Some (cardMem (mem testState) !! p)) [2%positive; 1%positive]
  ∧ ∃ σ',
      UpsertCards [2%positive; 1%positive] testState = Some (tt, σ')
      ∧ cardMem (mem σ') = cardMem (mem testState)
      ∧ (∀ i p c,
           [2%positive; 1%positive] !! i = Some p →
           cardMem (mem testState) !! p = Some c →
           (∀ j q d, (i < j)%nat → [2%positive; 1%positive] !! j = Some q →
              cardMem (mem testState) !! q = Some d →
              Card.ItemID d ≠ Card.ItemID c) →
           GetCard (Card.ItemID c) σ' = Some ((Some p, None), σ')
           ∧ Card.ItemID c ∈ readColumns σ' !!! columnKey c)
      ∧ (∀ itemID,
           (∀ p c, p ∈ [2%positive; 1%positive] →
              cardMem (mem testState) !! p = Some c → Card.ItemID c ≠ itemID) →
           obsValue (GetCard itemID) σ' = obsValue (GetCard itemID) testState).
Proof.
  assert (Hps : Forall (λ p, is_Some (cardMem (mem testState) !! p))
                  [2%positive; 1%positive]).
  { repeat constructor; vm_compute; eauto. }
  split; [apply testState_wf|]. split; [exact Hps|].
  exact (UpsertCards_GetCard testState [2%positive; 1%positive] testState_wf Hps).
Defined.






(** X6.  Clear empties the store and keeps the project, the grouping field
    and the viewer login: afterwards GetAllCards and every column are empty,
    GetCard finds nothing, the pagination is reset and RollbackMove fails,
    also right after a MoveCard.  The card objects themselves stay as they
    are for whoever still holds a pointer. *)
Theorem Clear_empties (σ : State) :
  ∃ σ',
    Clear σ = Some (tt, σ')
    ∧ obsValue GetProject σ' = obsValue GetProject σ
    ∧ obsValue GetGroupField σ' = obsValue GetGroupField σ
    ∧ obsValue GetViewerLogin σ' = obsValue GetViewerLogin σ
    ∧ obsGetAllCards σ' = Some []
    ∧ (∀ itemID, obsGetCard itemID σ' = Some (None, Some ErrCardNotFound))
    ∧ (∀ k, obsGetColumnCardIDs k σ' = Some [])
    ∧ obsValue GetPagination σ' = Some ("", false)
    ∧ RollbackMove σ' = Some (Some (errors_New "no rollback state available"), σ')
    ∧ cardMem (mem σ') = cardMem (mem σ).
Proof.
  eexists. split; [apply Clear_run|].
  split_and!; [done|done|done| | | |done|done|done].
  - rewrite obsGetAllCards_eq. heap_simpl. by rewrite map_to_list_empty.
  - intros itemID. rewrite obsGetCard_eq. unfold readCard. heap_simpl.
    by rewrite lookup_empty.
  - intros k. rewrite obsGetColumnCardIDs_eq.
    + unfold readColumns, readMap. heap_simpl.
      rewrite lookup_insert_eq, omap_empty. by rewrite lookup_total_empty.
    + unfold columnsOk. heap_simpl. rewrite lookup_insert_eq.
      apply map_Forall_empty.
Qed.

(** X7.  Reset leaves the store as New creates it, except for the viewer
    login, which it keeps. *)
Theorem Reset_is_New_but_viewer (σ : State) :
  ∃ σ',
    Reset σ = Some (tt, σ')
    ∧ mem σ' = mem (New (mem σ))
    ∧ st σ' = set_viewerLogin (viewerLogin (st σ)) (st (New (mem σ)))
    ∧ obsValue GetViewerLogin σ' = obsValue GetViewerLogin σ.
Proof.
  eexists. split; [rewrite Reset_run; apply Clear_run|]. done.
Qed.













End store_extras.
(** * The view of the board: the filter *)

(** Projections of explicit models and views. *)
Ltac view_simpl :=
  cbn [Board.ctl Board.view Board.with_view Board.with_ctl
       Board.columns Board.columnNames Board.filteredCards Board.selectedColumn
       Board.columnOffset Board.selectedCard Board.scrollOffset Board.width
       Board.height Board.showHelp Board.filterMode Board.filterText
       Board.filterMyOnly
       Board.set_columns Board.set_filteredCards Board.set_selectedColumn
       Board.set_columnOffset Board.set_selectedCard Board.set_scrollOffset
       Board.set_size Board.set_showHelp Board.set_filterMode Board.set_filterText
       Board.set_filterMyOnly
       moveMode loading loadingMore nextCursor errorToast
       set_moveMode set_loading set_loadingMore set_nextCursor set_errorToast] in *.

Section board_filter.
Context (toLower : string → string) (equalFold : string → string → bool).

Lemma isAssignedToMe_spec login assignees :
  Board.isAssignedToMe equalFold login assignees = true
  ↔ ∃ a, a ∈ assignees ∧ equalFold a login = true.
Proof.
  unfold Board.isAssignedToMe. rewrite existsb_exists.
  by setoid_rewrite list_elem_of_In.
Qed.

Lemma cardPasses_spec v login c :
  cardPasses toLower equalFold v login c = true
  ↔ matchesText toLower v c ∧ matchesMine equalFold v login c.
Proof.
  unfold cardPasses, matchesText, matchesMine.
  rewrite andb_true_iff, !orb_true_iff, !bool_decide_eq_true, negb_true_iff.
  rewrite isAssignedToMe_spec. tauto.
Qed.

Lemma shownB_spec σ v itemID :
  shownB toLower equalFold σ v itemID = true ↔ shown toLower equalFold σ v itemID.
Proof.
  unfold shownB, shown. destruct (readCard σ itemID) as [c|].
  - rewrite cardPasses_spec. split; [eauto|]. by intros (c' & [= <-] & H).
  - split; [done|]. by intros (c' & ? & _).
Qed.

Lemma shownB_ext σ σ1 v itemID :
  st σ1 = st σ → cardMem (mem σ1) = cardMem (mem σ) →
  shownB toLower equalFold σ1 v itemID = shownB toLower equalFold σ v itemID.
Proof. intros Hst Hmem. unfold shownB, readCard. by rewrite Hst, Hmem. Qed.

Lemma passes_run σ v itemID :
  cardsOk σ →
  Board.passes toLower equalFold v (viewerLogin (st σ)) itemID σ
  = Some (shownB toLower equalFold σ v itemID, σ).
Proof.
  intros Hc. unfold shownB, Board.passes, GetCard, bind, getStore, readCard.
  destruct (cards (st σ) !! itemID) as [p|] eqn:Hp; [|done].
  destruct (Hc _ _ Hp) as [c Hpc]. unfold ret at 1. unfold loadCard.
  rewrite Hpc. unfold cardPasses.
  destruct (bool_decide (Board.filterText v = "")),
    (Board.Contains (toLower (Card.Title c)) (toLower (Board.filterText v))),
    (Board.filterMyOnly v), (bool_decide (viewerLogin (st σ) = "")); done.
Qed.

Lemma filterColumn_run σ v l : ∀ acc,
  cardsOk σ →
  Board.filterColumn toLower equalFold v (viewerLogin (st σ)) l acc σ
  = Some (acc ++ filter (λ itemID, shownB toLower equalFold σ v itemID = true) l, σ).
Proof.
  induction l as [|itemID l IH]; intros acc Hc.
  - simpl. unfold ret. by rewrite app_nil_r.
  - cbn [Board.filterColumn]. unfold bind at 1. rewrite passes_run by done.
    rewrite IH by done. destruct (shownB toLower equalFold σ v itemID) eqn:Hs.
    + rewrite filter_cons_True by done. by rewrite <- app_assoc.
    + rewrite filter_cons_False; [done|]. by rewrite Hs.
Qed.

Lemma populate_run σ v L : ∀ fc,
  cardsOk σ →
  Forall (λ x, is_Some (sliceMem (mem σ) !! x.2)) L →
  Board.populate toLower equalFold v (viewerLogin (st σ)) L fc σ
  = Some (foldl (λ fc x,
                   <[x.1 := filter (λ itemID, shownB toLower equalFold σ v itemID = true)
                                   (readSlice (mem σ) x.2)]> fc) fc L, σ).
Proof.
  induction L as [|[k sl] L IH]; intros fc Hc HL; [done|].
  apply Forall_cons in HL as [[l Hsl] HL]. simpl in Hsl.
  cbn [Board.populate]. unfold bind at 1. unfold loadSlice. rewrite Hsl.
  unfold bind at 1. rewrite filterColumn_run by done. simpl.
  rewrite IH by done. cbn [foldl fst snd]. unfold readSlice. by rewrite Hsl.
Qed.

Lemma foldl_insert_lookup {A B} (g : A → B) (L : list (string * A)) :
  ∀ (fc : gmap string B) k,
    NoDup L.*1 →
    foldl (λ fc x, <[x.1 := g x.2]> fc) fc L !! k
    = match (list_to_map L : gmap string A) !! k with
      | Some a => Some (g a)
      | None => fc !! k
      end.
Proof.
  induction L as [|[k0 a0] L IH]; intros fc k Hnd; [done|].
  apply NoDup_cons in Hnd as [Hk0 Hnd]. simpl. rewrite IH by done.
  destruct (decide (k0 = k)) as [<-|Hne].
  - rewrite lookup_insert_eq.
    rewrite (not_elem_of_list_to_map_1 (M:=gmap string) L k0) by done.
    by rewrite lookup_insert_eq.
  - rewrite !lookup_insert_ne by done. done.
Qed.

Lemma initColumns_lookup cols : ∀ (fc : gmap string (list string)) k,
  foldl (λ fc colID, <[colID := []]> fc) fc cols !! k
  = if decide (k ∈ cols) then Some [] else fc !! k.
Proof.
  induction cols as [|c cols IH]; intros fc k.
  { by rewrite decide_False by apply not_elem_of_nil. }
  simpl. rewrite IH. destruct (decide (k ∈ cols)) as [Hin|Hnin].
  - rewrite decide_True; [done|]. by right.
  - destruct (decide (k = c)) as [->|Hne].
    + rewrite decide_True by (by left). by rewrite lookup_insert_eq.
    + rewrite decide_False by (by intros [?|?]%elem_of_cons).
      by rewrite lookup_insert_ne.
Qed.

Lemma clampSel_idem fc sel sel1 k :
  Board.intAt sel1 k = clampSel fc sel k → clampSel fc sel1 k = clampSel fc sel k.
Proof.
  intros H. unfold clampSel at 1. cbv zeta. rewrite H. unfold clampSel.
  repeat case_decide; lia.
Qed.

Lemma clampSel_ext fc sel sel1 k :
  Board.intAt sel1 k = Board.intAt sel k → clampSel fc sel1 k = clampSel fc sel k.
Proof. intros H. unfold clampSel. by rewrite H. Qed.

Lemma clampSel_range fc sel k :
  0 ≤ Board.intAt sel k →
  0 ≤ clampSel fc sel k ≤ Z.max (Board.len (Board.idsAt fc k) - 1) 0.
Proof. unfold clampSel. intros H. repeat case_decide; lia. Qed.

Lemma intAt_insert (m : gmap string Z) k0 x k :
  Board.intAt (<[k0 := x]> m) k = if decide (k = k0) then x else Board.intAt m k.
Proof.
  unfold Board.intAt. case_decide as Hk.
  - subst. by rewrite lookup_insert_eq.
  - by rewrite lookup_insert_ne.
Qed.

Lemma intAt_nonneg (m : gmap string Z) k :
  map_Forall (λ _ i, 0 ≤ i) m → 0 ≤ Board.intAt m k.
Proof.
  intros H. unfold Board.intAt. destruct (m !! k) as [i|] eqn:Hk; [|done].
  exact (H _ _ Hk).
Qed.

Lemma resetColumn_sel fc sel off k0 k :
  Board.intAt (Board.resetColumn fc (sel, off) k0).1 k
  = if decide (k = k0) then clampSel fc sel k0 else Board.intAt sel k.
Proof.
  unfold Board.resetColumn, clampSel. simpl.
  destruct (decide (Board.len (Board.idsAt fc k0) ≤ Board.intAt sel k0)).
  - by rewrite intAt_insert.
  - case_decide; [by subst|done].
Qed.

Lemma resetColumn_nonneg fc sel off k0 :
  map_Forall (λ _ i, 0 ≤ i) sel →
  map_Forall (λ (_ : string) i, 0 ≤ i) (Board.resetColumn fc (sel, off) k0).1.
Proof.
  intros Hsel. unfold Board.resetColumn. simpl. case_decide; [|done].
  apply map_Forall_insert_2; [|done]. case_decide; lia.
Qed.

Lemma resetLoop_spec fc ks : ∀ sel off,
  (∀ k, Board.intAt (foldl (Board.resetColumn fc) (sel, off) ks).1 k
        = if decide (k ∈ ks) then clampSel fc sel k else Board.intAt sel k)
  ∧ (∀ k, (foldl (Board.resetColumn fc) (sel, off) ks).2 !! k
          = if decide (k ∈ ks) then Some 0 else off !! k)
  ∧ (map_Forall (λ _ i, 0 ≤ i) sel →
     map_Forall (λ (_ : string) i, 0 ≤ i)
                (foldl (Board.resetColumn fc) (sel, off) ks).1).
Proof.
  induction ks as [|k0 ks IH]; intros sel off.
  { split_and!; [| |done]; intros k; by rewrite decide_False by apply not_elem_of_nil. }
  cbn [foldl].
  pose proof (resetColumn_sel fc sel off k0) as Hsel1.
  pose proof (resetColumn_nonneg fc sel off k0) as Hnn1.
  assert (Hoff1 : (Board.resetColumn fc (sel, off) k0).2 = <[k0 := 0]> off) by done.
  destruct (Board.resetColumn fc (sel, off) k0) as [sel1 off1]. simpl in *.
  destruct (IH sel1 off1) as (IH1 & IH2 & IH3). subst off1.
  split_and!.
  - intros k. rewrite IH1, Hsel1. destruct (decide (k ∈ ks)) as [Hin|Hnin].
    + rewrite decide_True by (by right). destruct (decide (k = k0)) as [->|Hne].
      * apply clampSel_idem. rewrite Hsel1. by rewrite decide_True.
      * apply clampSel_ext. rewrite Hsel1. by rewrite decide_False.
    + destruct (decide (k = k0)) as [->|Hne].
      * by rewrite decide_True by (by left).
      * by rewrite decide_False by (by intros [?|?]%elem_of_cons).
  - intros k. rewrite IH2. destruct (decide (k ∈ ks)) as [Hin|Hnin].
    + by rewrite decide_True by (by right).
    + destruct (decide (k = k0)) as [->|Hne].
      * rewrite decide_True by (by left). by rewrite lookup_insert_eq.
      * rewrite decide_False by (by intros [?|?]%elem_of_cons).
        by rewrite lookup_insert_ne.
  - intros Hsel. by apply IH3, Hnn1.
Qed.

(** What [applyFilter] computes.  The store is read and not written; the
    lists of the view are the columns of the store with the cards that do
    not pass taken out, and an empty list for every other column of the
    board. *)
Lemma applyFilter_run m σ :
  wf σ →
  ∃ σ' fc sel off,
    Board.applyFilter toLower equalFold m σ
    = Some (Board.with_view
              (λ v, Board.set_scrollOffset off
                      (Board.set_selectedCard sel (Board.set_filteredCards fc v))) m,
            σ')
    ∧ st σ' = st σ
    ∧ heapSub (mem σ) (mem σ')
    ∧ (∀ k, fc !! k
            = match (match groupField (st σ) with
                     | Some _ => readColumns σ !! k
                     | None => None
                     end) with
              | Some ids =>
                  Some (filter (λ itemID,
                                  shownB toLower equalFold σ (Board.view m) itemID = true)
                               ids)
              | None => if decide (k ∈ Board.columns (Board.view m)) then Some [] else None
              end)
    ∧ (∀ k, Board.intAt sel k
            = if decide (is_Some (fc !! k))
              then clampSel fc (Board.selectedCard (Board.view m)) k
              else Board.intAt (Board.selectedCard (Board.view m)) k)
    ∧ (∀ k, off !! k
            = if decide (is_Some (fc !! k)) then Some 0
              else Board.scrollOffset (Board.view m) !! k)
    ∧ (map_Forall (λ _ i, 0 ≤ i) (Board.selectedCard (Board.view m)) →
       map_Forall (λ (_ : string) i, 0 ≤ i) sel).
Proof.
  intros (Hc & Hr & Hcol).
  assert (Hloop : ∀ fc : gmap string (list string),
    ∃ sel off,
      foldl (Board.resetColumn fc)
            (Board.selectedCard (Board.view m), Board.scrollOffset (Board.view m))
            (map_to_list fc).*1 = (sel, off)
      ∧ (∀ k, Board.intAt sel k
              = if decide (is_Some (fc !! k))
                then clampSel fc (Board.selectedCard (Board.view m)) k
                else Board.intAt (Board.selectedCard (Board.view m)) k)
      ∧ (∀ k, off !! k
              = if decide (is_Some (fc !! k)) then Some 0
                else Board.scrollOffset (Board.view m) !! k)
      ∧ (map_Forall (λ _ i, 0 ≤ i) (Board.selectedCard (Board.view m)) →
         map_Forall (λ (_ : string) i, 0 ≤ i) sel)).
  { intros fc.
    destruct (resetLoop_spec fc (map_to_list fc).*1
                (Board.selectedCard (Board.view m)) (Board.scrollOffset (Board.view m)))
      as (H1 & H2 & H3).
    destruct (foldl _ _ _) as [sel off]. exists sel, off. simpl in *.
    assert (Hkeys : ∀ k, k ∈ (map_to_list fc).*1 ↔ is_Some (fc !! k)).
    { intros k. rewrite list_elem_of_fmap. split.
      - intros ([k' x] & -> & Hin). apply elem_of_map_to_list in Hin. eauto.
      - intros [x Hx]. exists (k, x). split; [done|]. by apply elem_of_map_to_list. }
    split_and!; [done| | |done].
    - intros k. rewrite H1. destruct (decide (k ∈ (map_to_list fc).*1)) as [Hin|Hnin].
      + by rewrite decide_True by (by apply Hkeys).
      + by rewrite decide_False by (by rewrite <- Hkeys).
    - intros k. rewrite H2. destruct (decide (k ∈ (map_to_list fc).*1)) as [Hin|Hnin].
      + by rewrite decide_True by (by apply Hkeys).
      + by rewrite decide_False by (by rewrite <- Hkeys). }
  unfold Board.applyFilter. unfold bind at 1.
  destruct (groupField (st σ)) as [f|] eqn:Hf.
  - destruct (GetColumns_run σ f Hcol Hf) as (r & σ1 & Hrun & Hcop).
    rewrite Hrun. destruct Hcop as [Hst Hsub Hmem _ (res & Hres & Hsl) Hread].
    unfold bind at 1. unfold bind at 1. unfold loadMap. rewrite Hres.
    unfold ret at 1. unfold bind at 1. unfold GetViewerLogin, bind, getStore, ret.
    assert (Hc1 : cardsOk σ1).
    { unfold cardsOk. by rewrite Hst, Hmem. }
    rewrite populate_run; [|done|].
    2:{ apply Forall_forall. intros [k sl] Hin. apply elem_of_map_to_list in Hin.
        by apply (Hsl k sl). }
    set (fc := foldl _ _ (map_to_list res)).
    destruct (Hloop fc) as (sel & off & Hfold & Hsel & Hoff & Hnn).
    rewrite Hfold. exists σ1, fc, sel, off. split_and!; try done.
    intros k. unfold fc.
    rewrite (foldl_insert_lookup
               (λ sl, filter (λ itemID,
                                shownB toLower equalFold σ1 (Board.view m) itemID = true)
                             (readSlice (mem σ1) sl)))
      by apply NoDup_fst_map_to_list.
    rewrite list_to_map_to_list, initColumns_lookup, lookup_empty.
    rewrite <- Hread. unfold readMap. rewrite Hres, lookup_omap.
    destruct (res !! k) as [sl|] eqn:Hk; simpl; [|done].
    destruct (Hsl _ _ Hk) as [_ [l Hl]]. rewrite Hl. unfold readSlice. rewrite Hl.
    simpl. f_equal. apply list_filter_iff. intros itemID.
    by rewrite (shownB_ext σ σ1).
  - rewrite GetColumns_none by done.
    unfold bind at 1. unfold ret at 1. unfold bind at 1.
    unfold GetViewerLogin, bind, getStore, ret.
    rewrite populate_run by done. cbn [foldl].
    set (fc := foldl _ _ (Board.columns (Board.view m))).
    destruct (Hloop fc) as (sel & off & Hfold & Hsel & Hoff & Hnn).
    rewrite Hfold. exists σ, fc, sel, off. split_and!; try done.
    intros k. unfold fc. by rewrite initColumns_lookup, lookup_empty.
Qed.

Lemma filter_all {A} (P : A → Prop) `{∀ x, Decision (P x)} (l : list A) :
  Forall P l → filter P l = l.
Proof.
  induction 1 as [|x l Hx _ IH]; [done|]. by rewrite filter_cons_True, IH.
Qed.

(** The list of a column after [applyFilter], when a grouping field is
    set. *)
Lemma applyFilter_idsAt m σ :
  wf σ → is_Some (groupField (st σ)) →
  ∃ m' σ',
    Board.applyFilter toLower equalFold m σ = Some (m', σ')
    ∧ st σ' = st σ
    ∧ heapSub (mem σ) (mem σ')
    ∧ Board.ctl m' = Board.ctl m
    ∧ Board.columns (Board.view m') = Board.columns (Board.view m)
    ∧ Board.selectedColumn (Board.view m') = Board.selectedColumn (Board.view m)
    ∧ (∀ k, Board.idsAt (Board.filteredCards (Board.view m')) k
            = filter (λ itemID, shownB toLower equalFold σ (Board.view m) itemID = true)
                     (readColumns σ !!! k))
    ∧ (∀ k, k ∈ Board.columns (Board.view m) →
            is_Some (Board.filteredCards (Board.view m') !! k)).
Proof.
  intros Hwf [f Hf].
  destruct (applyFilter_run m σ Hwf) as (σ' & fc & sel & off & Hrun & Hst & Hsub & Hfc & _).
  eexists _, σ'. split; [exact Hrun|]. view_simpl. rewrite Hf in Hfc.
  split_and!; try done.
  - intros k. unfold Board.idsAt. rewrite Hfc, lookup_total_alt.
    destruct (readColumns σ !! k); [done|]. simpl. by case_decide.
  - intros k Hk. rewrite Hfc. destruct (readColumns σ !! k); [eauto|].
    rewrite decide_True by done. eauto.
Qed.

(** X13.  With a grouping field set, applyFilter lists a card in the
    column of the view that has the card's column key exactly when the card
    passes the text filter and the filter of the viewer's own cards; each
    list keeps the order of the store's column and holds no identity
    twice; every column of the board gets a list, empty if need be; and
    the store answers every read as before. *)
Theorem applyFilter_lists (m : Board.Model) (σ : State) :
  wf σ → indexed σ → is_Some (groupField (st σ)) →
  ∃ m' σ',
    Board.applyFilter toLower equalFold m σ = Some (m', σ')
    ∧ sameReads σ σ'
    ∧ Board.ctl m' = Board.ctl m
    ∧ Board.columns (Board.view m') = Board.columns (Board.view m)
    ∧ (∀ k itemID,
         itemID ∈ Board.idsAt (Board.filteredCards (Board.view m')) k
         ↔ ∃ c, readCard σ itemID = Some c ∧ columnKey c = k
                ∧ matchesText toLower (Board.view m) c
                ∧ matchesMine equalFold (Board.view m) (viewerLogin (st σ)) c)
    ∧ (∀ k, NoDup (Board.idsAt (Board.filteredCards (Board.view m')) k)
            ∧ Board.idsAt (Board.filteredCards (Board.view m')) k
              `sublist_of` readColumns σ !!! k)
    ∧ (∀ k, k ∈ Board.columns (Board.view m) →
            is_Some (Board.filteredCards (Board.view m') !! k)).
Proof.
  intros Hwf Hi Hf.
  destruct (applyFilter_idsAt m σ Hwf Hf)
    as (m' & σ' & Hrun & Hst & Hsub & Hctl & Hcols & _ & Hids & Hall).
  exists m', σ'. split_and!; try done.
  - by apply sameReads_frame.
  - intros k itemID. rewrite Hids, list_elem_of_filter, shownB_spec, indexed_elem by done.
    unfold shown. split.
    + intros ((c & Hc & Ht & Hm) & (c' & Hc' & ->)). exists c.
      split_and!; try done. congruence.
    + intros (c & Hc & <- & Ht & Hm). split; exists c; by split_and!.
  - intros k. rewrite Hids. split.
    + apply NoDup_filter. by apply indexed_NoDup.
    + apply sublist_filter.
Qed.

(** X14.  When no text is set and the filter of the viewer's own cards is
    off, or is on while the login of the viewer is not known, applyFilter
    hides nothing: every list of the view is the store's column. *)
Theorem applyFilter_without_filter (m : Board.Model) (σ : State) :
  wf σ → indexed σ → is_Some (groupField (st σ)) →
  Board.filterText (Board.view m) = "" →
  Board.filterMyOnly (Board.view m) = false ∨ viewerLogin (st σ) = "" →
  ∃ m' σ',
    Board.applyFilter toLower equalFold m σ = Some (m', σ')
    ∧ (∀ k, Board.idsAt (Board.filteredCards (Board.view m')) k = readColumns σ !!! k).
Proof.
  intros Hwf Hi Hf Htext Hmine.
  destruct (applyFilter_idsAt m σ Hwf Hf)
    as (m' & σ' & Hrun & _ & _ & _ & _ & _ & Hids & _).
  exists m', σ'. split; [done|]. intros k. rewrite Hids.
  apply filter_all, Forall_forall. intros itemID Hin.
  apply indexed_elem in Hin as (c & Hc & _); [|done].
  apply shownB_spec. exists c. split; [done|]. split; [by left|].
  unfold matchesMine. tauto.
Qed.

End board_filter.

Lemma applyFilter_lists_witness :
  wf testState ∧ indexed testState ∧ is_Some (groupField (st testState))
  ∧ ∃ m' σ',
      Board.applyFilter lowerASCII EqualFold textFilterModel testState = Some (m', σ')
      ∧ sameReads testState σ'
      ∧ Board.ctl m' = Board.ctl textFilterModel
      ∧ Board.columns (Board.view m') = Board.columns (Board.view textFilterModel)
      ∧ (∀ k itemID,
           itemID ∈ Board.idsAt (Board.filteredCards (Board.view m')) k
           ↔ ∃ c, readCard testState itemID = Some c ∧ columnKey c = k
                  ∧ matchesText lowerASCII (Board.view textFilterModel) c
                  ∧ matchesMine EqualFold (Board.view textFilterModel)
                                (viewerLogin (st testState)) c)
      ∧ (∀ k, NoDup (Board.idsAt (Board.filteredCards (Board.view m')) k)
              ∧ Board.idsAt (Board.filteredCards (Board.view m')) k
                `sublist_of` readColumns testState !!! k)
      ∧ (∀ k, k ∈ Board.columns (Board.view textFilterModel) →
              is_Some (Board.filteredCards (Board.view m') !! k)).
Proof.
  assert (Hi : indexed testState).
  { apply reachable_wf_indexed, testState_reachable. }
  assert (Hf : is_Some (groupField (st testState))).
  { vm_compute. eauto. }
  split; [apply testState_wf|]. split; [exact Hi|]. split; [exact Hf|].
  exact (applyFilter_lists lowerASCII EqualFold textFilterModel testState
           testState_wf Hi Hf).
Defined.

Lemma applyFilter_without_filter_witness :
  wf testState ∧ indexed testState ∧ is_Some (groupField (st testState))
  ∧ Board.filterText (Board.view mineOnlyModel) = ""
  ∧ (Board.filterMyOnly (Board.view mineOnlyModel) = false
     ∨ viewerLogin (st testState) = "")
  ∧ ∃ m' σ',
      Board.applyFilter lowerASCII EqualFold mineOnlyModel testState = Some (m', σ')
      ∧ (∀ k, Board.idsAt (Board.filteredCards (Board.view m')) k
              = readColumns testState !!! k).
Proof.
  assert (Hi : indexed testState).
  { apply reachable_wf_indexed, testState_reachable. }
  assert (Hf : is_Some (groupField (st testState))).
  { vm_compute. eauto. }
  assert (Hmine : Board.filterMyOnly (Board.view mineOnlyModel) = false
                  ∨ viewerLogin (st testState) = "").
  { right. vm_compute. reflexivity. }
  split; [apply testState_wf|]. split; [exact Hi|]. split; [exact Hf|].
  split; [reflexivity|]. split; [exact Hmine|].
  exact (applyFilter_without_filter lowerASCII EqualFold mineOnlyModel testState
           testState_wf Hi Hf eq_refl Hmine).
Defined.

(** The text filter at work on the test store: of the four cards only the
    two with "bug" in the title stay, each in its column. *)
Example applyFilter_bug :
  ∃ m' σ',
    Board.applyFilter lowerASCII EqualFold textFilterModel testState = Some (m', σ')
    ∧ Board.filteredCards (Board.view m')
      = {[ "opt_todo" := ["item_1"]; "opt_inprogress" := []; "opt_done" := ["item_4"];
           NoStatusKey := [] ]}.
Proof.
  eexists _, _. split; [vm_compute; reflexivity|]. vm_compute. reflexivity.
Qed.
(** * The view of the board: the selections stay in range *)

Section board_invariant.
Context (toLower : string → string) (equalFold : string → string → bool).

Lemma viewOk_New : viewOk (Board.view Board.NewBoardModel).
Proof. unfold viewOk. simpl. split_and!; done. Qed.

Lemma elemAt_is_Some {A} (l : list A) i :
  0 ≤ i < Board.len l → is_Some (Board.elemAt l i).
Proof.
  intros [H0 Hlt]. unfold Board.elemAt, Board.len in *.
  rewrite decide_True by done. apply lookup_lt_is_Some. lia.
Qed.

Lemma elemAt_elem {A} (l : list A) i x : Board.elemAt l i = Some x → x ∈ l.
Proof.
  unfold Board.elemAt. case_decide; [|done]. apply list_elem_of_lookup_2.
Qed.

Lemma elemAt_range {A} (l : list A) i x :
  Board.elemAt l i = Some x → 0 ≤ i < Board.len l.
Proof.
  unfold Board.elemAt, Board.len. case_decide; [|done].
  intros Hl%lookup_lt_Some. lia.
Qed.

Lemma viewOk_columns_nonempty v :
  viewOk v → Board.len (Board.columns v) ≠ 0 →
  0 ≤ Board.selectedColumn v < Board.len (Board.columns v).
Proof. intros (H0 & H1 & _) Hne. unfold Board.len in *. lia. Qed.

(** The board's [rebuildColumns] returns, reads the store only and writes
    [columns], [columnNames] and [selectedColumn] only. *)
Lemma rebuildColumns_run m σ :
  ∃ m',
    Board.rebuildColumns m σ = Some (m', σ)
    ∧ Board.ctl m' = Board.ctl m
    ∧ Board.filteredCards (Board.view m') = Board.filteredCards (Board.view m)
    ∧ Board.selectedCard (Board.view m') = Board.selectedCard (Board.view m)
    ∧ Board.scrollOffset (Board.view m') = Board.scrollOffset (Board.view m)
    ∧ Board.filterText (Board.view m') = Board.filterText (Board.view m)
    ∧ Board.filterMyOnly (Board.view m') = Board.filterMyOnly (Board.view m)
    ∧ match groupField (st σ) with
      | Some f =>
          Board.columns (Board.view m')
          = (Option.ID <$> FieldDef.Options f) ++ [NoStatusKey]
          ∧ (0 ≤ Board.selectedColumn (Board.view m)
             → 0 ≤ Board.selectedColumn (Board.view m')
                 < Board.len (Board.columns (Board.view m')))
      | None => m' = m
      end.
Proof.
  unfold Board.rebuildColumns, GetGroupField, bind, getStore, ret.
  destruct (groupField (st σ)) as [f|]; [|by eexists].
  case_decide as Hsc; eexists; (split; [reflexivity|]); view_simpl;
    split_and!; try done; intros H0; unfold Board.len in *;
    rewrite length_app in *; simpl in *; lia.
Qed.

Lemma rebuildColumns_viewOk m σ m' σ' :
  Board.rebuildColumns m σ = Some (m', σ') →
  viewOk (Board.view m) → viewOk (Board.view m').
Proof.
  intros Hrun (H0 & H1 & H2 & H3).
  destruct (rebuildColumns_run m σ) as (m1 & Hrun1 & _ & Hfc & Hsel & _ & _ & _ & Hcols).
  rewrite Hrun1 in Hrun. injection Hrun as <- <-.
  destruct (groupField (st σ)) as [f|]; [|by subst].
  destruct Hcols as [Hcols Hsc]. specialize (Hsc H0).
  unfold viewOk. rewrite Hfc, Hsel. split_and!; try done; lia.
Qed.

Lemma applyFilter_viewOk m σ :
  wf σ → viewOk (Board.view m) →
  ∃ m' σ',
    Board.applyFilter toLower equalFold m σ = Some (m', σ')
    ∧ st σ' = st σ
    ∧ heapSub (mem σ) (mem σ')
    ∧ Board.ctl m' = Board.ctl m
    ∧ viewOk (Board.view m').
Proof.
  intros Hwf (H0 & H1 & H2 & H3).
  destruct (applyFilter_run toLower equalFold m σ Hwf)
    as (σ' & fc & sel & off & Hrun & Hst & Hsub & Hfc & Hsel & Hoff & Hnn).
  eexists _, σ'. split; [exact Hrun|]. split_and!; try done.
  unfold viewOk. view_simpl. split_and!; try done; [by apply Hnn|].
  intros k ids Hk. rewrite Hsel, decide_True by eauto.
  pose proof (clampSel_range fc (Board.selectedCard (Board.view m)) k
                (intAt_nonneg _ k H2)) as Hr.
  unfold Board.idsAt in Hr. rewrite Hk in Hr. simpl in Hr. lia.
Qed.

Lemma refresh_run m σ :
  boardOk m σ →
  ∃ m' σ',
    Board.refresh toLower equalFold m σ = Some (m', σ')
    ∧ st σ' = st σ
    ∧ heapSub (mem σ) (mem σ')
    ∧ Board.ctl m' = Board.ctl m
    ∧ boardOk m' σ'.
Proof.
  intros (Hwf & Hi & Hv). unfold Board.refresh, bind.
  destruct (rebuildColumns_run m σ) as (m1 & Hrun1 & Hctl1 & _).
  pose proof (rebuildColumns_viewOk _ _ _ _ Hrun1 Hv) as Hv1. rewrite Hrun1.
  destruct (applyFilter_viewOk m1 σ Hwf Hv1) as (m' & σ' & Hrun & Hst & Hsub & Hctl & Hv').
  exists m', σ'. split_and!; try done; try congruence.
  destruct (heapSub_wf_indexed σ σ' Hwf Hi Hst Hsub). by split_and!.
Qed.

Lemma adjustScroll_view colID m :
  Board.ctl (Board.adjustScroll colID m) = Board.ctl m
  ∧ ∃ off, Board.view (Board.adjustScroll colID m)
           = Board.set_scrollOffset off (Board.view m).
Proof.
  unfold Board.adjustScroll. repeat case_decide; view_simpl; split; try done;
    try (by eexists); exists (Board.scrollOffset (Board.view m));
    by destruct (Board.view m).
Qed.

Lemma adjustScroll_ctl colID m :
  Board.ctl (Board.adjustScroll colID m) = Board.ctl m.
Proof. by destruct (adjustScroll_view colID m) as [-> _]. Qed.

Lemma adjustScroll_viewOk colID m :
  viewOk (Board.view m) → viewOk (Board.view (Board.adjustScroll colID m)).
Proof.
  intros Hv. destruct (adjustScroll_view colID m) as (_ & off & ->). exact Hv.
Qed.

Lemma adjustColumnScroll_viewOk m :
  viewOk (Board.view m) → viewOk (Board.view (Board.adjustColumnScroll m)).
Proof. intros Hv. unfold Board.adjustColumnScroll. by repeat case_decide. Qed.

Lemma adjustColumnScroll_ctl m :
  Board.ctl (Board.adjustColumnScroll m) = Board.ctl m.
Proof. unfold Board.adjustColumnScroll. by repeat case_decide. Qed.

(** Setting the selection of a column to an index of its list keeps the
    selections in range. *)
Lemma set_selection_viewOk m colID i :
  viewOk (Board.view m) →
  0 ≤ i ≤ Board.len (Board.idsAt (Board.filteredCards (Board.view m)) colID) - 1 →
  viewOk (Board.view
            (Board.with_view
               (λ v, Board.set_selectedCard (<[colID := i]> (Board.selectedCard v)) v) m)).
Proof.
  intros (H0 & H1 & H2 & H3) Hi. unfold viewOk. view_simpl.
  split_and!; try done.
  - apply map_Forall_insert_2; [lia|done].
  - intros k ids Hk. rewrite intAt_insert. case_decide as Hkc.
    + subst. unfold Board.idsAt in Hi. rewrite Hk in Hi. simpl in Hi. lia.
    + by apply H3.
Qed.

Lemma moveCardSelection_ok delta m :
  viewOk (Board.view m) →
  ∃ m', Board.moveCardSelection delta m = Some m'
        ∧ Board.ctl m' = Board.ctl m ∧ viewOk (Board.view m').
Proof.
  intros Hv. unfold Board.moveCardSelection.
  case_decide as Hcols; [by eexists|].
  destruct (elemAt_is_Some (Board.columns (Board.view m))
              (Board.selectedColumn (Board.view m))) as [colID ->].
  { by apply viewOk_columns_nonempty. }
  case_decide as Hids; [by eexists|].
  eexists. split; [reflexivity|]. split.
  - by rewrite adjustScroll_ctl.
  - apply adjustScroll_viewOk, set_selection_viewOk; [done|].
    unfold Board.len in *. repeat case_decide; lia.
Qed.

Lemma jumpToCard_ok idx m :
  viewOk (Board.view m) →
  ∃ m', Board.jumpToCard idx m = Some m'
        ∧ Board.ctl m' = Board.ctl m ∧ viewOk (Board.view m').
Proof.
  intros Hv. unfold Board.jumpToCard.
  case_decide as Hcols; [by eexists|].
  destruct (elemAt_is_Some (Board.columns (Board.view m))
              (Board.selectedColumn (Board.view m))) as [colID ->].
  { by apply viewOk_columns_nonempty. }
  case_decide as Hids; [by eexists|].
  eexists. split; [reflexivity|]. split.
  - by rewrite adjustScroll_ctl.
  - apply adjustScroll_viewOk, set_selection_viewOk; [done|].
    unfold Board.len in *. repeat case_decide; lia.
Qed.

(** Under the invariant [getSelectedCard] returns: nil, or a pointer of the
    store that is filed under an identity of the selected column's list. *)
Lemma getSelectedCard_run m σ :
  viewOk (Board.view m) →
  ∃ r, Board.getSelectedCard m σ = Some (r, σ)
       ∧ ∀ p, r = Some p →
           ∃ colID itemID,
             Board.elemAt (Board.columns (Board.view m))
                          (Board.selectedColumn (Board.view m)) = Some colID
             ∧ itemID ∈ Board.idsAt (Board.filteredCards (Board.view m)) colID
             ∧ cards (st σ) !! itemID = Some p.
Proof.
  intros Hv. unfold Board.getSelectedCard.
  case_decide as Hcols; [by eexists|].
  destruct (elemAt_is_Some (Board.columns (Board.view m))
              (Board.selectedColumn (Board.view m))) as [colID Hcol].
  { by apply viewOk_columns_nonempty. }
  rewrite Hcol. case_decide as Hids; [by eexists|].
  set (ids := Board.idsAt (Board.filteredCards (Board.view m)) colID) in *.
  set (i := if decide (Board.len ids ≤ Board.intAt (Board.selectedCard (Board.view m)) colID)
            then 0 else Board.intAt (Board.selectedCard (Board.view m)) colID).
  destruct (elemAt_is_Some ids i) as [itemID Hitem].
  { destruct Hv as (_ & _ & H2 & _). pose proof (intAt_nonneg _ colID H2).
    unfold i, Board.len in *. case_decide; lia. }
  rewrite Hitem. unfold GetCard, bind, getStore.
  destruct (cards (st σ) !! itemID) as [p|] eqn:Hp; [|by eexists].
  eexists. split; [reflexivity|]. intros p' [= <-].
  exists colID, itemID. split_and!; try done. by eapply elemAt_elem.
Qed.

(** A move of the selected card leaves the store in order, whether it
    succeeds or not. *)
Lemma moveCardToColumn_run m targetColID σ :
  boardOk m σ →
  ∃ cmd σ',
    Board.moveCardToColumn m targetColID σ = Some (cmd, σ') ∧ boardOk m σ'.
Proof.
  intros (Hwf & Hi & Hv). unfold Board.moveCardToColumn, bind.
  destruct (getSelectedCard_run m σ Hv) as (r & -> & Hr).
  destruct r as [p|]; [|by eexists _, _].
  destruct (Hr p eq_refl) as (colID & itemID & _ & _ & Hp).
  pose proof Hwf as (Hc & _ & _). destruct (Hc _ _ Hp) as [c Hpc].
  unfold moveCardToColumn, bind, loadCard. rewrite Hpc.
  set (v := if decide (targetColID = NoStatusKey) then "" else targetColID).
  destruct (cards (st σ) !! Card.ItemID c) as [q|] eqn:Hq.
  - destruct (Hc _ _ Hq) as [d Hqd].
    destruct (MoveCard_effect (Card.ItemID c) v σ q d Hwf Hq Hqd)
      as (σ1 & rb & -> & Hwf1 & Hi1 & _).
    by eexists _, _.
  - rewrite MoveCard_missing by done. by eexists _, _.
Qed.

Lemma handleMoveMode_ok m key σ :
  boardOk m σ →
  ∃ m' cmd σ',
    Board.handleMoveMode m key σ = Some ((m', cmd), σ') ∧ boardOk m' σ'.
Proof.
  intros Hok. unfold Board.handleMoveMode.
  case_decide; [by eexists _, _, _|].
  destruct (Board.digitIndex key) as [idx|]; [|by eexists _, _, _].
  case_decide as Hidx; [|by eexists _, _, _].
  destruct (elemAt_is_Some _ _ Hidx) as [colID ->]. unfold bind.
  destruct (moveCardToColumn_run m colID σ Hok) as (cmd & σ' & -> & Hok').
  by eexists _, _, _.
Qed.

Lemma boardOk_ctl f m σ : boardOk m σ → boardOk (Board.with_ctl f m) σ.
Proof. done. Qed.

Lemma boardOk_flags m σ m' :
  boardOk m σ →
  Board.columns (Board.view m') = Board.columns (Board.view m) →
  Board.selectedColumn (Board.view m') = Board.selectedColumn (Board.view m) →
  Board.filteredCards (Board.view m') = Board.filteredCards (Board.view m) →
  Board.selectedCard (Board.view m') = Board.selectedCard (Board.view m) →
  boardOk m' σ.
Proof.
  intros (Hwf & Hi & Hv) H1 H2 H3 H4. split_and!; try done.
  unfold viewOk. by rewrite H1, H2, H3, H4.
Qed.

Lemma applyFilter_ok m σ :
  boardOk m σ →
  ∃ m' σ', Board.applyFilter toLower equalFold m σ = Some (m', σ') ∧ boardOk m' σ'.
Proof.
  intros (Hwf & Hi & Hv).
  destruct (applyFilter_viewOk m σ Hwf Hv) as (m' & σ' & Hrun & Hst & Hsub & _ & Hv').
  exists m', σ'. split; [done|].
  destruct (heapSub_wf_indexed σ σ' Hwf Hi Hst Hsub). by split_and!.
Qed.

Lemma set_selectedColumn_viewOk m i :
  viewOk (Board.view m) →
  0 ≤ i < Z.max (Board.len (Board.columns (Board.view m))) 1 →
  viewOk (Board.view (Board.with_view (Board.set_selectedColumn i) m)).
Proof. intros (H0 & H1 & H2 & H3) [Hi Hi']. unfold viewOk. view_simpl. by split_and!. Qed.

Lemma navigate_ok m key σ :
  boardOk m σ →
  ∃ m' cmd σ',
    Board.navigate toLower equalFold m key σ = Some ((m', cmd), σ') ∧ boardOk m' σ'.
Proof.
  intros Hok. pose proof Hok as (Hwf & Hi & Hv). unfold Board.navigate.
  assert (Hmove : ∀ delta,
    ∃ m' cmd σ',
      (m' ← Board.liftPure (Board.moveCardSelection delta m); ret (m', Board.Core cmdNil)) σ
      = Some ((m', cmd), σ') ∧ boardOk m' σ').
  { intros delta. destruct (moveCardSelection_ok delta m Hv) as (m' & Hrun & _ & Hv').
    unfold bind, Board.liftPure. rewrite Hrun. by eexists _, _, _. }
  assert (Hjump : ∀ idx,
    ∃ m' cmd σ',
      (m' ← Board.liftPure (Board.jumpToCard idx m); ret (m', Board.Core cmdNil)) σ
      = Some ((m', cmd), σ') ∧ boardOk m' σ').
  { intros idx. destruct (jumpToCard_ok idx m Hv) as (m' & Hrun & _ & Hv').
    unfold bind, Board.liftPure. rewrite Hrun. by eexists _, _, _. }
  case_decide; [by eexists _, _, _|].
  case_decide; [by eexists _, _, _|].
  case_decide; [by eexists _, _, _|].
  case_decide.
  { case_decide; [|by eexists _, _, _].
    eexists _, _, _. split; [reflexivity|]. split_and!; try done.
    apply adjustColumnScroll_viewOk, set_selectedColumn_viewOk; [done|].
    destruct Hv as (? & ? & _). lia. }
  case_decide.
  { case_decide; [|by eexists _, _, _].
    eexists _, _, _. split; [reflexivity|]. split_and!; try done.
    apply adjustColumnScroll_viewOk, set_selectedColumn_viewOk; [done|].
    destruct Hv as (? & ? & _). lia. }
  case_decide; [apply Hmove|].
  case_decide; [apply Hmove|].
  case_decide; [apply Hjump|].
  case_decide; [apply Hjump|].
  case_decide; [apply Hmove|].
  case_decide; [apply Hmove|].
  case_decide.
  { unfold bind. destruct (getSelectedCard_run m σ Hv) as (r & -> & _).
    destruct r; by eexists _, _, _. }
  case_decide.
  { unfold bind at 1. destruct (getSelectedCard_run m σ Hv) as (r & -> & Hr).
    destruct r as [p|]; [|by eexists _, _, _].
    destruct (Hr p eq_refl) as (colID & itemID & _ & _ & Hp).
    pose proof Hwf as (Hc & _ & _). destruct (Hc _ _ Hp) as [c Hpc].
    unfold bind, loadCard. rewrite Hpc. case_decide; by eexists _, _, _. }
  case_decide; [by eexists _, _, _|].
  case_decide; [by eexists _, _, _|].
  case_decide.
  { unfold bind.
    destruct (applyFilter_ok
                (Board.with_view
                   (Board.set_filterMyOnly (negb (Board.filterMyOnly (Board.view m)))) m) σ)
      as (m' & σ' & -> & Hok'); [done|].
    by eexists _, _, _. }
  case_decide.
  { unfold bind. destruct (getSelectedCard_run m σ Hv) as (r & -> & _).
    destruct r; by eexists _, _, _. }
  by eexists _, _, _.
Qed.

Lemma handleKeyPress_ok inputValue m key σ :
  boardOk m σ →
  ∃ m' cmd σ',
    Board.handleKeyPress toLower equalFold inputValue m key σ = Some ((m', cmd), σ')
    ∧ boardOk m' σ'.
Proof.
  intros Hok. unfold Board.handleKeyPress.
  case_decide; [by eexists _, _, _|].
  destruct (Board.showHelp (Board.view m)).
  { case_decide; by eexists _, _, _. }
  destruct (Board.filterMode (Board.view m)).
  { case_decide.
    - unfold bind.
      destruct (applyFilter_ok
                  (Board.with_view
                     (λ v, Board.set_filterText inputValue (Board.set_filterMode false v)) m)
                  σ) as (m' & σ' & -> & Hok'); [done|].
      by eexists _, _, _.
    - case_decide; by eexists _, _, _. }
  destruct (moveMode (Board.ctl m)).
  { unfold bind. destruct (handleMoveMode_ok m key σ Hok) as (m' & cmd & σ' & -> & Hok').
    by eexists _, _, _. }
  by apply navigate_ok.
Qed.

(** X15.  The selections of the board never leave their range and no
    handler indexes out of range: a new board is in order, and from a board
    and a store in order Update returns for every message (with card
    pointers that point to objects) and every key, and leaves the board and
    the store in order again.  In order means: the selected column is a
    column of the board, every selected index is the index of a card of its
    list (0 for an empty list), the pointers of the store point to objects
    and the column index is the one computed from the cards. *)
Theorem Update_keeps_board_in_order (inputValue : string) (m : Board.Model)
    (msg : Board.Msg) (σ : State) :
  (∀ h, boardOk Board.NewBoardModel (New h))
  ∧ (boardOk m σ → validMsg σ msg →
     ∃ m' cmd σ',
       Board.Update toLower equalFold inputValue m msg σ = Some ((m', cmd), σ')
       ∧ boardOk m' σ').
Proof.
  split.
  { intros h. split_and!; [apply wf_New|apply indexed_New|apply viewOk_New]. }
  intros Hok Hvalid. pose proof Hok as (Hwf & Hi & Hv).
  assert (Hrefresh : ∀ m1 σ1, boardOk m1 σ1 →
    ∃ m' σ', Board.refresh toLower equalFold m1 σ1 = Some (m', σ') ∧ boardOk m' σ').
  { intros m1 σ1 Hok1.
    destruct (refresh_run m1 σ1 Hok1) as (m' & σ' & Hrun & _ & _ & _ & Hok').
    by exists m', σ'. }
  destruct msg as [w h| |msg| |key]; simpl.
  - by eexists _, _, _.
  - unfold bind. destruct (Hrefresh m σ Hok) as (m' & σ' & -> & Hok').
    by eexists _, _, _.
  - destruct msg as [|e| |e|cs next more [e|]]; simpl.
    + unfold bind.
      destruct (Hrefresh (Board.with_ctl
                            (λ b, set_loadingMore false (set_loading false b)) m) σ)
        as (m' & σ' & -> & Hok'); [done|].
      by eexists _, _, _.
    + by eexists _, _, _.
    + unfold bind.
      destruct (Hrefresh (Board.with_ctl (set_moveMode false) m) σ)
        as (m' & σ' & -> & Hok'); [done|].
      by eexists _, _, _.
    + unfold bind at 1.
      assert (Hroll : ∃ r σ1, RollbackMove σ = Some (r, σ1) ∧ wf σ1 ∧ indexed σ1).
      { destruct (rollbackCard (st σ)) as [rb|] eqn:Hrb.
        - destruct Hwf as (Hc & Hr & Hcol). pose proof Hr as Hr'.
          unfold rollbackOk in Hr'. rewrite Hrb in Hr'. destruct Hr' as [c Hrbc].
          destruct (RollbackMove_effect σ rb c) as (σ2 & -> & Hwf2 & Hi2 & _);
            [by split_and!|done..|].
          by eexists _, _.
        - rewrite RollbackMove_none by done. by eexists _, _. }
      destruct Hroll as (r & σ1 & -> & Hwf1 & Hi1). unfold bind.
      destruct (Hrefresh m σ1) as (m' & σ' & -> & Hok'); [by split_and!|].
      by eexists _, _, _.
    + by eexists _, _, _.
    + unfold bind at 1. simpl in Hvalid.
      destruct Hwf as (Hc & Hr & Hcol).
      destruct (UpsertCards_run cs σ Hc Hvalid) as (σ1 & -> & Hreb).
      destruct (rebuilt_wf_indexed _ _ Hreb) as [Hwf1 Hi1].
      { unfold cardsOk. simpl. by apply upsertAll_cardsOk. }
      { done. }
      unfold bind. destruct (Hrefresh m σ1) as (m' & σ' & -> & Hok'); [by split_and!|].
      destruct (more && negb (bool_decide (next = ""))); by eexists _, _, _.
  - by eexists _, _, _.
  - by apply handleKeyPress_ok.
Qed.

End board_invariant.

Lemma Update_keeps_board_in_order_witness :
  boardOk textFilterModel testState
  ∧ validMsg testState (Board.KeyMsg "j")
  ∧ (∀ h, boardOk Board.NewBoardModel (New h))
  ∧ ∃ m' cmd σ',
      Board.Update lowerASCII EqualFold "" textFilterModel (Board.KeyMsg "j") testState
      = Some ((m', cmd), σ')
      ∧ boardOk m' σ'.
Proof.
  assert (Hok : boardOk textFilterModel testState).
  { split; [apply testState_wf|].
    split; [apply reachable_wf_indexed, testState_reachable|].
    unfold viewOk. simpl. split_and!; done. }
  split; [exact Hok|]. split; [exact I|].
  destruct (Update_keeps_board_in_order lowerASCII EqualFold "" textFilterModel
              (Board.KeyMsg "j") testState) as [Hnew Hstep].
  split; [exact Hnew|]. exact (Hstep Hok I).
Defined.
(** * The view of the board: scrolling *)

Section board_scroll.

Lemma wrap_small z : - 2 ^ 63 ≤ z < 2 ^ 63 → Board.wrap z = z.
Proof. intros H. unfold Board.wrap. rewrite Z.mod_small; lia. Qed.

(** Removes the [wrap]s whose argument is in range. *)
Ltac unwrap :=
  repeat match goal with
         | |- context [Board.wrap ?z] => rewrite (wrap_small z) by lia
         end.

Lemma visibleCards_range m :
  small (Board.height (Board.view m)) → 3 ≤ Board.visibleCards m ≤ 2 ^ 61.
Proof.
  unfold small, Board.visibleCards, Board.headerLines. intros H.
  destruct (moveMode (Board.ctl m)), (Board.filterMode (Board.view m));
    unwrap; case_decide; lia.
Qed.

Lemma visibleCards_adjustScroll colID m :
  Board.visibleCards (Board.adjustScroll colID m) = Board.visibleCards m.
Proof.
  unfold Board.visibleCards. rewrite adjustScroll_ctl.
  destruct (adjustScroll_view colID m) as (_ & off & ->). done.
Qed.

(** After [adjustScroll] the selected card of the column is inside the
    window, and the window has not moved if the card was inside before. *)
Lemma adjustScroll_visible colID m :
  let i := Board.intAt (Board.selectedCard (Board.view m)) colID in
  let o := Board.intAt (Board.scrollOffset (Board.view m)) colID in
  small (Board.height (Board.view m)) → 0 ≤ i ≤ 2 ^ 61 → 0 ≤ o ≤ 2 ^ 61 →
  cardVisible (Board.adjustScroll colID m) colID
  ∧ Board.intAt (Board.selectedCard (Board.view (Board.adjustScroll colID m))) colID = i
  ∧ (o ≤ i < o + Board.visibleCards m →
     Board.intAt (Board.scrollOffset (Board.view (Board.adjustScroll colID m))) colID = o).
Proof.
  intros i o Hh Hi Ho. unfold cardVisible. rewrite visibleCards_adjustScroll.
  pose proof (visibleCards_range m Hh) as Hv.
  unfold Board.adjustScroll. fold i o.
  rewrite (wrap_small (o + Board.visibleCards m)) by lia.
  rewrite (wrap_small (i - Board.visibleCards m)) by lia.
  rewrite (wrap_small (i - Board.visibleCards m + 1)) by lia.
  repeat case_decide; view_simpl; rewrite ?intAt_insert, ?decide_True by done;
    fold i o; lia.
Qed.

(** X16.  Moving the card selection keeps it on a card and inside the
    scroll window.  With delta the selection of the selected column moves
    by delta and stops at the first and at the last card; jumpToCard goes to the card
    with the index, and to the last card for a negative or too large
    index; in both cases the scroll offset of the column is at most the
    selected index afterwards, and less than visibleCards below it.  In an
    empty column both do nothing. *)
Theorem card_selection_stays_in_window (m : Board.Model) (colID : string) (delta idx : Z) :
  let ids := Board.idsAt (Board.filteredCards (Board.view m)) colID in
  let i := Board.intAt (Board.selectedCard (Board.view m)) colID in
  viewOk (Board.view m) →
  Board.elemAt (Board.columns (Board.view m)) (Board.selectedColumn (Board.view m))
  = Some colID →
  small (Board.height (Board.view m)) → small delta → small idx →
  Board.len ids ≤ 2 ^ 61 →
  0 ≤ Board.intAt (Board.scrollOffset (Board.view m)) colID ≤ 2 ^ 61 →
  ∃ m1 m2,
    Board.moveCardSelection delta m = Some m1
    ∧ Board.jumpToCard idx m = Some m2
    ∧ (ids = [] → m1 = m ∧ m2 = m)
    ∧ (ids ≠ [] →
       Board.intAt (Board.selectedCard (Board.view m1)) colID
       = Z.max 0 (Z.min (Board.len ids - 1) (i + delta))
       ∧ cardVisible m1 colID
       ∧ Board.intAt (Board.selectedCard (Board.view m2)) colID
         = (if decide (0 ≤ idx < Board.len ids) then idx else Board.len ids - 1)
       ∧ cardVisible m2 colID).
Proof.
  intros ids i Hv Hcol Hh Hd Hidx Hlen Ho.
  pose proof (elemAt_range _ _ _ Hcol) as Hrange.
  assert (Hcols : Board.len (Board.columns (Board.view m)) ≠ 0) by lia.
  unfold Board.moveCardSelection, Board.jumpToCard.
  rewrite !decide_False by done. rewrite Hcol. fold ids i.
  destruct (decide (Board.len ids = 0)) as [Hz|Hnz].
  { eexists _, _. split; [reflexivity|]. split; [reflexivity|]. split; [done|].
    intros Hne. destruct ids; [done|]. unfold Board.len in Hz. simpl in Hz. lia. }
  eexists _, _. split; [reflexivity|]. split; [reflexivity|]. split.
  { intros Hnil. rewrite Hnil in Hnz. done. }
  intros _.
  assert (Hpos : 1 ≤ Board.len ids) by (unfold Board.len in *; lia).
  assert (Hi : 0 ≤ i ≤ Board.len ids - 1).
  { destruct Hv as (_ & _ & H2 & H3). split; [by apply intAt_nonneg|].
    unfold ids, Board.idsAt in *.
    destruct (Board.filteredCards (Board.view m) !! colID) as [l|] eqn:Hl; [|done].
    specialize (H3 _ _ Hl). simpl in *. fold i in H3. lia. }
  unfold small in Hd, Hidx.
  rewrite (wrap_small (i + delta)) by lia.
  set (n1 := if decide (Board.len ids ≤ (if decide (i + delta < 0) then 0 else i + delta))
             then Board.len ids - 1
             else if decide (i + delta < 0) then 0 else i + delta).
  set (n2 := if decide (Board.len ids ≤ (if decide (idx < 0) then Board.len ids - 1 else idx))
             then Board.len ids - 1
             else if decide (idx < 0) then Board.len ids - 1 else idx).
  assert (Hn1 : n1 = Z.max 0 (Z.min (Board.len ids - 1) (i + delta))).
  { unfold n1. repeat case_decide; lia. }
  assert (Hn2 : n2 = if decide (0 ≤ idx < Board.len ids) then idx else Board.len ids - 1).
  { unfold n2. repeat case_decide; lia. }
  assert (Hadj : ∀ n, 0 ≤ n ≤ Board.len ids - 1 →
    let m' := Board.adjustScroll colID
                (Board.with_view
                   (λ v, Board.set_selectedCard (<[colID := n]> (Board.selectedCard v)) v) m) in
    Board.intAt (Board.selectedCard (Board.view m')) colID = n ∧ cardVisible m' colID).
  { intros n Hn m'.
    destruct (adjustScroll_visible colID
                (Board.with_view
                   (λ v, Board.set_selectedCard (<[colID := n]> (Board.selectedCard v)) v) m))
      as (Hvis & Hsel & _); view_simpl; rewrite ?intAt_insert, ?decide_True by done;
      try done; try lia.
    split; [|done]. unfold m'. rewrite Hsel. view_simpl.
    by rewrite intAt_insert, decide_True. }
  destruct (Hadj n1) as [H1 H1']; [lia|].
  destruct (Hadj n2) as [H2 H2']; [rewrite Hn2; case_decide; lia|].
  fold n1 n2. rewrite <- Hn1, <- Hn2. by split_and!.
Qed.

Lemma visibleCols_range v :
  Board.len (Board.columns v) ≠ 0 →
  1 ≤ Board.visibleCols v ≤ Board.len (Board.columns v).
Proof.
  intros Hne. unfold Board.visibleCols, Board.len in *. repeat case_decide; lia.
Qed.

(** After [adjustColumnScroll] the selected column is inside the window. *)
Lemma adjustColumnScroll_visible m :
  Board.len (Board.columns (Board.view m)) ≠ 0 →
  Board.width (Board.view m) ≠ 0 →
  Board.len (Board.columns (Board.view m)) ≤ 2 ^ 61 →
  small (Board.columnOffset (Board.view m)) →
  0 ≤ Board.selectedColumn (Board.view m) < Board.len (Board.columns (Board.view m)) →
  columnVisible (Board.view (Board.adjustColumnScroll m))
  ∧ Board.selectedColumn (Board.view (Board.adjustColumnScroll m))
    = Board.selectedColumn (Board.view m)
  ∧ (columnVisible (Board.view m) →
     Board.columnOffset (Board.view (Board.adjustColumnScroll m))
     = Board.columnOffset (Board.view m)).
Proof.
  intros Hne Hw Hlen Hco Hsc. unfold small in Hco.
  pose proof (visibleCols_range _ Hne) as Hvis.
  unfold columnVisible, Board.adjustColumnScroll.
  rewrite decide_False by tauto.
  rewrite (wrap_small (Board.columnOffset (Board.view m) + _)) by lia.
  rewrite (wrap_small (Board.selectedColumn (Board.view m) - _)) by lia.
  rewrite (wrap_small (Board.selectedColumn (Board.view m) - _ + 1)) by lia.
  repeat case_decide; view_simpl;
    change (Board.visibleCols (Board.set_columnOffset ?x ?v)) with (Board.visibleCols v);
    lia.
Qed.

(** X17.  The keys h and l (left and right) move the column selection by
    one and stop at the first and at the last column; when the selection
    moves, and the width of the window is known, the column offset is at
    most the selected column afterwards, and less than visibleCols below
    it.  Nothing else of the board and nothing of the store changes. *)
Theorem column_selection_stays_in_window (toLower : string → string)
    (equalFold : string → string → bool) (m : Board.Model) (key : string) (σ : State) :
  let v := Board.view m in
  let last := Z.max (Board.len (Board.columns v) - 1) 0 in
  viewOk v →
  Board.len (Board.columns v) ≤ 2 ^ 61 → small (Board.columnOffset v) →
  key = "h" ∨ key = "left" ∨ key = "l" ∨ key = "right" →
  ∃ m',
    Board.navigate toLower equalFold m key σ = Some ((m', Board.Core cmdNil), σ)
    ∧ Board.selectedColumn (Board.view m')
      = (if decide (key = "h" ∨ key = "left")
         then Z.max 0 (Board.selectedColumn v - 1)
         else Z.min last (Board.selectedColumn v + 1))
    ∧ (Board.selectedColumn (Board.view m') ≠ Board.selectedColumn v →
       Board.width v ≠ 0 → columnVisible (Board.view m'))
    ∧ Board.view m'
      = Board.set_columnOffset (Board.columnOffset (Board.view m'))
          (Board.set_selectedColumn (Board.selectedColumn (Board.view m')) v)
    ∧ Board.ctl m' = Board.ctl m.
Proof.
  intros v last Hv Hlen Hco Hkey. pose proof Hv as (H0 & H1 & _).
  unfold Board.navigate. fold v.
  rewrite (decide_False (P := key = "q")) by (by destruct Hkey as [-> | [-> | [-> | ->]]]).
  rewrite (decide_False (P := key = "?")) by (by destruct Hkey as [-> | [-> | [-> | ->]]]).
  rewrite (decide_False (P := key = "/")) by (by destruct Hkey as [-> | [-> | [-> | ->]]]).
  assert (Hview : ∀ m1, Board.view (Board.adjustColumnScroll m1)
            = Board.set_columnOffset
                (Board.columnOffset (Board.view (Board.adjustColumnScroll m1)))
                (Board.view m1)).
  { intros m1. unfold Board.adjustColumnScroll.
    repeat case_decide; view_simpl; by destruct (Board.view m1). }
  assert (Hsame : v = Board.set_columnOffset (Board.columnOffset v)
                        (Board.set_selectedColumn (Board.selectedColumn v) v)).
  { by destruct v. }
  destruct (decide (key = "h" ∨ key = "left")) as [Hh|Hnh].
  - destruct (decide (0 < Board.selectedColumn v)) as [Hpos|Hnpos].
    + eexists. split; [reflexivity|].
      set (m1 := Board.with_view (Board.set_selectedColumn (Board.selectedColumn v - 1)) m).
      assert (Hne : Board.len (Board.columns (Board.view m1)) ≠ 0).
      { unfold m1. view_simpl. fold v. lia. }
      split_and!.
      * rewrite Hview. unfold m1. view_simpl. fold v. lia.
      * intros _ Hw.
        apply adjustColumnScroll_visible; unfold m1; view_simpl; fold v; try done; lia.
      * rewrite Hview. unfold m1. view_simpl. by destruct (Board.view m).
      * by rewrite adjustColumnScroll_ctl.
    + eexists. split; [reflexivity|]. split_and!; try done. fold v. lia.
  - assert (Hl : key = "l" ∨ key = "right") by tauto.
    rewrite (decide_True (P := key = "l" ∨ key = "right")) by done.
    destruct (decide (Board.selectedColumn v < Board.len (Board.columns v) - 1))
      as [Hlt|Hnlt].
    + eexists. split; [reflexivity|].
      set (m1 := Board.with_view (Board.set_selectedColumn (Board.selectedColumn v + 1)) m).
      assert (Hne : Board.len (Board.columns (Board.view m1)) ≠ 0).
      { unfold m1. view_simpl. fold v. lia. }
      split_and!.
      * rewrite Hview. unfold m1, last. view_simpl. fold v. lia.
      * intros _ Hw.
        apply adjustColumnScroll_visible; unfold m1; view_simpl; fold v; try done; lia.
      * rewrite Hview. unfold m1. view_simpl. by destruct (Board.view m).
      * by rewrite adjustColumnScroll_ctl.
    + eexists. split; [reflexivity|]. split_and!; try done. fold v. unfold last. lia.
Qed.

End board_scroll.

Lemma card_selection_stays_in_window_witness :
  let ids := Board.idsAt (Board.filteredCards (Board.view scrollModel)) NoStatusKey in
  let i := Board.intAt (Board.selectedCard (Board.view scrollModel)) NoStatusKey in
  viewOk (Board.view scrollModel)
  ∧ Board.elemAt (Board.columns (Board.view scrollModel))
                 (Board.selectedColumn (Board.view scrollModel)) = Some NoStatusKey
  ∧ small (Board.height (Board.view scrollModel)) ∧ small 10 ∧ small (-1)
  ∧ Board.len ids ≤ 2 ^ 61
  ∧ 0 ≤ Board.intAt (Board.scrollOffset (Board.view scrollModel)) NoStatusKey ≤ 2 ^ 61
  ∧ ∃ m1 m2,
      Board.moveCardSelection 10 scrollModel = Some m1
      ∧ Board.jumpToCard (-1) scrollModel = Some m2
      ∧ (ids = [] → m1 = scrollModel ∧ m2 = scrollModel)
      ∧ (ids ≠ [] →
         Board.intAt (Board.selectedCard (Board.view m1)) NoStatusKey
         = Z.max 0 (Z.min (Board.len ids - 1) (i + 10))
         ∧ cardVisible m1 NoStatusKey
         ∧ Board.intAt (Board.selectedCard (Board.view m2)) NoStatusKey
           = (if decide (0 ≤ -1 < Board.len ids) then -1 else Board.len ids - 1)
         ∧ cardVisible m2 NoStatusKey).
Proof.
  assert (Hv : viewOk (Board.view scrollModel)).
  { unfold viewOk. simpl. split_and!; try done.
    intros k ids Hk. unfold Board.intAt. rewrite lookup_empty. simpl.
    unfold Board.len. lia. }
  assert (Hcol : Board.elemAt (Board.columns (Board.view scrollModel))
                   (Board.selectedColumn (Board.view scrollModel)) = Some NoStatusKey).
  { reflexivity. }
  assert (Hh : small (Board.height (Board.view scrollModel))).
  { unfold small. simpl. lia. }
  assert (Hd : small 10) by (unfold small; lia).
  assert (Hidx : small (-1)) by (unfold small; lia).
  assert (Hlen : Board.len (Board.idsAt (Board.filteredCards (Board.view scrollModel))
                              NoStatusKey) ≤ 2 ^ 61).
  { vm_compute. discriminate. }
  assert (Ho : 0 ≤ Board.intAt (Board.scrollOffset (Board.view scrollModel)) NoStatusKey
               ≤ 2 ^ 61).
  { vm_compute. split; discriminate. }
  split; [exact Hv|]. split; [exact Hcol|]. split; [exact Hh|]. split; [exact Hd|].
  split; [exact Hidx|]. split; [exact Hlen|]. split; [exact Ho|].
  exact (card_selection_stays_in_window scrollModel NoStatusKey 10 (-1)
           Hv Hcol Hh Hd Hidx Hlen Ho).
Defined.

(** The scenario, run: in a window of 10 lines [adjustScroll] counts four
    cards; ten cards down from the first card the scroll offset is 7, and
    for G, on the last card, it is 96. *)
Example page_down_scrolls :
  ∃ m1 m2,
    Board.moveCardSelection Board.pageJumpSize scrollModel = Some m1
    ∧ Board.jumpToCard (-1) scrollModel = Some m2
    ∧ Board.visibleCards m1 = 4
    ∧ Board.selectedCard (Board.view m1) !! NoStatusKey = Some 10
    ∧ Board.scrollOffset (Board.view m1) !! NoStatusKey = Some 7
    ∧ Board.selectedCard (Board.view m2) !! NoStatusKey = Some 99
    ∧ Board.scrollOffset (Board.view m2) !! NoStatusKey = Some 96.
Proof.
  eexists _, _. split; [vm_compute; reflexivity|]. split; [vm_compute; reflexivity|].
  vm_compute. by split_and!.
Qed.

Lemma column_selection_stays_in_window_witness :
  let v := Board.view scrollModel in
  let last := Z.max (Board.len (Board.columns v) - 1) 0 in
  viewOk v
  ∧ Board.len (Board.columns v) ≤ 2 ^ 61 ∧ small (Board.columnOffset v)
  ∧ ("h" = "h" ∨ "h" = "left" ∨ "h" = "l" ∨ "h" = "right")
  ∧ ∃ m',
      Board.navigate lowerASCII EqualFold scrollModel "h" testState
      = Some ((m', Board.Core cmdNil), testState)
      ∧ Board.selectedColumn (Board.view m')
        = (if decide ("h" = "h" ∨ "h" = "left")
           then Z.max 0 (Board.selectedColumn v - 1)
           else Z.min last (Board.selectedColumn v + 1))
      ∧ (Board.selectedColumn (Board.view m') ≠ Board.selectedColumn v →
         Board.width v ≠ 0 → columnVisible (Board.view m'))
      ∧ Board.view m'
        = Board.set_columnOffset (Board.columnOffset (Board.view m'))
            (Board.set_selectedColumn (Board.selectedColumn (Board.view m')) v)
      ∧ Board.ctl m' = Board.ctl scrollModel.
Proof.
  assert (Hv : viewOk (Board.view scrollModel)).
  { unfold viewOk. simpl. split_and!; try done.
    intros k ids Hk. unfold Board.intAt. rewrite lookup_empty. simpl.
    unfold Board.len. lia. }
  assert (Hlen : Board.len (Board.columns (Board.view scrollModel)) ≤ 2 ^ 61).
  { vm_compute. discriminate. }
  assert (Hco : small (Board.columnOffset (Board.view scrollModel))).
  { unfold small. simpl. lia. }
  assert (Hkey : "h" = "h" ∨ "h" = "left" ∨ "h" = "l" ∨ "h" = "right") by (by left).
  split; [exact Hv|]. split; [exact Hlen|]. split; [exact Hco|]. split; [exact Hkey|].
  exact (column_selection_stays_in_window lowerASCII EqualFold scrollModel "h" testState
           Hv Hlen Hco Hkey).
Defined.
(** * The view of the board: the selected card and its moves *)

Section board_select.
Context (toLower : string → string) (equalFold : string → string → bool).

Lemma keyed_heapSub σ σ' :
  cardsOk σ → keyed σ → st σ' = st σ → heapSub (mem σ) (mem σ') → keyed σ'.
Proof.
  intros Hc Hk Hst (Hsub & _) itemID p c. rewrite Hst. intros Hp Hpc.
  destruct (Hc _ _ Hp) as [d Hd].
  pose proof (lookup_weaken _ _ _ _ Hd Hsub) as Hd'.
  apply (Hk itemID p d Hp) in Hd as Hid. congruence.
Qed.

(** What [getSelectedCard] returns on a board in order: nil for an empty
    list, otherwise what [GetCard] finds for the identity at the selected
    index of the selected column's list. *)
Lemma getSelectedCard_spec m σ :
  viewOk (Board.view m) →
  Board.len (Board.columns (Board.view m)) ≠ 0 →
  ∃ colID,
    Board.elemAt (Board.columns (Board.view m)) (Board.selectedColumn (Board.view m))
    = Some colID
    ∧ (Board.idsAt (Board.filteredCards (Board.view m)) colID = [] →
       Board.getSelectedCard m σ = Some (None, σ))
    ∧ (Board.idsAt (Board.filteredCards (Board.view m)) colID ≠ [] →
       ∃ itemID,
         Board.elemAt (Board.idsAt (Board.filteredCards (Board.view m)) colID)
                      (Board.intAt (Board.selectedCard (Board.view m)) colID)
         = Some itemID
         ∧ Board.getSelectedCard m σ = Some (cards (st σ) !! itemID, σ)).
Proof.
  intros Hv Hcols.
  destruct (elemAt_is_Some (Board.columns (Board.view m))
              (Board.selectedColumn (Board.view m))) as [colID Hcol].
  { by apply viewOk_columns_nonempty. }
  exists colID. split; [done|]. unfold Board.getSelectedCard.
  rewrite decide_False by done. rewrite Hcol.
  set (ids := Board.idsAt (Board.filteredCards (Board.view m)) colID).
  split.
  - intros ->. by rewrite decide_True.
  - intros Hne.
    assert (Hlen : 1 ≤ Board.len ids).
    { destruct ids; [done|]. unfold Board.len. simpl. lia. }
    rewrite decide_False by lia.
    assert (Hi : 0 ≤ Board.intAt (Board.selectedCard (Board.view m)) colID
                 ≤ Board.len ids - 1).
    { destruct Hv as (_ & _ & H2 & H3). split; [by apply intAt_nonneg|].
      unfold ids, Board.idsAt in *.
      destruct (Board.filteredCards (Board.view m) !! colID) as [l|] eqn:Hl; [|done].
      specialize (H3 _ _ Hl). simpl in *. lia. }
    rewrite decide_False by lia.
    destruct (elemAt_is_Some ids (Board.intAt (Board.selectedCard (Board.view m)) colID))
      as [itemID Hitem]; [lia|].
    exists itemID. split; [done|]. rewrite Hitem.
    unfold GetCard, bind, getStore. by destruct (cards (st σ) !! itemID).
Qed.

(** X18.  After a refresh of the board, with a grouping field set, the
    selected card is a card of the selected column: getSelectedCard
    returns nil exactly when the list of the selected column is empty, and
    otherwise the pointer of a stored card that passes the filters and
    whose column key is the selected column.  So its group value is empty,
    the key NoStatusKey itself, or an option of the field; a stored card
    whose column key is no column of the board is in no list of a column
    and cannot be selected. *)
Theorem selected_card_is_on_board (m0 m : Board.Model) (σ0 σ : State) (f : FieldDef.t) :
  boardOk m0 σ0 → groupField (st σ0) = Some f →
  Board.refresh toLower equalFold m0 σ0 = Some (m, σ) →
  Board.columns (Board.view m) = (Option.ID <$> FieldDef.Options f) ++ [NoStatusKey]
  ∧ (∃ r colID,
       Board.getSelectedCard m σ = Some (r, σ)
       ∧ Board.elemAt (Board.columns (Board.view m)) (Board.selectedColumn (Board.view m))
         = Some colID
       ∧ (r = None ↔ Board.idsAt (Board.filteredCards (Board.view m)) colID = [])
       ∧ (∀ p, r = Some p →
            ∃ itemID c,
              obsGetCard itemID σ = Some (Some c, None)
              ∧ cards (st σ) !! itemID = Some p
              ∧ columnKey c = colID
              ∧ matchesText toLower (Board.view m) c
              ∧ matchesMine equalFold (Board.view m) (viewerLogin (st σ)) c
              ∧ (Card.GroupOptionID c = "" ∨ Card.GroupOptionID c = NoStatusKey
                 ∨ recognized f (Card.GroupOptionID c))))
  ∧ (∀ itemID c k,
       readCard σ itemID = Some c →
       columnKey c ∉ Board.columns (Board.view m) →
       k ∈ Board.columns (Board.view m) →
       itemID ∉ Board.idsAt (Board.filteredCards (Board.view m)) k).
Proof.
  intros Hok Hf Hrun. pose proof Hok as (Hwf & Hi & Hv0).
  destruct (refresh_run toLower equalFold m0 σ0 Hok)
    as (m' & σ' & Hrun' & Hst & Hsub & _ & (Hwf' & Hi' & Hv)).
  rewrite Hrun in Hrun'. injection Hrun' as <- <-.
  unfold Board.refresh, bind in Hrun.
  destruct (rebuildColumns_run m0 σ0)
    as (m1 & Hrun1 & _ & _ & _ & _ & Htext & Hmine & Hcols).
  rewrite Hrun1, Hf in *. destruct Hcols as [Hcols _].
  destruct (applyFilter_idsAt toLower equalFold m1 σ0 Hwf)
    as (m' & σ' & Hrun2 & _ & _ & _ & Hcols2 & _ & Hids & _); [by rewrite Hf|].
  rewrite Hrun2 in Hrun. injection Hrun as -> ->.
  assert (Hread : ∀ itemID, readCard σ itemID = readCard σ0 itemID).
  { intros itemID. apply heapSub_readCard; [apply Hwf|done..]. }
  assert (Hshown : ∀ itemID,
    shownB toLower equalFold σ0 (Board.view m1) itemID = true
    ↔ ∃ c, readCard σ itemID = Some c ∧ matchesText toLower (Board.view m) c
           ∧ matchesMine equalFold (Board.view m) (viewerLogin (st σ)) c).
  { intros itemID. rewrite shownB_spec. unfold shown. rewrite Hst.
    setoid_rewrite Hread.
    assert (Hview : ∀ c, matchesText toLower (Board.view m1) c
                         ∧ matchesMine equalFold (Board.view m1) (viewerLogin (st σ0)) c
                         ↔ matchesText toLower (Board.view m) c
                           ∧ matchesMine equalFold (Board.view m) (viewerLogin (st σ0)) c).
    { intros c. unfold matchesText, matchesMine.
      destruct (applyFilter_run toLower equalFold m1 σ0 Hwf)
        as (σ2 & fc & sel & off & Hrun3 & _).
      rewrite Hrun2 in Hrun3. injection Hrun3 as -> _. view_simpl. done. }
    split; intros (c & Hc & Hm); exists c; (split; [done|]); by apply Hview. }
  assert (Helem : ∀ k itemID,
    itemID ∈ Board.idsAt (Board.filteredCards (Board.view m)) k
    ↔ ∃ c, readCard σ itemID = Some c ∧ columnKey c = k
           ∧ matchesText toLower (Board.view m) c
           ∧ matchesMine equalFold (Board.view m) (viewerLogin (st σ)) c).
  { intros k itemID. rewrite Hids, list_elem_of_filter, Hshown, indexed_elem by done.
    rewrite <- Hread. split.
    - intros ((c & Hc & Ht & Hm) & (c' & Hc' & ->)). exists c.
      split_and!; try done. congruence.
    - intros (c & Hc & <- & Ht & Hm). split; exists c; by split_and!. }
  assert (Hcolumns : Board.columns (Board.view m)
                     = (Option.ID <$> FieldDef.Options f) ++ [NoStatusKey]).
  { by rewrite Hcols2. }
  split; [done|]. split.
  - assert (Hne : Board.len (Board.columns (Board.view m)) ≠ 0).
    { rewrite Hcolumns. unfold Board.len. rewrite length_app. simpl. lia. }
    destruct (getSelectedCard_spec m σ Hv Hne) as (colID & Hcol & Hnil & Hsome).
    destruct (decide (Board.idsAt (Board.filteredCards (Board.view m)) colID = []))
      as [Hempty|Hnonempty].
    + exists None, colID. split_and!; try done. by apply Hnil.
    + destruct (Hsome Hnonempty) as (itemID & Hitem & Hget).
      apply elemAt_elem in Hitem. pose proof Hitem as Hin.
      apply Helem in Hin as (c & Hc & Hkey & Ht & Hm).
      destruct (cards (st σ) !! itemID) as [p|] eqn:Hp;
        [|by unfold readCard in Hc; rewrite Hp in Hc].
      exists (Some p), colID. split_and!; try done.
      intros p' [= <-]. exists itemID, c. split_and!; try done.
      * rewrite obsGetCard_eq, Hc. by rewrite Hp.
      * apply elemAt_elem in Hcol. rewrite Hcolumns in Hcol.
        unfold columnKey in Hkey. case_decide as Hv0'; [by left|].
        right. apply elem_of_app in Hcol as [Hcol|Hcol%list_elem_of_singleton].
        -- right. unfold recognized. by rewrite Hkey.
        -- left. congruence.
  - intros itemID c k Hc Hnot Hk Hin.
    apply Helem in Hin as (c' & Hc' & Hkey & _).
    rewrite Hc in Hc'. injection Hc' as <-. by rewrite Hkey in Hnot.
Qed.

(** X19.  In move mode only the keys 1 to 9 move a card, and only to one
    of the first nine columns of the board: the command that updates the
    server is returned exactly when the key is a digit within the columns
    and a card is selected; the card has then been moved in the store to
    the option of that column (to the empty value for the column
    NoStatusKey), the board stays as it is, still in move mode, and the
    local move cannot fail.  The keys esc and q leave move mode; every
    other key changes nothing. *)
Theorem move_mode_targets (m : Board.Model) (key : string) (σ : State) :
  boardOk m σ → keyed σ →
  ∃ m' cmd σ',
    Board.handleMoveMode m key σ = Some ((m', cmd), σ')
    ∧ (key = "esc" ∨ key = "q" →
       m' = Board.with_ctl (set_moveMode false) m ∧ cmd = cmdNil ∧ σ' = σ)
    ∧ (¬ (key = "esc" ∨ key = "q") → m' = m)
    ∧ (cmd = cmdNil → σ' = σ)
    ∧ (∀ e, cmd ≠ cmdReturnMoveError e)
    ∧ (∀ c, cmd ≠ cmdLoadNextPage c)
    ∧ (∀ idx colID p,
         Board.digitIndex key = Some idx →
         Board.elemAt (Board.columns (Board.view m)) idx = Some colID →
         Board.getSelectedCard m σ = Some (Some p, σ) →
         cmd = cmdUpdateItemField p (if decide (colID = NoStatusKey) then "" else colID))
    ∧ (∀ p v,
         cmd = cmdUpdateItemField p v →
         ∃ idx colID c,
           Board.digitIndex key = Some idx ∧ 0 ≤ idx < 9
           ∧ Board.elemAt (Board.columns (Board.view m)) idx = Some colID
           ∧ v = (if decide (colID = NoStatusKey) then "" else colID)
           ∧ Board.getSelectedCard m σ = Some (Some p, σ)
           ∧ cardMem (mem σ) !! p = Some c
           ∧ MoveCard (Card.ItemID c) v σ = Some (None, σ')
           ∧ readCard σ' (Card.ItemID c) = Some (Card.set_GroupOptionID v c)
           ∧ Card.ItemID c ∈ readColumns σ' !!! columnOf v).
Proof.
  intros Hok Hk. pose proof Hok as (Hwf & Hi & Hv). unfold Board.handleMoveMode.
  destruct (decide (key = "esc" ∨ key = "q")) as [Hesc|Hnesc].
  { eexists _, _, _. split; [reflexivity|]. split_and!; try done.
    intros idx colID p Hd. by destruct Hesc as [-> | ->]. }
  destruct (Board.digitIndex key) as [idx|] eqn:Hdigit.
  2:{ eexists _, _, _. split; [reflexivity|]. split_and!; try done. }
  assert (Hidx9 : 0 ≤ idx < 9).
  { unfold Board.digitIndex in Hdigit. destruct key as [|a [|]]; try done.
    case_decide; [|done]. injection Hdigit as <-. lia. }
  destruct (decide (0 ≤ idx < Board.len (Board.columns (Board.view m)))) as [Hin|Hout].
  2:{ eexists _, _, _. split; [reflexivity|]. split_and!; try done.
      intros idx' colID p [= <-] Hcol. apply elemAt_range in Hcol. lia. }
  destruct (elemAt_is_Some _ _ Hin) as [colID Hcol]. rewrite Hcol.
  unfold bind at 1. unfold Board.moveCardToColumn. unfold bind at 1.
  destruct (getSelectedCard_run m σ Hv) as (r & Hget & Hr). rewrite Hget.
  destruct r as [p|].
  2:{ eexists _, _, _. split; [reflexivity|]. split_and!; try done. }
  destruct (Hr p eq_refl) as (colID' & itemID & _ & _ & Hp).
  pose proof Hwf as (Hc & _ & _). destruct (Hc _ _ Hp) as [c Hpc].
  pose proof (Hk itemID p c Hp Hpc) as Hid. subst itemID.
  set (v := if decide (colID = NoStatusKey) then "" else colID).
  destruct (MoveCard_effect (Card.ItemID c) v σ p c Hwf Hp Hpc)
    as (σ1 & rb & Hmove & Hwf1 & Hi1 & _ & _ & _ & _ & Hread).
  unfold moveCardToColumn, bind, loadCard. rewrite Hpc. fold v. rewrite Hmove.
  eexists _, _, _. split; [reflexivity|]. split_and!; try done.
  - intros idx' colID0 p0 [= <-] Hcol0 [= <-]. rewrite Hcol in Hcol0.
    injection Hcol0 as <-. done.
  - intros p0 v0 [= <- <-]. exists idx, colID, c. destruct Hidx9.
    split_and!; try done.
    apply indexed_elem; [done|]. eexists. split; [exact Hread|]. done.
Qed.

End board_select.

Lemma testBoard_refreshed :
  Board.refresh lowerASCII EqualFold Board.NewBoardModel testState
  = Some (testBoard.1, testBoard.2).
Proof. vm_compute. reflexivity. Qed.

Lemma NewBoard_testState_ok : boardOk Board.NewBoardModel testState.
Proof.
  split; [apply testState_wf|].
  split; [apply reachable_wf_indexed, testState_reachable|apply viewOk_New].
Qed.

Lemma refresh_ok_keyed (toLower : string → string) (equalFold : string → string → bool)
    m σ m' σ' :
  boardOk m σ → keyed σ →
  Board.refresh toLower equalFold m σ = Some (m', σ') →
  boardOk m' σ' ∧ keyed σ'.
Proof.
  intros Hok Hk Hrun.
  destruct (refresh_run toLower equalFold m σ Hok)
    as (m1 & σ1 & Hrun1 & Hst & Hsub & _ & Hok1).
  rewrite Hrun in Hrun1. injection Hrun1 as <- <-. split; [done|].
  apply (keyed_heapSub σ); [apply Hok|done..].
Qed.

Lemma testBoard_ok : boardOk testBoard.1 testBoard.2 ∧ keyed testBoard.2.
Proof.
  exact (refresh_ok_keyed lowerASCII EqualFold Board.NewBoardModel testState
           testBoard.1 testBoard.2 NewBoard_testState_ok
           (reachable_keyed _ testState_reachable) testBoard_refreshed).
Qed.

Lemma selected_card_is_on_board_witness :
  boardOk Board.NewBoardModel testState
  ∧ groupField (st testState) = Some createTestStatusField
  ∧ Board.refresh lowerASCII EqualFold Board.NewBoardModel testState
    = Some (testBoard.1, testBoard.2)
  ∧ Board.columns (Board.view testBoard.1)
    = (Option.ID <$> FieldDef.Options createTestStatusField) ++ [NoStatusKey]
  ∧ (∃ r colID,
       Board.getSelectedCard testBoard.1 testBoard.2 = Some (r, testBoard.2)
       ∧ Board.elemAt (Board.columns (Board.view testBoard.1))
                      (Board.selectedColumn (Board.view testBoard.1)) = Some colID
       ∧ (r = None ↔ Board.idsAt (Board.filteredCards (Board.view testBoard.1)) colID = [])
       ∧ (∀ p, r = Some p →
            ∃ itemID c,
              obsGetCard itemID testBoard.2 = Some (Some c, None)
              ∧ cards (st testBoard.2) !! itemID = Some p
              ∧ columnKey c = colID
              ∧ matchesText lowerASCII (Board.view testBoard.1) c
              ∧ matchesMine EqualFold (Board.view testBoard.1)
                            (viewerLogin (st testBoard.2)) c
              ∧ (Card.GroupOptionID c = "" ∨ Card.GroupOptionID c = NoStatusKey
                 ∨ recognized createTestStatusField (Card.GroupOptionID c))))
  ∧ (∀ itemID c k,
       readCard testBoard.2 itemID = Some c →
       columnKey c ∉ Board.columns (Board.view testBoard.1) →
       k ∈ Board.columns (Board.view testBoard.1) →
       itemID ∉ Board.idsAt (Board.filteredCards (Board.view testBoard.1)) k).
Proof.
  assert (Hf : groupField (st testState) = Some createTestStatusField).
  { vm_compute. reflexivity. }
  split; [exact NewBoard_testState_ok|]. split; [exact Hf|].
  split; [exact testBoard_refreshed|].
  exact (selected_card_is_on_board lowerASCII EqualFold Board.NewBoardModel testBoard.1
           testState testBoard.2 createTestStatusField NewBoard_testState_ok Hf
           testBoard_refreshed).
Defined.

(** The card of [strayState] has the group value opt_high, which is no
    option of the Status field: after the refresh it is in a list of the
    view that belongs to no column of the board, no column shows it, and
    the item count of the header counts it. *)
Example stray_card_is_not_on_board :
  ∃ m σ,
    Board.refresh lowerASCII EqualFold Board.NewBoardModel strayState = Some (m, σ)
    ∧ Board.columns (Board.view m) = ["opt_todo"; "opt_inprogress"; "opt_done"; NoStatusKey]
    ∧ Board.filteredCards (Board.view m)
      = {[ "opt_todo" := []; "opt_inprogress" := []; "opt_done" := []; NoStatusKey := [];
           "opt_high" := ["item_9"] ]}
    ∧ Board.totalItems (Board.view m) = 1
    ∧ Board.getSelectedCard m σ = Some (None, σ).
Proof.
  eexists _, _. split; [vm_compute; reflexivity|].
  split; [vm_compute; reflexivity|]. split; [vm_compute; reflexivity|].
  split; vm_compute; reflexivity.
Qed.

Lemma move_mode_targets_witness :
  boardOk movingBoard testBoard.2 ∧ keyed testBoard.2
  ∧ ∃ m' cmd σ',
      Board.handleMoveMode movingBoard "3" testBoard.2 = Some ((m', cmd), σ')
      ∧ ("3" = "esc" ∨ "3" = "q" →
         m' = Board.with_ctl (set_moveMode false) movingBoard ∧ cmd = cmdNil
         ∧ σ' = testBoard.2)
      ∧ (¬ ("3" = "esc" ∨ "3" = "q") → m' = movingBoard)
      ∧ (cmd = cmdNil → σ' = testBoard.2)
      ∧ (∀ e, cmd ≠ cmdReturnMoveError e)
      ∧ (∀ c, cmd ≠ cmdLoadNextPage c)
      ∧ (∀ idx colID p,
           Board.digitIndex "3" = Some idx →
           Board.elemAt (Board.columns (Board.view movingBoard)) idx = Some colID →
           Board.getSelectedCard movingBoard testBoard.2 = Some (Some p, testBoard.2) →
           cmd = cmdUpdateItemField p (if decide (colID = NoStatusKey) then "" else colID))
      ∧ (∀ p v,
           cmd = cmdUpdateItemField p v →
           ∃ idx colID c,
             Board.digitIndex "3" = Some idx ∧ 0 ≤ idx < 9
             ∧ Board.elemAt (Board.columns (Board.view movingBoard)) idx = Some colID
             ∧ v = (if decide (colID = NoStatusKey) then "" else colID)
             ∧ Board.getSelectedCard movingBoard testBoard.2 = Some (Some p, testBoard.2)
             ∧ cardMem (mem testBoard.2) !! p = Some c
             ∧ MoveCard (Card.ItemID c) v testBoard.2 = Some (None, σ')
             ∧ readCard σ' (Card.ItemID c) = Some (Card.set_GroupOptionID v c)
             ∧ Card.ItemID c ∈ readColumns σ' !!! columnOf v).
Proof.
  destruct testBoard_ok as [Hok Hk].
  assert (Hok' : boardOk movingBoard testBoard.2).
  { unfold movingBoard. apply boardOk_ctl. exact Hok. }
  split; [exact Hok'|]. split; [exact Hk|].
  exact (move_mode_targets movingBoard "3" testBoard.2 Hok' Hk).
Defined.

(** The key 3 in move mode on the test board: the selected card item_1 of
    the first column goes to the third column, Done. *)
Example move_mode_key_3 :
  ∃ σ',
    Board.handleMoveMode movingBoard "3" testBoard.2
    = Some ((movingBoard, cmdUpdateItemField 1%positive "opt_done"), σ')
    ∧ Card.GroupOptionID <$> readCard σ' "item_1" = Some "opt_done"
    ∧ Board.handleMoveMode movingBoard "9" testBoard.2
      = Some ((movingBoard, cmdNil), testBoard.2)
    ∧ Board.handleMoveMode movingBoard "0" testBoard.2
      = Some ((movingBoard, cmdNil), testBoard.2).
Proof.
  eexists. split; [vm_compute; reflexivity|].
  split; [vm_compute; reflexivity|]. split; vm_compute; reflexivity.
Qed.
(** * The answers of the server, the store and the board *)

Section gh_conversions.

Lemma cardOfNode_ItemID node : Card.ItemID (gh.cardOfNode node) = gh.ItemNode.ID node.
Proof.
  unfold gh.cardOfNode. destruct (gh.ItemNode.Content node); [|done].
  by repeat case_decide.
Qed.

Lemma cardOfNode_GroupOptionID node :
  Card.GroupOptionID (gh.cardOfNode node) = default "" (gh.ItemNode.FieldValueByName node).
Proof.
  unfold gh.cardOfNode. destruct (gh.ItemNode.Content node); [|done].
  by repeat case_decide.
Qed.

Lemma cardOfNode_ContentType node :
  Card.ContentType (gh.cardOfNode node)
  ∈ [ContentTypeIssue; ContentTypePullRequest; ContentTypeDraftIssue; ContentTypePrivate].
Proof.
  unfold gh.cardOfNode. destruct (gh.ItemNode.Content node); [|set_solver].
  repeat case_decide; set_solver.
Qed.

Lemma columnKey_columnOf c : columnKey c = columnOf (Card.GroupOptionID c).
Proof. reflexivity. Qed.

(** X20.  The items of a successful answer of the server become the cards
    of a page, one per node and in the order of the nodes, and when the
    board has handled the page every item is in the store under its node
    id, with one of the four content types, with the option id of the
    answer as its group value, and listed in the column of that value: in
    the column NoStatusKey when the item has no value of the grouping field
    or an empty one.  An item without content, or with a content of an
    unknown type, becomes a Private card with a placeholder title and
    without URL. *)
Theorem GetItems_cards_land_in_columns (resp : gh.ItemsResp.t) (σ : State)
    (m : BoardModel) (cursor0 : string) (net : list Response) :
  wf σ → is_Some (project (st σ)) → is_Some (groupField (st σ)) →
  NoDup (gh.ItemNode.ID <$> gh.ItemsResp.Nodes resp) →
  ∃ cs ps σ1 m' cmd σ',
    gh.GetItems (inr resp)
    = (cs, gh.ItemsResp.EndCursor resp, gh.ItemsResp.HasNextPage resp, None)
    ∧ Card.ItemID <$> cs = gh.ItemNode.ID <$> gh.ItemsResp.Nodes resp
    ∧ loadNextPage cursor0
        (RespPage cs (gh.ItemsResp.EndCursor resp) (gh.ItemsResp.HasNextPage resp) :: net)
        σ
      = Some ((Some (pageLoadedMsg ps (gh.ItemsResp.EndCursor resp)
                       (gh.ItemsResp.HasNextPage resp) None), net), σ1)
    ∧ BoardUpdate m (pageLoadedMsg ps (gh.ItemsResp.EndCursor resp)
                       (gh.ItemsResp.HasNextPage resp) None) σ1
      = Some ((m', cmd), σ')
    ∧ (∀ node, node ∈ gh.ItemsResp.Nodes resp →
         ∃ c, readCard σ' (gh.ItemNode.ID node) = Some c
              ∧ c = gh.cardOfNode node
              ∧ Card.GroupOptionID c = default "" (gh.ItemNode.FieldValueByName node)
              ∧ Card.ContentType c
                ∈ [ContentTypeIssue; ContentTypePullRequest; ContentTypeDraftIssue;
                   ContentTypePrivate]
              ∧ (∀ k, gh.ItemNode.ID node ∈ readColumns σ' !!! k
                      ↔ k = columnOf (default "" (gh.ItemNode.FieldValueByName node)))
              ∧ (gh.ItemNode.Content node = None
                 ∨ (∃ content, gh.ItemNode.Content node = Some content
                               ∧ gh.ContentNode.Typename content
                                 ∉ ["Issue"; "PullRequest"; "DraftIssue"]) →
                 Card.ContentType c = ContentTypePrivate
                 ∧ Card.Title c ∈ ["(private item)"; "(unknown item type)"]
                 ∧ Card.URL c = "" ∧ Card.Number c = 0 ∧ Card.Repo c = "")).
Proof.
  intros Hwf Hproj Hfield Hnd.
  set (cs := gh.cardOfNode <$> gh.ItemsResp.Nodes resp).
  assert (Hids : Card.ItemID <$> cs = gh.ItemNode.ID <$> gh.ItemsResp.Nodes resp).
  { unfold cs. rewrite <- list_fmap_compose. apply list_fmap_ext.
    intros i node _. apply cardOfNode_ItemID. }
  destruct (page_round cs σ Hwf)
    as (ps & σa & σ' & Hptrs & Hups & Hwf' & Hi' & _ & _ & _ & _ & _ & Hin & _).
  pose proof (loadNextPage_page cursor0
                (cs, gh.ItemsResp.EndCursor resp, gh.ItemsResp.HasNextPage resp)
                net σ Hproj Hfield) as Hload.
  unfold pageResponse, pageCards, pageCursor, pageHasMore in Hload. simpl in Hload.
  rewrite Hptrs in Hload.
  pose proof (BoardUpdate_page m ps (gh.ItemsResp.EndCursor resp)
                (gh.ItemsResp.HasNextPage resp) σa) as Hupd.
  rewrite Hups in Hupd.
  assert (Hupd' : ∃ m' cmd,
    BoardUpdate m (pageLoadedMsg ps (gh.ItemsResp.EndCursor resp)
                     (gh.ItemsResp.HasNextPage resp) None) σa
    = Some ((m', cmd), σ')).
  { rewrite Hupd.
    destruct (gh.ItemsResp.HasNextPage resp
              && negb (bool_decide (gh.ItemsResp.EndCursor resp = ""))); by eexists _, _. }
  destruct Hupd' as (m' & cmd & Hupd').
  exists cs, ps, σa, m', cmd, σ'. split; [done|]. split; [done|].
  split; [exact Hload|]. split; [exact Hupd'|].
  intros node Hnode.
  assert (Hc : readCard σ' (gh.ItemNode.ID node) = Some (gh.cardOfNode node)).
  { rewrite <- cardOfNode_ItemID. apply Hin; [by rewrite Hids|].
    unfold cs. apply list_elem_of_fmap. eauto. }
  exists (gh.cardOfNode node). split; [done|]. split; [done|].
  split; [apply cardOfNode_GroupOptionID|]. split; [apply cardOfNode_ContentType|].
  split.
  - intros k. rewrite indexed_elem by done. rewrite Hc.
    rewrite <- cardOfNode_GroupOptionID, <- columnKey_columnOf. split.
    + by intros (c & [= <-] & ->).
    + intros ->. eauto.
  - unfold gh.cardOfNode. intros [->|(content & -> & Hty)].
    + split_and!; try done. set_solver.
    + rewrite !decide_False by set_solver. split_and!; try done. set_solver.
Qed.

Lemma imap_lookup_Some {A B} (g : nat → A → B) (l : list A) i x :
  l !! i = Some x → imap g l !! i = Some (g i x).
Proof. intros H. by rewrite list_lookup_imap, H. Qed.

(** X21.  The fields of a successful answer keep the order of the answer,
    and a field keeps its options, in the order of the answer, only if its
    type is SINGLE_SELECT.  When such a field becomes the grouping field,
    the columns of the board are its options in that order followed by
    the column NoStatusKey; a field of another type gives a board with
    that one column. *)
Theorem fields_become_columns (nodes : list gh.FieldNode.t) (i : nat)
    (node : gh.FieldNode.t) (m : Board.Model) (σ : State) :
  wf σ → nodes !! i = Some node →
  let ids := if decide (gh.FieldNode.DataType node = FieldTypeSingleSelect)
             then gh.OptionNode.ID <$> gh.FieldNode.Options node else [] in
  ∃ fs f σ1 m',
    gh.GetProjectFields (inr nodes) = (fs, None)
    ∧ length fs = length nodes
    ∧ fs !! i = Some f
    ∧ FieldDef.ID f = gh.FieldNode.ID node
    ∧ FieldDef.Name f = gh.FieldNode.Name node
    ∧ FieldDef.Type_ f = gh.FieldNode.DataType node
    ∧ FieldDef.Order f = Z.of_nat i
    ∧ Option.ID <$> FieldDef.Options f = ids
    ∧ (∀ j o, FieldDef.Options f !! j = Some o → Option.Order o = Z.of_nat j)
    ∧ SetGroupField (Some f) σ = Some (tt, σ1)
    ∧ Board.rebuildColumns m σ1 = Some (m', σ1)
    ∧ Board.columns (Board.view m') = ids ++ [NoStatusKey].
Proof.
  intros (Hc & _ & _) Hnode ids.
  set (f := gh.fieldOfNode i node).
  destruct (SetGroupField_run (Some f) σ Hc) as (σ1 & Hset & [_ _ _ _ H5 _ _]).
  destruct (rebuildColumns_run m σ1) as (m' & Hreb & _ & _ & _ & _ & _ & _ & Hcols).
  rewrite H5 in Hcols. simpl in Hcols. destruct Hcols as [Hcols _].
  assert (Hopts : Option.ID <$> FieldDef.Options f = ids).
  { unfold f, ids, gh.fieldOfNode. simpl.
    destruct (decide (gh.FieldNode.DataType node = FieldTypeSingleSelect)) as [Hss|Hns].
    - destruct (gh.FieldNode.Options node) as [|o os] eqn:Hos.
      + by rewrite decide_False by (simpl; lia).
      + rewrite decide_True by (simpl; split; [done|lia]).
        rewrite fmap_imap. apply list_eq. intros j.
        rewrite list_lookup_imap, list_lookup_fmap. by destruct ((o :: os) !! j).
    - by rewrite decide_False by tauto. }
  exists (imap gh.fieldOfNode nodes), f, σ1, m'. split_and!; try done.
  - apply length_imap.
  - by apply imap_lookup_Some.
  - intros j o. unfold f, gh.fieldOfNode. simpl. case_decide; [|done].
    rewrite list_lookup_imap. destruct (gh.FieldNode.Options node !! j); [|done].
    by intros [= <-].
  - rewrite <- Hopts. exact Hcols.
Qed.

(** X22.  The closure of resolveOwner stores the login of the viewer when
    the request for the viewer succeeds and changes nothing else; its
    message does not depend on that request: a failed request for the
    owner, or a login that is neither an organization nor a user, gives an
    error message, and a login that is both is resolved as an
    organization. *)
Theorem resolveOwner_outcome (login : string) (viewer : error + gh.ViewerResp.t)
    (owner : error + gh.OwnerResp.t) (σ : State) :
  ∃ msg σ',
    resolveOwner login viewer owner σ = Some (msg, σ')
    ∧ mem σ' = mem σ
    ∧ st σ' = set_viewerLogin
                (match viewer with
                 | inr resp => gh.ViewerResp.Login resp
                 | inl _ => viewerLogin (st σ)
                 end) (st σ)
    ∧ (∀ viewer' σ2, ∃ σ2', resolveOwner login viewer' owner σ2 = Some (msg, σ2'))
    ∧ (∀ resp id, owner = inr resp → gh.OwnerResp.Organization resp = Some id →
         msg = ownerResolvedMsg gh.OwnerTypeOrganization id)
    ∧ (∀ resp id, owner = inr resp → gh.OwnerResp.Organization resp = None →
         gh.OwnerResp.User resp = Some id →
         msg = ownerResolvedMsg gh.OwnerTypeUser id)
    ∧ ((∃ err, msg = ErrorMsg err)
       ↔ (∃ e, owner = inl e)
         ∨ (∃ resp, owner = inr resp ∧ gh.OwnerResp.Organization resp = None
                    ∧ gh.OwnerResp.User resp = None)).
Proof.
  assert (Hmsg : ∃ msg, ∀ viewer' σ2,
    ∃ σ2', resolveOwner login viewer' owner σ2 = Some (msg, σ2')
           ∧ mem σ2' = mem σ2
           ∧ st σ2' = set_viewerLogin
                        (match viewer' with
                         | inr resp => gh.ViewerResp.Login resp
                         | inl _ => viewerLogin (st σ2)
                         end) (st σ2)).
  { unfold resolveOwner.
    destruct (gh.ResolveOwner owner login) as [[ownerType ownerID] [err|]];
      eexists; intros [e|resp] σ2; eexists; (split; [reflexivity|]);
      by destruct σ2 as [h []]. }
  destruct Hmsg as (msg & Hmsg).
  destruct (Hmsg viewer σ) as (σ' & Hrun & Hmem & Hst).
  exists msg, σ'. split_and!; try done.
  - intros viewer' σ2. destruct (Hmsg viewer' σ2) as (σ2' & ? & _). eauto.
  - intros resp id -> Horg. unfold resolveOwner, gh.ResolveOwner in Hrun.
    rewrite Horg in Hrun. destruct viewer; by injection Hrun as <- _.
  - intros resp id -> Horg Husr. unfold resolveOwner, gh.ResolveOwner in Hrun.
    rewrite Horg, Husr in Hrun. destruct viewer; by injection Hrun as <- _.
  - unfold resolveOwner, gh.ResolveOwner in Hrun.
    destruct owner as [e|[[org|] [usr|]]]; simpl in Hrun;
      destruct viewer; injection Hrun as <- _; split;
      try (intros [? [=]]); try (by eauto); try (intros [[? [=]]|(? & [= <-] & ? & ?)]);
      simplify_eq/=; eauto.
Qed.

End gh_conversions.

Lemma GetItems_cards_land_in_columns_witness :
  wf boardState ∧ is_Some (project (st boardState))
  ∧ is_Some (groupField (st boardState))
  ∧ NoDup (gh.ItemNode.ID <$> gh.ItemsResp.Nodes testItems)
  ∧ ∃ cs ps σ1 m' cmd σ',
      gh.GetItems (inr testItems)
      = (cs, gh.ItemsResp.EndCursor testItems, gh.ItemsResp.HasNextPage testItems, None)
      ∧ Card.ItemID <$> cs = gh.ItemNode.ID <$> gh.ItemsResp.Nodes testItems
      ∧ loadNextPage ""
          (RespPage cs (gh.ItemsResp.EndCursor testItems)
             (gh.ItemsResp.HasNextPage testItems) :: [])
          boardState
        = Some ((Some (pageLoadedMsg ps (gh.ItemsResp.EndCursor testItems)
                         (gh.ItemsResp.HasNextPage testItems) None), []), σ1)
      ∧ BoardUpdate newBoard (pageLoadedMsg ps (gh.ItemsResp.EndCursor testItems)
                                (gh.ItemsResp.HasNextPage testItems) None) σ1
        = Some ((m', cmd), σ')
      ∧ (∀ node, node ∈ gh.ItemsResp.Nodes testItems →
           ∃ c, readCard σ' (gh.ItemNode.ID node) = Some c
                ∧ c = gh.cardOfNode node
                ∧ Card.GroupOptionID c = default "" (gh.ItemNode.FieldValueByName node)
                ∧ Card.ContentType c
                  ∈ [ContentTypeIssue; ContentTypePullRequest; ContentTypeDraftIssue;
                     ContentTypePrivate]
                ∧ (∀ k, gh.ItemNode.ID node ∈ readColumns σ' !!! k
                        ↔ k = columnOf (default "" (gh.ItemNode.FieldValueByName node)))
                ∧ (gh.ItemNode.Content node = None
                   ∨ (∃ content, gh.ItemNode.Content node = Some content
                                 ∧ gh.ContentNode.Typename content
                                   ∉ ["Issue"; "PullRequest"; "DraftIssue"]) →
                   Card.ContentType c = ContentTypePrivate
                   ∧ Card.Title c ∈ ["(private item)"; "(unknown item type)"]
                   ∧ Card.URL c = "" ∧ Card.Number c = 0 ∧ Card.Repo c = "")).
Proof.
  assert (Hwf : wf boardState).
  { apply (bool_decide_unpack (wf boardState)). vm_compute. exact I. }
  assert (Hp : is_Some (project (st boardState))) by (vm_compute; eauto).
  assert (Hf : is_Some (groupField (st boardState))) by (vm_compute; eauto).
  assert (Hnd : NoDup (gh.ItemNode.ID <$> gh.ItemsResp.Nodes testItems)).
  { apply (bool_decide_unpack (NoDup _)). vm_compute. exact I. }
  split; [exact Hwf|]. split; [exact Hp|]. split; [exact Hf|]. split; [exact Hnd|].
  exact (GetItems_cards_land_in_columns testItems boardState newBoard "" []
           Hwf Hp Hf Hnd).
Defined.

(** The test answer, converted: the node of the unknown type and the node
    without content give Private cards, the draft has no number, body or
    state, and the node without a field value has the empty group
    value. *)
Example GetItems_testItems :
  (gh.GetItems (inr testItems)).1.1.1
  = [ Card.mk "item_1" ContentTypeIssue "Fix bug" "https://github.com/test/repo/issues/1"
        "test/repo" 7 "opt_todo" ["alice"; "bob"] "body" "OPEN" ["bug"] "carol"
        "2024-01-01T00:00:00Z";
      Card.mk "item_2" ContentTypePullRequest "Add feature"
        "https://github.com/test/repo/issues/1" "test/repo" 7 "" ["alice"; "bob"] "body"
        "OPEN" ["bug"] "carol" "2024-01-01T00:00:00Z";
      Card.mk "item_3" ContentTypeDraftIssue "Draft"
        "https://github.com/test/repo/issues/1" "" 0 "opt_done" ["alice"; "bob"] "" ""
        ["bug"] "carol" "2024-01-01T00:00:00Z";
      Card.mk "item_4" ContentTypePrivate "(unknown item type)" "" "" 0 "opt_todo"
        ["alice"; "bob"] "" "" ["bug"] "carol" "2024-01-01T00:00:00Z";
      Card.mk "item_5" ContentTypePrivate "(private item)" "" "" 0 "" [] "" "" [] "" "" ].
Proof. reflexivity. Qed.

Lemma fields_become_columns_witness :
  let node := gh.FieldNode.mk "field_status" "Status" FieldTypeSingleSelect
                [ gh.OptionNode.mk "opt_todo" "Todo" "GRAY";
                  gh.OptionNode.mk "opt_inprogress" "In Progress" "YELLOW";
                  gh.OptionNode.mk "opt_done" "Done" "GREEN" ] in
  let ids := if decide (gh.FieldNode.DataType node = FieldTypeSingleSelect)
             then gh.OptionNode.ID <$> gh.FieldNode.Options node else [] in
  wf testState ∧ testFieldNodes !! 1%nat = Some node
  ∧ ∃ fs f σ1 m',
      gh.GetProjectFields (inr testFieldNodes) = (fs, None)
      ∧ length fs = length testFieldNodes
      ∧ fs !! 1%nat = Some f
      ∧ FieldDef.ID f = gh.FieldNode.ID node
      ∧ FieldDef.Name f = gh.FieldNode.Name node
      ∧ FieldDef.Type_ f = gh.FieldNode.DataType node
      ∧ FieldDef.Order f = Z.of_nat 1
      ∧ Option.ID <$> FieldDef.Options f = ids
      ∧ (∀ j o, FieldDef.Options f !! j = Some o → Option.Order o = Z.of_nat j)
      ∧ SetGroupField (Some f) testState = Some (tt, σ1)
      ∧ Board.rebuildColumns Board.NewBoardModel σ1 = Some (m', σ1)
      ∧ Board.columns (Board.view m') = ids ++ [NoStatusKey].
Proof.
  intros node ids. split; [apply testState_wf|]. split; [reflexivity|].
  exact (fields_become_columns testFieldNodes 1 node Board.NewBoardModel testState
           testState_wf eq_refl).
Defined.
(** * The change of the grouping field *)

Section app_field.

Lemma filter_single_select_nonempty fs :
  Exists isSingleSelect fs ↔ length (filter isSingleSelect fs) ≠ 0%nat.
Proof.
  rewrite Exists_exists. split.
  - intros (f & Hin & Hf) Hlen. apply nil_length_inv in Hlen.
    by apply (filter_nil_not_elem_of _ _ f Hlen).
  - intros Hlen. destruct (filter isSingleSelect fs) as [|f l] eqn:Hfs; [done|].
    assert (Hin : f ∈ filter isSingleSelect fs) by (rewrite Hfs; by left).
    apply list_elem_of_filter in Hin as [Hf Hin]. eauto.
Qed.

(** [SetGroupField] keeps the cards and the lists of the columns. *)
Lemma SetGroupField_reads field σ :
  wf σ → indexed σ →
  ∃ σ',
    SetGroupField field σ = Some (tt, σ')
    ∧ groupField (st σ') = field
    ∧ (∀ itemID, readCard σ' itemID = readCard σ itemID)
    ∧ (∀ k itemID, itemID ∈ readColumns σ' !!! k ↔ itemID ∈ readColumns σ !!! k).
Proof.
  intros (Hc & Hr & Hcol) Hi.
  destruct (SetGroupField_run field σ Hc) as (σ' & Hrun & Hreb).
  exists σ'. split; [done|].
  destruct (rebuilt_wf_indexed _ _ Hreb) as [Hwf' Hi']; [done..|].
  assert (Hread : ∀ itemID, readCard σ' itemID = readCard σ itemID).
  { intros itemID. by rewrite (rebuilt_readCard _ _ itemID Hreb). }
  split_and!; try done.
  - destruct Hreb as [_ _ _ _ H5 _ _]. by rewrite H5.
  - intros k itemID. rewrite !indexed_elem by done. by setoid_rewrite Hread.
Qed.

(** X23.  The change of the grouping field from the board offers exactly
    the SINGLE_SELECT fields of the project, in the order in which they
    were fetched, whether or not the start-up heuristic had chosen one by
    itself; without such a field the app ends in its error display.
    Choosing one of the offered fields makes it the grouping field of the
    store and of the app and keeps every card and every column list of the
    store as it is. *)
Theorem change_group_field (m : AppModel) (σ : State) :
  wf σ → indexed σ →
  ∃ m' cmd,
    changeGroupField m σ = Some ((m', cmd), σ)
    ∧ (¬ Exists isSingleSelect (fields m) →
       m' = set_err (Some (errors_New "no SINGLE_SELECT fields available")) m
       ∧ cmd = appNil ∧ showsError m' = true)
    ∧ (Exists isSingleSelect (fields m) →
       ∃ candidates,
         m' = set_screen ScreenFieldPicker (Some (GroupFieldPickerModel candidates)) m
         ∧ cmd = appPickerInit
         ∧ candidates `sublist_of` fields m
         ∧ (∀ f, f ∈ candidates ↔ f ∈ fields m ∧ isSingleSelect f)
         ∧ (∀ cands, SelectGroupField (fields m) = (None, cands, None) →
                     cands = candidates)
         ∧ (∀ f, f ∈ candidates →
              ∃ m'' σ',
                fieldSelected m' f σ = Some ((m'', appLoadItemsAndShowBoard), σ')
                ∧ obsValue GetGroupField σ' = Some (Some f)
                ∧ appGroupField m'' = Some f ∧ currentModel m'' = None
                ∧ (∀ itemID, readCard σ' itemID = readCard σ itemID)
                ∧ (∀ k itemID,
                     itemID ∈ readColumns σ' !!! k ↔ itemID ∈ readColumns σ !!! k))).
Proof.
  intros Hwf Hi. unfold changeGroupField.
  change (filter (λ f, FieldDef.Type_ f = FieldTypeSingleSelect) (fields m))
    with (filter isSingleSelect (fields m)).
  destruct (decide (length (filter isSingleSelect (fields m)) = 0%nat)) as [Hz|Hnz].
  - eexists _, _. split; [reflexivity|]. split; [done|].
    intros Hex. by apply filter_single_select_nonempty in Hex.
  - eexists _, _. split; [reflexivity|]. split.
    { intros Hnex. exfalso. apply Hnex. by apply filter_single_select_nonempty. }
    intros _. exists (filter isSingleSelect (fields m)). split_and!; try done.
    + apply sublist_filter.
    + intros f. rewrite list_elem_of_filter. tauto.
    + intros cands. unfold SelectGroupField.
      change (filter (λ f, FieldDef.Type_ f = FieldTypeSingleSelect) (fields m))
        with (filter isSingleSelect (fields m)).
      rewrite decide_False by done.
      destruct (List.find _ _); [done|]. case_decide as Hone; [|congruence].
      destruct (filter isSingleSelect (fields m)); done.
    + intros f Hf.
      destruct (SetGroupField_reads (Some f) σ Hwf Hi) as (σ' & Hrun & Hfield & Hread & Hcols).
      unfold fieldSelected, bind. rewrite Hrun.
      eexists _, σ'. split; [reflexivity|]. split_and!; try done.
      unfold obsValue, GetGroupField, bind, getStore. simpl. by rewrite Hfield.
Qed.

End app_field.

Lemma change_group_field_witness :
  wf testState ∧ indexed testState
  ∧ ∃ m' cmd,
      changeGroupField boardApp testState = Some ((m', cmd), testState)
      ∧ (¬ Exists isSingleSelect (fields boardApp) →
         m' = set_err (Some (errors_New "no SINGLE_SELECT fields available")) boardApp
         ∧ cmd = appNil ∧ showsError m' = true)
      ∧ (Exists isSingleSelect (fields boardApp) →
         ∃ candidates,
           m' = set_screen ScreenFieldPicker (Some (GroupFieldPickerModel candidates))
                  boardApp
           ∧ cmd = appPickerInit
           ∧ candidates `sublist_of` fields boardApp
           ∧ (∀ f, f ∈ candidates ↔ f ∈ fields boardApp ∧ isSingleSelect f)
           ∧ (∀ cands, SelectGroupField (fields boardApp) = (None, cands, None) →
                       cands = candidates)
           ∧ (∀ f, f ∈ candidates →
                ∃ m'' σ',
                  fieldSelected m' f testState
                  = Some ((m'', appLoadItemsAndShowBoard), σ')
                  ∧ obsValue GetGroupField σ' = Some (Some f)
                  ∧ appGroupField m'' = Some f ∧ currentModel m'' = None
                  ∧ (∀ itemID, readCard σ' itemID = readCard testState itemID)
                  ∧ (∀ k itemID,
                       itemID ∈ readColumns σ' !!! k
                       ↔ itemID ∈ readColumns testState !!! k))).
Proof.
  assert (Hi : indexed testState).
  { apply reachable_wf_indexed, testState_reachable. }
  split; [apply testState_wf|]. split; [exact Hi|].
  exact (change_group_field boardApp testState testState_wf Hi).
Defined.

(** On the test project the start-up heuristic chooses Status by itself,
    and the change of the field offers Status and Priority. *)
Example change_group_field_offers_both :
  (SelectGroupField (fields boardApp)).1.2 = []
  ∧ FieldDef.Name <$> (SelectGroupField (fields boardApp)).1.1 = Some "Status"
  ∧ ∃ candidates,
      changeGroupField boardApp testState
      = Some ((set_screen ScreenFieldPicker (Some (GroupFieldPickerModel candidates))
                 boardApp, appPickerInit), testState)
      ∧ FieldDef.Name <$> candidates = ["Status"; "Priority"].
Proof.
  split; [reflexivity|]. split; [reflexivity|].
  eexists. split; reflexivity.
Qed.
(** * The view of the board: what is drawn *)

Section board_render.

Ltac unwrap :=
  repeat match goal with
         | |- context [Board.wrap ?z] => rewrite (wrap_small z) by lia
         end.

(** With the width of the window known, [renderBoard] counts the columns
    that fit as [adjustColumnScroll] does. *)
Lemma columnRange_visibleCols v :
  Board.width v ≠ 0 →
  Board.columnRange v (Board.viewWidth v)
  = (if decide (Board.len (Board.columns v)
                < Board.wrap (Board.columnOffset v + Board.visibleCols v))
     then (if decide (Board.len (Board.columns v) - Board.visibleCols v < 0) then 0
           else Board.len (Board.columns v) - Board.visibleCols v,
           Board.len (Board.columns v))
     else (Board.columnOffset v, Board.wrap (Board.columnOffset v + Board.visibleCols v))).
Proof.
  intros Hw. unfold Board.columnRange, Board.viewWidth, Board.visibleCols.
  by rewrite (decide_False (P := Board.width v = 0)).
Qed.

(** The heights in closed form. *)
Lemma boardHeight_max m :
  Board.height (Board.view m) ≠ 0 → small (Board.height (Board.view m)) →
  Board.boardHeight m
  = Z.max 5 (Board.height (Board.view m) - 2
             - (if Board.filterMode (Board.view m) then 1 else 0)
             - (if moveMode (Board.ctl m) then 1 else 0)).
Proof.
  unfold small, Board.boardHeight, Board.viewHeight. intros H0 H.
  rewrite (decide_False (P := Board.height (Board.view m) = 0)) by done.
  destruct (moveMode (Board.ctl m)), (Board.filterMode (Board.view m));
    unwrap; case_decide; lia.
Qed.

Lemma maxCardLines_max t : small t → Board.maxCardLines t = Z.max 2 (t - 3).
Proof.
  unfold small, Board.maxCardLines. intros H. unwrap. repeat case_decide; lia.
Qed.

Lemma visibleCards_max m :
  small (Board.height (Board.view m)) →
  Board.visibleCards m
  = Z.max 3 (Board.height (Board.view m) - 6
             - (if Board.filterMode (Board.view m) then 1 else 0)
             - (if moveMode (Board.ctl m) then 1 else 0)).
Proof.
  unfold small, Board.visibleCards, Board.headerLines. intros H.
  destruct (moveMode (Board.ctl m)), (Board.filterMode (Board.view m));
    unwrap; case_decide; lia.
Qed.

(** The number of card lines of [renderColumn] is at most the number of
    cards that [adjustScroll] counts. *)
Lemma cardSlots_visibleCards m :
  Board.height (Board.view m) ≠ 0 → small (Board.height (Board.view m)) →
  let cardSlots := Board.wrap (Board.maxCardLines (Board.boardHeight m) - 1) in
  (if decide (cardSlots < 1) then 1 else cardSlots) ≤ Board.visibleCards m
  ∧ cardSlots ≤ 2 ^ 61.
Proof.
  intros H0 H. rewrite visibleCards_max, boardHeight_max by done.
  unfold small in H.
  rewrite maxCardLines_max
    by (unfold small; destruct (moveMode (Board.ctl m)), (Board.filterMode (Board.view m)); lia).
  cbv zeta.
  destruct (moveMode (Board.ctl m)), (Board.filterMode (Board.view m));
    unwrap; case_decide; lia.
Qed.

(** X24.  The selected column is drawn.  When the width of the window is
    known and adjustColumnScroll has run, the range of columns that
    renderBoard draws holds only indices of columns, and the selected
    column is one of them; the column offset stays non-negative. *)
Theorem selected_column_is_drawn (m : Board.Model) :
  let v := Board.view m in
  let m' := Board.adjustColumnScroll m in
  Board.width v ≠ 0 →
  Board.len (Board.columns v) ≤ 2 ^ 61 →
  0 ≤ Board.columnOffset v ≤ 2 ^ 61 →
  0 ≤ Board.selectedColumn v < Board.len (Board.columns v) →
  Board.selectedColumn (Board.view m') = Board.selectedColumn v
  ∧ 0 ≤ Board.columnOffset (Board.view m') ≤ 2 ^ 61
  ∧ 0 ≤ (Board.drawnColumns m').1
  ∧ (Board.drawnColumns m').2 ≤ Board.len (Board.columns v)
  ∧ drawn (Board.drawnColumns m') (Board.selectedColumn v).
Proof.
  intros v m' Hw Hlen Hco Hsc.
  assert (Hne : Board.len (Board.columns v) ≠ 0) by lia.
  pose proof (visibleCols_range _ Hne) as Hvis.
  assert (Hview : ∃ off,
    Board.view m' = Board.set_columnOffset off v
    ∧ 0 ≤ off ≤ Board.selectedColumn v
    ∧ Board.selectedColumn v < off + Board.visibleCols v).
  { unfold m', Board.adjustColumnScroll. fold v.
    rewrite decide_False by tauto.
    rewrite (wrap_small (Board.columnOffset v + _)) by lia.
    rewrite (wrap_small (Board.selectedColumn v - _)) by lia.
    rewrite (wrap_small (Board.selectedColumn v - _ + 1)) by lia.
    repeat case_decide; view_simpl; fold v.
    - eexists. split; [reflexivity|]. lia.
    - eexists. split; [reflexivity|]. lia.
    - eexists. split; [reflexivity|]. lia.
    - exists (Board.columnOffset v). split; [by destruct v|]. lia. }
  destruct Hview as (off & Hv' & Hoff & Hsel).
  unfold drawn, Board.drawnColumns. rewrite Hv'.
  rewrite columnRange_visibleCols by done.
  change (Board.visibleCols (Board.set_columnOffset off v)) with (Board.visibleCols v).
  view_simpl.
  rewrite (wrap_small (off + Board.visibleCols v)) by lia.
  repeat case_decide; simpl; lia.
Qed.

(** X25.  A card that adjustScroll scrolls down to is not drawn.  When the
    selected card is below the scroll window of its column, adjustScroll
    moves the scroll offset to the selection less visibleCards plus one; in
    a window whose height is set renderColumn then gives one line of the
    column to each scroll indicator, and its loop over the cards ends
    before the card above the selected one. *)
Theorem scrolled_down_selection_is_not_drawn (m : Board.Model) (colID : string) :
  let v := Board.view m in
  let i := Board.intAt (Board.selectedCard v) colID in
  let o := Board.intAt (Board.scrollOffset v) colID in
  let m' := Board.adjustScroll colID m in
  Board.height v ≠ 0 → small (Board.height v) →
  0 ≤ o →
  i < Board.len (Board.idsAt (Board.filteredCards v) colID) ≤ 2 ^ 61 →
  o + Board.visibleCards m ≤ i →
  Board.intAt (Board.selectedCard (Board.view m')) colID = i
  ∧ (Board.drawnCards m' colID).1 = i - Board.visibleCards m + 1
  ∧ (Board.drawnCards m' colID).2 ≤ i - 1
  ∧ ¬ drawn (Board.drawnCards m' colID) i.
Proof.
  intros v i o m' Hh0 Hh Ho Hlen Hbelow.
  pose proof (visibleCards_range m Hh) as Hvis.
  pose proof (cardSlots_visibleCards m Hh0 Hh) as [Hslots Hslots'].
  assert (Hview : Board.view m'
    = Board.set_scrollOffset
        (<[colID := i - Board.visibleCards m + 1]> (Board.scrollOffset v)) v
    ∧ Board.ctl m' = Board.ctl m).
  { unfold m', Board.adjustScroll. fold v i o.
    rewrite (wrap_small (o + Board.visibleCards m)) by lia.
    rewrite (wrap_small (i - Board.visibleCards m)) by lia.
    rewrite (wrap_small (i - Board.visibleCards m + 1)) by lia.
    rewrite (decide_False (P := i < o)) by lia.
    rewrite (decide_True (P := o + Board.visibleCards m ≤ i)) by lia.
    done. }
  destruct Hview as [Hv' Hctl].
  assert (Hbh : Board.boardHeight m' = Board.boardHeight m).
  { unfold Board.boardHeight. by rewrite Hv', Hctl. }
  unfold drawn, Board.drawnCards. rewrite Hbh, Hv'. unfold Board.cardRange.
  view_simpl. fold i. rewrite intAt_insert.
  rewrite (decide_True (P := colID = colID)) by done.
  set (cardSlots := Board.wrap (Board.maxCardLines (Board.boardHeight m) - 1)) in *.
  set (slots := if decide (cardSlots < 1) then 1 else cardSlots) in *.
  assert (Hs1 : 1 ≤ slots ≤ 2 ^ 61) by (unfold slots; case_decide; lia).
  set (n := Board.len (Board.idsAt (Board.filteredCards v) colID)) in *.
  rewrite bool_decide_eq_true_2 by lia.
  rewrite (wrap_small (i - Board.visibleCards m + 1 + (slots - 1))) by lia.
  rewrite (wrap_small (i - Board.visibleCards m + 1 + (slots - 1 - 1))) by lia.
  split; [done|].
  repeat case_decide; simpl; lia.
Qed.

End board_render.

Lemma selected_column_is_drawn_witness :
  let v := Board.view scrollModel in
  let m' := Board.adjustColumnScroll scrollModel in
  Board.width v ≠ 0
  ∧ Board.len (Board.columns v) ≤ 2 ^ 61
  ∧ 0 ≤ Board.columnOffset v ≤ 2 ^ 61
  ∧ 0 ≤ Board.selectedColumn v < Board.len (Board.columns v)
  ∧ Board.selectedColumn (Board.view m') = Board.selectedColumn v
  ∧ 0 ≤ Board.columnOffset (Board.view m') ≤ 2 ^ 61
  ∧ 0 ≤ (Board.drawnColumns m').1
  ∧ (Board.drawnColumns m').2 ≤ Board.len (Board.columns v)
  ∧ drawn (Board.drawnColumns m') (Board.selectedColumn v).
Proof.
  assert (Hw : Board.width (Board.view scrollModel) ≠ 0) by (simpl; lia).
  assert (Hlen : Board.len (Board.columns (Board.view scrollModel)) ≤ 2 ^ 61).
  { vm_compute. discriminate. }
  assert (Hco : 0 ≤ Board.columnOffset (Board.view scrollModel) ≤ 2 ^ 61).
  { simpl. lia. }
  assert (Hsc : 0 ≤ Board.selectedColumn (Board.view scrollModel)
                < Board.len (Board.columns (Board.view scrollModel))).
  { vm_compute. split; [discriminate|reflexivity]. }
  split; [exact Hw|]. split; [exact Hlen|]. split; [exact Hco|]. split; [exact Hsc|].
  exact (selected_column_is_drawn scrollModel Hw Hlen Hco Hsc).
Defined.

(** The scenario, run: a window of 50 columns has room for two of the four
    columns; with the last column selected the columns 2 and 3 are drawn. *)
Example last_column_is_drawn :
  Board.drawnColumns scrollModel = (0, 2)
  ∧ Board.drawnColumns (Board.adjustColumnScroll scrollModel) = (2, 4).
Proof. split; vm_compute; reflexivity. Qed.

Lemma scrolled_down_selection_is_not_drawn_witness :
  let v := Board.view pageDownModel in
  let i := Board.intAt (Board.selectedCard v) NoStatusKey in
  let o := Board.intAt (Board.scrollOffset v) NoStatusKey in
  let m' := Board.adjustScroll NoStatusKey pageDownModel in
  Board.height v ≠ 0 ∧ small (Board.height v)
  ∧ 0 ≤ o
  ∧ i < Board.len (Board.idsAt (Board.filteredCards v) NoStatusKey) ≤ 2 ^ 61
  ∧ o + Board.visibleCards pageDownModel ≤ i
  ∧ Board.intAt (Board.selectedCard (Board.view m')) NoStatusKey = i
  ∧ (Board.drawnCards m' NoStatusKey).1 = i - Board.visibleCards pageDownModel + 1
  ∧ (Board.drawnCards m' NoStatusKey).2 ≤ i - 1
  ∧ ¬ drawn (Board.drawnCards m' NoStatusKey) i.
Proof.
  assert (Hh0 : Board.height (Board.view pageDownModel) ≠ 0) by (simpl; lia).
  assert (Hh : small (Board.height (Board.view pageDownModel))).
  { unfold small. simpl. lia. }
  assert (Ho : 0 ≤ Board.intAt (Board.scrollOffset (Board.view pageDownModel)) NoStatusKey).
  { vm_compute. discriminate. }
  assert (Hlen : Board.intAt (Board.selectedCard (Board.view pageDownModel)) NoStatusKey
                 < Board.len (Board.idsAt (Board.filteredCards (Board.view pageDownModel))
                                NoStatusKey) ≤ 2 ^ 61).
  { vm_compute. split; [reflexivity|discriminate]. }
  assert (Hbelow : Board.intAt (Board.scrollOffset (Board.view pageDownModel)) NoStatusKey
                   + Board.visibleCards pageDownModel
                   ≤ Board.intAt (Board.selectedCard (Board.view pageDownModel)) NoStatusKey).
  { vm_compute. discriminate. }
  split; [exact Hh0|]. split; [exact Hh|]. split; [exact Ho|]. split; [exact Hlen|].
  split; [exact Hbelow|].
  exact (scrolled_down_selection_is_not_drawn pageDownModel NoStatusKey
           Hh0 Hh Ho Hlen Hbelow).
Defined.

(** The scenario, run: in the window of 10 lines the key for a page down
    moves the selection from the first card to the card with index 10 and
    the scroll offset to 7; the lines of the column then hold the two
    indicators and the cards 7 and 8. *)
Example page_down_hides_selection :
  ∃ m1,
    Board.moveCardSelection Board.pageJumpSize scrollModel = Some m1
    ∧ Board.selectedCard (Board.view m1) !! NoStatusKey = Some 10
    ∧ Board.drawnCards scrollModel NoStatusKey = (0, 3)
    ∧ Board.drawnCards m1 NoStatusKey = (7, 9).
Proof.
  eexists. split; [vm_compute; reflexivity|].
  split; [vm_compute; reflexivity|].
  split; vm_compute; reflexivity.
Qed.
